(** * react-render-loop-tracer: the runtime (src/runtime.js)

    A shallow embedding of the event correlation and buffered logging
    engine: the dependency differ, the log buffer with its two observer
    callbacks and the fallback flush, the wrapper cache of
    [__trackedUseState] / [__trackedUseReducer], and the effect
    instrumentor [trackedEffectImpl].

    Conventions of the embedding.
    - Module-level and global mutable state is one record, [World], passed
      explicitly; a function that may throw returns a [Result].
    - JavaScript objects that are shared and mutated (the tracker object of
      an effect invocation, the closures of the wrappers) live in a heap
      and are named by their address.
    - Timestamps ([performance.now()], milliseconds) are finite doubles,
      given by their exact values, which are rationals; they are compared
      exactly, and [+] and [-] round as IEEE 754 binary64 does.
    - The host framework (React) is a collaborator: what [useState] and
      [useReducer] return is a parameter, the calls forwarded to the raw
      setter or dispatch are recorded in [hostCalls]. Updaters and
      reducers have no effect on the world, as React requires, but may
      throw; a lazy initializer, which the host has run before the
      tracked hook reads it, returns.
    - An effect body is arbitrary host code: a function on the world that
      returns its cleanup or throws.
    - A custom logger is a sink: it records the message it is called with. *)

From Stdlib Require Import QArith Qround.
From Stdlib Require SpecFloat.
From stdpp Require Import gmap strings list pretty.

(** ** JavaScript values, as far as identity is concerned *)

Inductive Value :=
| VUndefined
| VNull
| VBool (b : bool)
| VNum (z : Z)        (* a number other than NaN and -0 *)
| VNegZero            (* -0 *)
| VNaN
| VStr (s : string)
| VObj (ref : nat).   (* an object, array or function, by reference *)

#[global] Instance Value_eq_dec : EqDecision Value.
Proof. solve_decision. Defined.

(** [Object.is(x, y)] (SameValue): NaN is NaN, +0 is not -0. *)
Definition Object_is (x y : Value) : bool := bool_decide (x = y).

(** [x === y]: NaN differs from itself, +0 equals -0. *)
Definition strictEq (x y : Value) : bool :=
  match x, y with
  | VNaN, _ | _, VNaN => false
  | VNum 0, VNegZero | VNegZero, VNum 0 => true
  | _, _ => bool_decide (x = y)
  end.

(** ** Dependency diffing *)

(** [depNames[i] || `dep[${i}]`]: a missing or empty name falls back. *)
Definition depNameAt (depNames : list string) (i : nat) : string :=
  match depNames !! i with
  | Some name => if bool_decide (name = EmptyString) then "dep[" +:+ pretty i +:+ "]" else name
  | None => "dep[" +:+ pretty i +:+ "]"
  end.

(** [prevDeps[i]]: reading past the end of an array gives [undefined]. *)
Definition depAt (deps : list Value) (i : nat) : Value := default VUndefined (deps !! i).

(** The body of the [for] loop of [getChangedDeps], at index [i]. *)
Definition changedStep (prevDeps currentDeps : list Value) (depNames : list string)
    (changed : list string) (i : nat) : list string :=
  if Object_is (depAt prevDeps i) (depAt currentDeps i) then changed
  else changed ++ [depNameAt depNames i].

Definition getChangedDeps (prevDeps currentDeps : option (list Value))
    (depNames : option (list string)) : option (list string) :=
  match prevDeps, depNames, currentDeps with
  | Some prev, Some names, Some current =>
      Some (foldl (changedStep prev current names) [] (seq 0 (length current)))
  | _, _, _ => None
  end.

(** ** Log entries and the console *)

Inductive EntryType := StateChange | EffectRun | SlowEffect.

#[global] Instance EntryType_eq_dec : EqDecision EntryType.
Proof. solve_decision. Defined.

Definition typeName (ty : EntryType) : string :=
  match ty with
  | StateChange => "state-change"
  | EffectRun => "effect-run"
  | SlowEffect => "slow-effect"
  end.

Module LogEntry.
Record t := mk {
  message : string;
  time : Q;
  type : EntryType;
  location : string;
  countKey : string
}.
End LogEntry.

Inductive ConsoleCall :=
| console_log (text : string)
| console_info (text : string)
| console_warn (text : string)
| console_groupCollapsed (label : string)
| console_groupEnd.

Definition printSingle (type : EntryType) (formatted : string) : ConsoleCall :=
  match type with
  | SlowEffect => console_warn formatted
  | EffectRun => console_info formatted
  | StateChange => console_log formatted
  end.

(** [(m.get(key) || 0) + 1] *)
Definition countOf (m : gmap string nat) (key : string) : nat := default 0 (m !! key).

Definition countTotals (entries : list LogEntry.t) : gmap string nat :=
  foldl (fun totals entry =>
           <[LogEntry.countKey entry := countOf totals (LogEntry.countKey entry) + 1]> totals)
        ∅ entries.

(** The second loop of [printEntries], with the running [current] map. *)
Fixpoint printLoop (totals current : gmap string nat) (entries : list LogEntry.t)
    : list ConsoleCall :=
  match entries with
  | [] => []
  | entry :: rest =>
      let key := LogEntry.countKey entry in
      let idx := countOf current key + 1 in
      let current' := <[key := idx]> current in
      let total := match totals !! key with
                   | Some n => if bool_decide (n = 0) then 1 else n
                   | None => 1
                   end in
      let count := if bool_decide (1 < total)
                   then " " +:+ pretty idx +:+ "/" +:+ pretty total else EmptyString in
      printSingle (LogEntry.type entry)
        ("[" +:+ typeName (LogEntry.type entry) +:+ "]" +:+ count +:+ " "
             +:+ LogEntry.message entry)
      :: printLoop totals current' rest
  end.

Definition printEntries (entries : list LogEntry.t) : list ConsoleCall :=
  printLoop (countTotals entries) ∅ entries.

(** ** Timing signals *)

Module LongTask.
Record t := mk { startTime : Q; duration : Q }.
End LongTask.

Module EventTiming.
(** [PerformanceEventTimingLike]; a [null] or missing [interactionId] is [None]. *)
Record t := mk {
  startTime : Q;
  duration : Q;
  processingStart : Q;
  processingEnd : Q;
  interactionId : option Z;
  name : string;
  entryType : string
}.
End EventTiming.

(** [x < y] on timestamps. *)
Definition Qltb (x y : Q) : bool := negb (Qle_bool y x).

(** [Math.round]: the nearest integer, halves towards plus infinity. *)
Definition Math_round (x : Q) : Z := Qfloor (x + (1 # 2)).

(** ** Arithmetic on Numbers

    The result of [+] or [-] on two finite doubles is the double nearest
    to the exact result (round to nearest, ties to even), or an infinity
    when the exact result is out of range. The operands are given by
    their exact values; the same rounding is applied to the exact result
    for operands that are not doubles. *)
Inductive Number :=
| Finite (q : Q)
| PlusInfinity
| MinusInfinity
| NotANumber.

(** The binary64 value nearest to a rational, by the rounding of the
    Standard Library's specification of IEEE 754. *)
Definition nearestDouble (x : Q) : SpecFloat.spec_float :=
  let numerator := Qnum (Qred x) in
  let denominator := Zpos (Qden (Qred x)) in
  match numerator with
  | Z0 => SpecFloat.S754_zero false
  | Zpos n =>
      let '(m, e, l) := SpecFloat.SFdiv_core_binary 53 1024 (Zpos n) 0 denominator 0 in
      SpecFloat.binary_round_aux 53 1024 false m e l
  | Zneg n =>
      let '(m, e, l) := SpecFloat.SFdiv_core_binary 53 1024 (Zpos n) 0 denominator 0 in
      SpecFloat.binary_round_aux 53 1024 true m e l
  end.

(** 2 to the power [e]. *)
Definition pow2 (e : Z) : Q :=
  match e with
  | Z0 => 1
  | Zpos p => inject_Z (Z.pow_pos 2 p)
  | Zneg p => 1 # (Pos.pow 2 p)
  end.

(** The value of a binary64 datum. *)
Definition numberOf (f : SpecFloat.spec_float) : Number :=
  match f with
  | SpecFloat.S754_zero _ => Finite 0
  | SpecFloat.S754_infinity false => PlusInfinity
  | SpecFloat.S754_infinity true => MinusInfinity
  | SpecFloat.S754_nan => NotANumber
  | SpecFloat.S754_finite s m e =>
      Finite (Qred (inject_Z (if s then Zneg m else Zpos m) * pow2 e))
  end.

(** [x + y] *)
Definition Number_add (x y : Q) : Number := numberOf (nearestDouble (x + y)).

(** [x - y] *)
Definition Number_sub (x y : Q) : Number := numberOf (nearestDouble (x - y)).

(** [x <= n], for a finite [x]. *)
Definition Number_leb (x : Q) (n : Number) : bool :=
  match n with
  | Finite q => Qle_bool x q
  | PlusInfinity => true
  | MinusInfinity => false
  | NotANumber => false
  end.

(** [`${Math.round(n)}`] *)
Definition roundedText (n : Number) : string :=
  match n with
  | Finite q => pretty (Math_round q)
  | PlusInfinity => "Infinity"
  | MinusInfinity => "-Infinity"
  | NotANumber => "NaN"
  end.

(** The double that a decimal literal denotes. *)
Definition literal (x : Q) : Q :=
  match numberOf (nearestDouble x) with
  | Finite q => q
  | _ => x
  end.

(** ** Wrapper closures, trackers and the world *)

Module Meta.
Record t := mk { location : string; componentName : string; stateName : string }.
End Meta.

Module EffectTracker.
Record t := mk {
  location : string;
  componentName : string;
  changedDeps : option (list string);
  depNames : option (list string);
  stateWasSet : bool
}.
End EffectTracker.

(** How a call of a function ends: it returns, or it throws. *)
Inductive Result (A : Type) :=
| Returned (a : A)
| Thrown (e : Value).
Arguments Returned {A} a.
Arguments Thrown {A} e.

(** What a tracked setter is called with: a plain value, or an updater
    ([typeof valueOrUpdater === "function"]), which returns the new value
    or throws. *)
Inductive SetStateArg :=
| PlainValue (v : Value)
| Updater (f : Value -> Result Value).

(** The initial state of [useState]: a value or a lazy initializer. *)
Inductive InitArg :=
| InitValue (v : Value)
| InitFunction (f : unit -> Value).

(** The closure of a wrapper function: its captured variables. *)
Inductive Closure :=
| StateWrapper (meta : Meta.t) (value : Value) (rawSetState : nat)
| ReducerWrapper (meta : Meta.t) (reducer : Value -> Value -> Result Value)
    (trackedState : Value) (rawDispatch : nat).

(** An entry of [stateTrackerMap] / [reducerTrackerMap]. *)
Module Tracked.
Record t := mk { wrapper : nat; meta : Meta.t }.
End Tracked.

(** Calls that reach the host framework's own update path. *)
Inductive HostCall :=
| call_rawSetState (rawSetState : nat) (valueOrUpdater : SetStateArg)
| call_rawDispatch (rawDispatch : nat) (action : Value).

Record World := mkWorld {
  (* globalThis *)
  effectTracker : option nat;          (* __effectTracker: null or a tracker object *)
  effectTrackerLogger : bool;          (* __effectTrackerLogger is set *)
  loggerReceived : list string;        (* what the custom logger was called with *)
  (* host environment *)
  hasPerformance : bool;               (* typeof performance !== "undefined" *)
  now : Q;                             (* performance.now() *)
  console : list ConsoleCall;
  hostCalls : list HostCall;
  (* module state *)
  logBuffer : list LogEntry.t;
  flushTimer : option Q;               (* null, or the pending timer with its due time *)
  stateTrackerMap : gmap nat Tracked.t;
  reducerTrackerMap : gmap nat Tracked.t;
  (* heap *)
  trackers : list EffectTracker.t;
  closures : list Closure
}.

Definition set_effectTracker (x : option nat) (w : World) : World :=
  mkWorld x (effectTrackerLogger w) (loggerReceived w) (hasPerformance w) (now w)
    (console w) (hostCalls w) (logBuffer w) (flushTimer w) (stateTrackerMap w)
    (reducerTrackerMap w) (trackers w) (closures w).
Definition set_loggerReceived (x : list string) (w : World) : World :=
  mkWorld (effectTracker w) (effectTrackerLogger w) x (hasPerformance w) (now w)
    (console w) (hostCalls w) (logBuffer w) (flushTimer w) (stateTrackerMap w)
    (reducerTrackerMap w) (trackers w) (closures w).
Definition set_now (x : Q) (w : World) : World :=
  mkWorld (effectTracker w) (effectTrackerLogger w) (loggerReceived w) (hasPerformance w) x
    (console w) (hostCalls w) (logBuffer w) (flushTimer w) (stateTrackerMap w)
    (reducerTrackerMap w) (trackers w) (closures w).
Definition set_console (x : list ConsoleCall) (w : World) : World :=
  mkWorld (effectTracker w) (effectTrackerLogger w) (loggerReceived w) (hasPerformance w) (now w)
    x (hostCalls w) (logBuffer w) (flushTimer w) (stateTrackerMap w)
    (reducerTrackerMap w) (trackers w) (closures w).
Definition set_hostCalls (x : list HostCall) (w : World) : World :=
  mkWorld (effectTracker w) (effectTrackerLogger w) (loggerReceived w) (hasPerformance w) (now w)
    (console w) x (logBuffer w) (flushTimer w) (stateTrackerMap w)
    (reducerTrackerMap w) (trackers w) (closures w).
Definition set_logBuffer (x : list LogEntry.t) (w : World) : World :=
  mkWorld (effectTracker w) (effectTrackerLogger w) (loggerReceived w) (hasPerformance w) (now w)
    (console w) (hostCalls w) x (flushTimer w) (stateTrackerMap w)
    (reducerTrackerMap w) (trackers w) (closures w).
Definition set_flushTimer (x : option Q) (w : World) : World :=
  mkWorld (effectTracker w) (effectTrackerLogger w) (loggerReceived w) (hasPerformance w) (now w)
    (console w) (hostCalls w) (logBuffer w) x (stateTrackerMap w)
    (reducerTrackerMap w) (trackers w) (closures w).
Definition set_stateTrackerMap (x : gmap nat Tracked.t) (w : World) : World :=
  mkWorld (effectTracker w) (effectTrackerLogger w) (loggerReceived w) (hasPerformance w) (now w)
    (console w) (hostCalls w) (logBuffer w) (flushTimer w) x
    (reducerTrackerMap w) (trackers w) (closures w).
Definition set_reducerTrackerMap (x : gmap nat Tracked.t) (w : World) : World :=
  mkWorld (effectTracker w) (effectTrackerLogger w) (loggerReceived w) (hasPerformance w) (now w)
    (console w) (hostCalls w) (logBuffer w) (flushTimer w) (stateTrackerMap w)
    x (trackers w) (closures w).
Definition set_trackers (x : list EffectTracker.t) (w : World) : World :=
  mkWorld (effectTracker w) (effectTrackerLogger w) (loggerReceived w) (hasPerformance w) (now w)
    (console w) (hostCalls w) (logBuffer w) (flushTimer w) (stateTrackerMap w)
    (reducerTrackerMap w) x (closures w).
Definition set_closures (x : list Closure) (w : World) : World :=
  mkWorld (effectTracker w) (effectTrackerLogger w) (loggerReceived w) (hasPerformance w) (now w)
    (console w) (hostCalls w) (logBuffer w) (flushTimer w) (stateTrackerMap w)
    (reducerTrackerMap w) (trackers w) x.

(** ** Logging with long task grouping *)

Definition scheduleFlush (w : World) : World :=
  match flushTimer w with
  | Some _ => w
  | None => set_flushTimer (Some (now w + 100)%Q) w
  end.

Definition log (message : string) (type : EntryType) (location countKey : string)
    (w : World) : World :=
  if effectTrackerLogger w then
    set_loggerReceived (loggerReceived w ++ [message]) w
  else if hasPerformance w then
    scheduleFlush
      (set_logBuffer
         (logBuffer w ++ [LogEntry.mk message (now w) type location countKey]) w)
  else
    set_console (console w ++ [printSingle type message]) w.

Definition notEffectRun (entry : LogEntry.t) : bool :=
  negb (bool_decide (LogEntry.type entry = EffectRun)).

Definition isStateChange (entry : LogEntry.t) : bool :=
  bool_decide (LogEntry.type entry = StateChange).

Definition flushBuffer (w : World) : World :=
  let toFlush := List.filter notEffectRun (logBuffer w) in
  set_logBuffer [] (set_console (console w ++ printEntries toFlush) w).

(** The callback that [scheduleFlush] hands to [setTimeout]. *)
Definition flushTimer_callback (w : World) : World :=
  flushBuffer (set_flushTimer None w).

(** The partition loop shared by both observers: before, during, after. *)
Fixpoint partitionBuffer (windowStart : Q) (windowEnd : Number) (buffer : list LogEntry.t)
    : list LogEntry.t * list LogEntry.t * list LogEntry.t :=
  match buffer with
  | [] => ([], [], [])
  | entry :: rest =>
      let '(before, during, after) := partitionBuffer windowStart windowEnd rest in
      if Qltb (LogEntry.time entry) windowStart then (entry :: before, during, after)
      else if Number_leb (LogEntry.time entry) windowEnd then (before, entry :: during, after)
      else (before, during, entry :: after)
  end.

(** [parts.join(", ")] of the group header. *)
Definition groupParts (during : list LogEntry.t) : string :=
  let stateChanges := length (List.filter isStateChange during) in
  let effectRuns := length (List.filter (fun entry => negb (isStateChange entry)) during) in
  String.concat ", "
    ((if bool_decide (0 < stateChanges) then [pretty stateChanges +:+ " effect→setState"] else [])
     ++ (if bool_decide (0 < effectRuns) then [pretty effectRuns +:+ " other effects"] else [])).

(** The console calls of one group: header, entries, end. *)
Definition printGroup (header : string) (during : list LogEntry.t) : list ConsoleCall :=
  match during with
  | [] => []
  | _ :: _ => [console_groupCollapsed header] ++ printEntries during ++ [console_groupEnd]
  end.

(** The body of the [for (const task of list.getEntries())] loop. *)
Definition longTaskPass (task : LongTask.t) (w : World) : World :=
  let taskStart := LongTask.startTime task in
  let taskEnd := Number_add (LongTask.startTime task) (LongTask.duration task) in
  let '(before, during, after) := partitionBuffer taskStart taskEnd (logBuffer w) in
  let ms := Math_round (LongTask.duration task) in
  let header := "Long Task (" +:+ pretty ms +:+ "ms) — " +:+ groupParts during in
  set_logBuffer after
    (set_console (console w ++ printEntries before ++ printGroup header during) w).

(** The callback of the "longtask" observer. *)
Definition initLongTaskObserver_callback (tasks : list LongTask.t) (w : World) : World :=
  foldl (fun w task => longTaskPass task w) w tasks.

(** [interactions]: a [Map] keeps its keys in insertion order. *)
Fixpoint groupPush (id : Z) (entry : EventTiming.t)
    (interactions : list (Z * list EventTiming.t)) : list (Z * list EventTiming.t) :=
  match interactions with
  | [] => [(id, [entry])]
  | (key, group) :: rest =>
      if bool_decide (key = id) then (key, group ++ [entry]) :: rest
      else (key, group) :: groupPush id entry rest
  end.

(** [!id] *)
Definition falsyId (id : option Z) : bool :=
  match id with
  | None => true
  | Some z => bool_decide (z = 0%Z)
  end.

Definition groupInteractions (raws : list EventTiming.t) : list (Z * list EventTiming.t) :=
  foldl (fun interactions entry =>
           match EventTiming.interactionId entry with
           | Some id => if bool_decide (id = 0%Z) then interactions
                        else groupPush id entry interactions
           | None => interactions
           end) [] raws.

(** [entries.reduce((longest, curr) => longest.duration > curr.duration ? longest : curr)] *)
Definition worstOf (first : EventTiming.t) (rest : list EventTiming.t) : EventTiming.t :=
  foldl (fun longest curr =>
           if Qltb (EventTiming.duration curr) (EventTiming.duration longest)
           then longest else curr) first rest.

(** The body of the [for (const [, entries] of interactions)] loop, from [worst] on. *)
Definition interactionPass (worst : EventTiming.t) (w : World) : World :=
  let procStart := EventTiming.processingStart worst in
  let procEnd := EventTiming.processingEnd worst in
  let '(before, during, after) :=
    partitionBuffer procStart (Finite procEnd) (logBuffer w) in
  let ms := Math_round (EventTiming.duration worst) in
  let header := "Slow Interaction: " +:+ EventTiming.name worst +:+ " (" +:+ pretty ms
                  +:+ "ms) — " +:+ groupParts during in
  set_logBuffer after
    (set_console
       (console w ++ printEntries (List.filter notEffectRun before) ++ printGroup header during)
       w).

(** The callback of the "event" observer. A group is never empty; [reduce]
    on an empty array would throw. *)
Definition initINPObserver_callback (raws : list EventTiming.t) (w : World) : World :=
  foldl (fun w '(_, entries) =>
           match entries with
           | first :: rest => interactionPass (worstOf first rest) w
           | [] => w
           end) w (groupInteractions raws).

(** ** Tracked hooks *)

(** The [reason] of a message, the same expression at its three places. *)
Definition reasonFor (changedDeps : option (list string)) : string :=
  match changedDeps with
  | None => "it was initially mounted"
  | Some [] => "it re-ran (no deps changed detected)"
  | Some names => String.concat ", " names +:+ " changed"
  end.

Definition dquote : string := String (Ascii.ascii_of_nat 34) EmptyString.

#[global] Instance EffectTracker_inhabited : Inhabited EffectTracker.t :=
  populate (EffectTracker.mk EmptyString EmptyString None None false).

(** [tracker.stateWasSet = true] followed by the [log] call of a wrapper;
    [hookName] is "useState" or "useReducer". *)
Definition attributeChange (hookName : string) (meta : Meta.t) (tracker : nat) (w : World)
    : World :=
  let t := trackers w !!! tracker in
  let w1 :=
    set_trackers
      (<[tracker := EffectTracker.mk (EffectTracker.location t) (EffectTracker.componentName t)
                      (EffectTracker.changedDeps t) (EffectTracker.depNames t) true]>
         (trackers w)) w in
  log ("useEffect " +:+ EffectTracker.location t +:+ " in " +:+ EffectTracker.componentName t
         +:+ " changed " +:+ hookName +:+ " " +:+ dquote +:+ Meta.stateName meta +:+ dquote
         +:+ " because " +:+ reasonFor (EffectTracker.changedDeps t))
      StateChange (EffectTracker.location t)
      (EffectTracker.location t +:+ ":" +:+ EffectTracker.componentName t) w1.

(** [typeof valueOrUpdater === "function" ? valueOrUpdater(value) : valueOrUpdater] *)
Definition applyArg (valueOrUpdater : SetStateArg) (value : Value) : Result Value :=
  match valueOrUpdater with
  | Updater f => f value
  | PlainValue v => Returned v
  end.

(** Calling the wrapper that [__trackedUseState] built, the function at
    address [wrapper]. The updater runs first; when it throws, the call
    ends there. *)
Definition callStateWrapper (wrapper : nat) (valueOrUpdater : SetStateArg) (w : World)
    : Result Value * World :=
  match closures w !! wrapper with
  | Some (StateWrapper meta value rawSetState) =>
      match applyArg valueOrUpdater value with
      | Thrown e => (Thrown e, w)
      | Returned newValue =>
          let w1 := match effectTracker w with
                    | Some tracker =>
                        if negb (strictEq value newValue)
                        then attributeChange "useState" meta tracker w
                        else w
                    | None => w
                    end in
          let w2 := set_closures
                      (<[wrapper := StateWrapper meta newValue rawSetState]> (closures w1)) w1 in
          (Returned VUndefined,
           set_hostCalls (hostCalls w2 ++ [call_rawSetState rawSetState valueOrUpdater]) w2)
      end
  | _ => (Returned VUndefined, w)
  end.

(** Calling the wrapper that [__trackedUseReducer] built. The reducer runs
    first; when it throws, the call ends there. *)
Definition callReducerWrapper (wrapper : nat) (action : Value) (w : World)
    : Result Value * World :=
  match closures w !! wrapper with
  | Some (ReducerWrapper meta reducer trackedState rawDispatch) =>
      match reducer trackedState action with
      | Thrown e => (Thrown e, w)
      | Returned nextState =>
          let w1 := match effectTracker w with
                    | Some tracker =>
                        if negb (strictEq trackedState nextState)
                        then attributeChange "useReducer" meta tracker w
                        else w
                    | None => w
                    end in
          let w2 := set_closures
                      (<[wrapper := ReducerWrapper meta reducer nextState rawDispatch]>
                         (closures w1)) w1 in
          (Returned VUndefined,
           set_hostCalls (hostCalls w2 ++ [call_rawDispatch rawDispatch action]) w2)
      end
  | _ => (Returned VUndefined, w)
  end.

(** [useState] is the host's: what it returns for this hook instance at
    this render, the state and the raw setter (a function, by reference). *)
Definition __trackedUseState (useState : InitArg -> Value * nat) (initialValue : InitArg)
    (location componentName stateName : string) (w : World) : (Value * nat) * World :=
  let '(state, rawSetState) := useState initialValue in
  match stateTrackerMap w !! rawSetState with
  | Some tracked => ((state, Tracked.wrapper tracked), w)
  | None =>
      let meta := Meta.mk location componentName stateName in
      let value := match initialValue with
                   | InitFunction f => f ()
                   | InitValue v => v
                   end in
      let wrapper := length (closures w) in
      let w1 := set_closures (closures w ++ [StateWrapper meta value rawSetState]) w in
      let tracked := Tracked.mk wrapper meta in
      ((state, Tracked.wrapper tracked),
       set_stateTrackerMap (<[rawSetState := tracked]> (stateTrackerMap w1)) w1)
  end.

Definition __trackedUseReducer
    (useReducer : (Value -> Value -> Result Value) -> Value -> option (Value -> Value)
                  -> Value * nat)
    (reducer : Value -> Value -> Result Value) (initialArg : Value)
    (init : option (Value -> Value))
    (location componentName stateName : string) (w : World) : (Value * nat) * World :=
  let '(state, rawDispatch) :=
    match init with
    | Some f => useReducer reducer initialArg (Some f)
    | None => useReducer reducer initialArg None
    end in
  match reducerTrackerMap w !! rawDispatch with
  | Some tracked => ((state, Tracked.wrapper tracked), w)
  | None =>
      let meta := Meta.mk location componentName stateName in
      let wrapper := length (closures w) in
      let w1 := set_closures (closures w ++ [ReducerWrapper meta reducer state rawDispatch]) w in
      let tracked := Tracked.mk wrapper meta in
      ((state, Tracked.wrapper tracked),
       set_reducerTrackerMap (<[rawDispatch := tracked]> (reducerTrackerMap w1)) w1)
  end.

(** ** Tracked effects *)

(** The two [useRef] cells of one effect registration. *)
Record EffectRefs := mkRefs {
  prevDepsRef : option (list Value);
  isInitialRef : bool
}.

(** [useRef(undefined)], [useRef(true)] *)
Definition freshRefs : EffectRefs := mkRefs None true.

(** An effect body: host code, which may do anything to the world and
    either returns its cleanup or throws. *)
Definition Callback : Type := World -> Result Value * World.

(** The first block of the effect: the changed dependencies of this run. *)
Definition changedDepsOf (refs : EffectRefs) (deps : option (list Value))
    (depNames : option (list string)) : option (list string) :=
  if isInitialRef refs then None
  else match getChangedDeps (prevDepsRef refs) deps depNames with
       | None => Some []
       | Some changed => Some changed
       end.

(** [globals.__effectTracker = tracker], with a new tracker object. *)
Definition installTracker (tracker : EffectTracker.t) (w : World) : World :=
  set_effectTracker (Some (length (trackers w))) (set_trackers (trackers w ++ [tracker]) w).

(** The block "Slow effect detection (>=8ms)". *)
Definition slowEffectDetection (startTime : Q) (location componentName : string) (w : World)
    : World :=
  if Qltb 0 startTime then
    let duration := Number_sub (now w) startTime in
    if Number_leb 8 duration then
      log ("Slow effect: useEffect " +:+ location +:+ " in " +:+ componentName
             +:+ " took " +:+ roundedText duration +:+ "ms")
          SlowEffect location (location +:+ ":" +:+ componentName) w
    else w
  else w.

(** The block "Non-loop effects: log for long task visibility only";
    [tracker] is the tracker object of this invocation. *)
Definition logNonLoopEffect (tracker : nat) (changedDeps : option (list string))
    (location componentName : string) (w : World) : World :=
  if EffectTracker.stateWasSet (trackers w !!! tracker) then w
  else log ("useEffect " +:+ location +:+ " in " +:+ componentName +:+ " ran because "
              +:+ reasonFor changedDeps)
           EffectRun location (location +:+ ":" +:+ componentName) w.

(** The function that [trackedEffectImpl] passes to the effect hook. *)
Definition effectClosure (callback : Callback) (deps : option (list Value))
    (location componentName : string) (depNames : option (list string))
    (refs : EffectRefs) (w : World) : Result Value * EffectRefs * World :=
  let changedDeps := changedDepsOf refs deps depNames in
  let refs' := mkRefs deps false in
  let previousTracker := effectTracker w in
  let tracker := length (trackers w) in
  let w1 := installTracker
              (EffectTracker.mk location componentName changedDeps depNames false) w in
  let startTime := if hasPerformance w1 then now w1 else 0%Q in
  match callback w1 with
  | (Thrown e, w2) => (Thrown e, refs', set_effectTracker previousTracker w2)
  | (Returned cleanup, w2) =>
      let w3 := set_effectTracker previousTracker w2 in
      let w4 := slowEffectDetection startTime location componentName w3 in
      let w5 := logNonLoopEffect tracker changedDeps location componentName w4 in
      (Returned cleanup, refs', w5)
  end.

Inductive EffectHook := useEffect | useLayoutEffect.

(** What the host's effect hook is called with. *)
Record Registration := mkRegistration {
  hook : EffectHook;
  effect : EffectRefs -> World -> Result Value * EffectRefs * World;
  registeredDeps : option (list Value)
}.

Definition trackedEffectImpl (effectHook : EffectHook) (callback : Callback)
    (deps : option (list Value)) (location componentName : string)
    (depNames : option (list string)) : Registration :=
  mkRegistration effectHook (effectClosure callback deps location componentName depNames) deps.

Definition __trackedUseEffect (callback : Callback) (deps : option (list Value))
    (location componentName : string) (depNames : option (list string)) : Registration :=
  trackedEffectImpl useEffect callback deps location componentName depNames.

Definition __trackedUseLayoutEffect (callback : Callback) (deps : option (list Value))
    (location componentName : string) (depNames : option (list string)) : Registration :=
  trackedEffectImpl useLayoutEffect callback deps location componentName depNames.

(** ** Host programs

    What code of the application does between and inside effects, as far
    as the runtime can observe it. An exception, thrown by the code
    itself or by an updater or reducer inside a wrapper call, is not
    caught: it ends the program. *)

Inductive HostAction :=
| call_setState (wrapper : nat) (valueOrUpdater : SetStateArg)
| call_dispatch (wrapper : nat) (action : Value)
| busy (ms : Q)                                  (* synchronous work taking [ms] *)
| assign_effectTracker (tracker : option nat)    (* globalThis.__effectTracker = ... *)
| throw (e : Value).

Fixpoint runHost (actions : list HostAction) (w : World) : Result Value * World :=
  match actions with
  | [] => (Returned VUndefined, w)
  | call_setState wrapper valueOrUpdater :: rest =>
      match callStateWrapper wrapper valueOrUpdater w with
      | (Thrown e, w1) => (Thrown e, w1)
      | (Returned _, w1) => runHost rest w1
      end
  | call_dispatch wrapper action :: rest =>
      match callReducerWrapper wrapper action w with
      | (Thrown e, w1) => (Thrown e, w1)
      | (Returned _, w1) => runHost rest w1
      end
  | busy ms :: rest => runHost rest (set_now (now w + ms)%Q w)
  | assign_effectTracker tracker :: rest => runHost rest (set_effectTracker tracker w)
  | throw e :: _ => (Thrown e, w)
  end.

(** One step of the page: a hook call during render, an effect that the
    host runs, host code outside effects, a timing signal, the timer. *)
Inductive RuntimeOp :=
| op_useState (useState : InitArg -> Value * nat) (initialValue : InitArg)
    (location componentName stateName : string)
| op_useReducer
    (useReducer : (Value -> Value -> Result Value) -> Value -> option (Value -> Value)
                  -> Value * nat)
    (reducer : Value -> Value -> Result Value) (initialArg : Value)
    (init : option (Value -> Value))
    (location componentName stateName : string)
| op_effect (effectHook : EffectHook) (body : list HostAction) (deps : option (list Value))
    (location componentName : string) (depNames : option (list string)) (refs : EffectRefs)
| op_host (body : list HostAction)
| op_longtask (tasks : list LongTask.t)
| op_event (raws : list EventTiming.t)
| op_timer.

Definition runOp (op : RuntimeOp) (w : World) : World :=
  match op with
  | op_useState useState initialValue location componentName stateName =>
      (__trackedUseState useState initialValue location componentName stateName w).2
  | op_useReducer useReducer reducer initialArg init location componentName stateName =>
      (__trackedUseReducer useReducer reducer initialArg init location componentName stateName w).2
  | op_effect effectHook body deps location componentName depNames refs =>
      (effect (trackedEffectImpl effectHook (runHost body) deps location componentName depNames)
         refs w).2
  | op_host body => (runHost body w).2
  | op_longtask tasks => initLongTaskObserver_callback tasks w
  | op_event raws => initINPObserver_callback raws w
  | op_timer => flushTimer_callback w
  end.

Definition runOps (ops : list RuntimeOp) (w : World) : World :=
  foldl (fun w op => runOp op w) w ops.

(** The operations on the log buffer alone: the push of [log], and the
    three drains. *)
Inductive BufferOp :=
| buf_push (entry : LogEntry.t)
| buf_longtask (tasks : list LongTask.t)
| buf_event (raws : list EventTiming.t)
| buf_flush.

Definition runBufferOp (op : BufferOp) (w : World) : World :=
  match op with
  | buf_push entry => set_logBuffer (logBuffer w ++ [entry]) w
  | buf_longtask tasks => initLongTaskObserver_callback tasks w
  | buf_event raws => initINPObserver_callback raws w
  | buf_flush => flushBuffer w
  end.

Definition runBufferOps (ops : list BufferOp) (w : World) : World :=
  foldl (fun w op => runBufferOp op w) w ops.

(** ** Notions used in the statements *)

(** The entries that a sequence of buffer operations pushes. *)
Definition pushedBy (ops : list BufferOp) : list LogEntry.t :=
  flat_map (fun op => match op with buf_push entry => [entry] | _ => [] end) ops.

(** The console calls that print an entry, as opposed to group brackets. *)
Definition isPrint (c : ConsoleCall) : bool :=
  match c with
  | console_log _ | console_info _ | console_warn _ => true
  | console_groupCollapsed _ | console_groupEnd => false
  end.

(** The selection of the "event" observer: the worst report of each group. *)
Definition selectedReports (raws : list EventTiming.t) : list EventTiming.t :=
  flat_map (fun '(_, entries) =>
              match entries with
              | first :: rest => [worstOf first rest]
              | [] => []
              end) (groupInteractions raws).

(** The entries of a buffer timestamped strictly before [windowStart]. *)
Definition beforeWindow (windowStart : Q) (buffer : list LogEntry.t) : list LogEntry.t :=
  List.filter (fun entry => Qltb (LogEntry.time entry) windowStart) buffer.

(** The entries of a buffer within [windowStart, windowEnd], ends included. *)
Definition duringWindow (windowStart : Q) (windowEnd : Number) (buffer : list LogEntry.t)
    : list LogEntry.t :=
  List.filter (fun entry => negb (Qltb (LogEntry.time entry) windowStart)
                            && Number_leb (LogEntry.time entry) windowEnd) buffer.

(** The entries of a buffer strictly after [windowEnd] (and not before the start). *)
Definition afterWindow (windowStart : Q) (windowEnd : Number) (buffer : list LogEntry.t)
    : list LogEntry.t :=
  List.filter (fun entry => negb (Qltb (LogEntry.time entry) windowStart)
                            && negb (Number_leb (LogEntry.time entry) windowEnd)) buffer.

(** Each entry is printed by one console call of its own, on the channel
    of its type, as its tag, an optional ordinal and its message. *)
Definition PrintsEach (entries : list LogEntry.t) (calls : list ConsoleCall) : Prop :=
  Forall2 (fun entry call =>
             ∃ count, call = printSingle (LogEntry.type entry)
                               ("[" +:+ typeName (LogEntry.type entry) +:+ "]" +:+ count
                                    +:+ " " +:+ LogEntry.message entry))
          entries calls.

(** What a run of drain operations does to the entries: the print calls
    it adds to the console are the renderings of [batches]; every entry
    that was in the buffer or was pushed is in exactly one of a printed
    batch, the dropped entries and the remaining buffer. *)
Definition Drained (w w' : World) (pushed : list LogEntry.t) : Prop :=
  ∃ (out : list ConsoleCall) (batches : list (list LogEntry.t)) (dropped : list LogEntry.t),
    console w' = console w ++ out
    ∧ List.filter isPrint out = concat (map printEntries batches)
    ∧ logBuffer w ++ pushed ≡ₚ concat batches ++ dropped ++ logBuffer w'
    ∧ Forall (fun entry => LogEntry.type entry = EffectRun) dropped.

(** ** Sample worlds *)

Definition sample_effect_run : LogEntry.t :=
  LogEntry.mk "useEffect A.tsx:3 in A ran because it was initially mounted" 1 EffectRun
    "A.tsx:3" "A.tsx:3:A".

(** A page with a clock, no custom logger, and one buffered effect-run entry. *)
Definition world_one_effect_run : World :=
  mkWorld None false [] true 2 [] [] [sample_effect_run] None ∅ ∅ [] [].


(** The reports of [raws] that carry the interaction identifier [key]. *)
Definition groupFor (key : Z) (raws : list EventTiming.t) : list EventTiming.t :=
  filter (λ r, EventTiming.interactionId r = Some key) raws.

(** [interactions.get(key)] *)
Fixpoint lookupGroup (key : Z) (interactions : list (Z * list EventTiming.t))
    : option (list EventTiming.t) :=
  match interactions with
  | [] => None
  | (k, group) :: rest => if bool_decide (k = key) then Some group else lookupGroup key rest
  end.


(** A batch of reports: two events of interaction 7 and a report without
    an interaction. *)
Definition report_pointerdown : EventTiming.t :=
  EventTiming.mk 40 250 99 130 (Some 7%Z) "pointerdown" "event".
Definition report_click : EventTiming.t :=
  EventTiming.mk 50 320 99 131 (Some 7%Z) "click" "event".
Definition report_mousemove : EventTiming.t :=
  EventTiming.mk 50 400 99 131 (Some 0%Z) "mousemove" "event".
Definition sample_reports : list EventTiming.t :=
  [report_pointerdown; report_click; report_mousemove].


(** What [log] reads and writes: the logger and what it received, the
    clock, the buffer with its timer, and the console. *)
Definition logState (w : World)
    : bool * list string * bool * Q * list LogEntry.t * option Q * list ConsoleCall :=
  (effectTrackerLogger w, loggerReceived w, hasPerformance w, now w, logBuffer w,
   flushTimer w, console w).

(** The sinks alone. *)
Definition outputs (w : World) : list string * list LogEntry.t * list ConsoleCall :=
  (loggerReceived w, logBuffer w, console w).

(** An emitted entry: the arguments of one call of [log]. *)
Module Emission.
Record t := mk {
  message : string;
  type : EntryType;
  location : string;
  countKey : string
}.
End Emission.

Definition emit (e : Emission.t) (w : World) : World :=
  log (Emission.message e) (Emission.type e) (Emission.location e) (Emission.countKey e) w.

Definition emitAll (es : list Emission.t) (w : World) : World :=
  foldl (fun w e => emit e w) w es.

(** The entry of an effect that ran without setting state. *)
Definition effectRunEmission (location componentName : string)
    (changedDeps : option (list string)) : Emission.t :=
  Emission.mk ("useEffect " +:+ location +:+ " in " +:+ componentName +:+ " ran because "
                 +:+ reasonFor changedDeps)
    EffectRun location (location +:+ ":" +:+ componentName).

(** The entry of an effect whose body took [duration]. *)
Definition slowEffectEmission (location componentName : string) (duration : Number)
    : Emission.t :=
  Emission.mk ("Slow effect: useEffect " +:+ location +:+ " in " +:+ componentName
                 +:+ " took " +:+ roundedText duration +:+ "ms")
    SlowEffect location (location +:+ ":" +:+ componentName).

(** The entry of a state change attributed to the effect of [tracker]. *)
Definition stateChangeEmission (hookName : string) (meta : Meta.t) (tracker : EffectTracker.t)
    : Emission.t :=
  Emission.mk ("useEffect " +:+ EffectTracker.location tracker +:+ " in "
                 +:+ EffectTracker.componentName tracker +:+ " changed " +:+ hookName +:+ " "
                 +:+ dquote +:+ Meta.stateName meta +:+ dquote +:+ " because "
                 +:+ reasonFor (EffectTracker.changedDeps tracker))
    StateChange (EffectTracker.location tracker)
    (EffectTracker.location tracker +:+ ":" +:+ EffectTracker.componentName tracker).


(** A page inside an effect of component App: the tracker of the effect
    is current, and one tracked setter (of state "a", mirrored value 0,
    raw setter 11) exists. *)
Definition world_in_effect : World :=
  mkWorld (Some 0) false [] true 5 [] [] [] None
    {[ 11 := Tracked.mk 0 (Meta.mk "App.tsx:3" "App" "a") ]} ∅
    [EffectTracker.mk "App.tsx:6" "App" None (Some []) false]
    [StateWrapper (Meta.mk "App.tsx:3" "App" "a") (VNum 0) 11].


(** An idle page with a clock (reading 5) and no custom logger. *)
Definition world_idle : World :=
  mkWorld None false [] true 5 [] [] [] None ∅ ∅ [] [].

(** An idle page without [performance], as on a server. *)
Definition world_no_clock : World :=
  mkWorld None false [] false 5 [] [] [] None ∅ ∅ [] [].

(** The tracker object that an invocation installs. *)
Definition trackerFor (location componentName : string) (refs : EffectRefs)
    (deps : option (list Value)) (depNames : option (list string)) : EffectTracker.t :=
  EffectTracker.mk location componentName (changedDepsOf refs deps depNames) depNames false.

(** The entries that the instrumentor emits once a body has returned in
    world [w2], for an invocation started in world [w]. *)
Definition slowPart (location componentName : string) (w w2 : World) : list Emission.t :=
  let startTime := if hasPerformance w then now w else 0%Q in
  if Qltb 0 startTime && Number_leb 8 (Number_sub (now w2) startTime)
  then [slowEffectEmission location componentName (Number_sub (now w2) startTime)] else [].

Definition runPart (location componentName : string) (changedDeps : option (list string))
    (w w2 : World) : list Emission.t :=
  if EffectTracker.stateWasSet (trackers w2 !!! length (trackers w)) then []
  else [effectRunEmission location componentName changedDeps].


(** An effect body that does nothing and returns no cleanup. *)
Definition idleBody : Callback := fun w => (Returned VUndefined, w).


(** A mount effect that sets the state through the first wrapper, then a
    long task that covers it. *)
Definition sample_ops : list RuntimeOp :=
  [op_effect useEffect [call_setState 0 (PlainValue (VNum 3))] (Some []) "App.tsx:6" "App"
     (Some []) freshRefs;
   op_longtask [LongTask.mk 1 60]].


(** Entries of the two wrapper caches are never removed or replaced. *)
Definition CachePreserved (w w' : World) : Prop :=
  (∀ r t, stateTrackerMap w !! r = Some t → stateTrackerMap w' !! r = Some t)
  ∧ (∀ r t, reducerTrackerMap w !! r = Some t → reducerTrackerMap w' !! r = Some t).


(** The component of the grouping tests: two tracked states and a mount
    effect that sets both. *)
Definition render_two_setters : list RuntimeOp :=
  [op_useState (fun _ => (VNum 0, 101)) (InitValue (VNum 0)) "App.tsx:3" "App" "a";
   op_useState (fun _ => (VNum 0, 102)) (InitValue (VNum 0)) "App.tsx:4" "App" "b";
   op_effect useEffect
     [call_setState 0 (PlainValue (VNum 1)); call_setState 1 (PlainValue (VNum 2))]
     (Some []) "App.tsx:6" "App" (Some []) freshRefs].

(** The message of a state change made by the mount effect of App. *)
Definition mountChangeMessage (stateName : string) : string :=
  "useEffect App.tsx:6 in App changed useState " +:+ dquote +:+ stateName +:+ dquote
    +:+ " because it was initially mounted".

(** An idle page with a custom logger installed. *)
Definition world_with_logger : World :=
  mkWorld None true [] true 5 [] [] [] None ∅ ∅ [] [].


(** ** Notions used in the further properties *)

(** The buffered entry of an emission made at time [t]. *)
Definition entryAt (t : Q) (e : Emission.t) : LogEntry.t :=
  LogEntry.mk (Emission.message e) t (Emission.type e) (Emission.location e)
    (Emission.countKey e).

(** The console call of an emission that is printed immediately. *)
Definition printedNow (e : Emission.t) : ConsoleCall :=
  printSingle (Emission.type e) (Emission.message e).

(** Number of entries of a batch that carry the group key [key]. *)
Definition keyCount (key : string) (entries : list LogEntry.t) : nat :=
  length (filter (λ entry, LogEntry.countKey entry = key) entries).

(** The ordinal that the formatter puts before a message: the [idx]-th of
    [total] entries of one key, shown only when there are several. *)
Definition ordinal (idx total : nat) : string :=
  if bool_decide (1 < total) then " " +:+ pretty idx +:+ "/" +:+ pretty total
  else EmptyString.

(** The line of the entry at position [i] of a batch. *)
Definition lineAt (entries : list LogEntry.t) (i : nat) (entry : LogEntry.t) : ConsoleCall :=
  printSingle (LogEntry.type entry)
    ("[" +:+ typeName (LogEntry.type entry) +:+ "]"
       +:+ ordinal (keyCount (LogEntry.countKey entry) (take (S i) entries))
             (keyCount (LogEntry.countKey entry) entries)
       +:+ " " +:+ LogEntry.message entry).


(** Reading a console transcript from left to right, groups are opened
    only outside a group and closed only inside one; [open] tells whether
    a group is open at the start, and none may be open at the end. *)
Fixpoint groupsClosed (open : bool) (calls : list ConsoleCall) : bool :=
  match calls with
  | [] => negb open
  | console_groupCollapsed _ :: rest => negb open && groupsClosed true rest
  | console_groupEnd :: rest => open && groupsClosed false rest
  | _ :: rest => groupsClosed open rest
  end.

(** The console of [w'] is that of [w] followed by complete, unnested groups
    and single lines. *)
Definition ConsoleGrows (w w' : World) : Prop :=
  ∃ out, console w' = console w ++ out ∧ groupsClosed false out = true.


(** [globalThis.__effectTracker = ...] written by host code. *)
Definition isAssign (action : HostAction) : bool :=
  match action with
  | assign_effectTracker _ => true
  | _ => false
  end.

(** What identifies a wrapper apart from its mirrored value: its kind,
    its metadata and the raw function it forwards to. *)
Definition closureKind (c : Closure) : bool * Meta.t * nat :=
  match c with
  | StateWrapper meta _ rawSetState => (true, meta, rawSetState)
  | ReducerWrapper meta _ _ rawDispatch => (false, meta, rawDispatch)
  end.

(** Every cache entry names a wrapper of its own kind that forwards to the
    raw function the entry is filed under. *)
Definition WrappersSound (w : World) : Prop :=
  (∀ raw tracked, stateTrackerMap w !! raw = Some tracked →
     ∃ c, closures w !! Tracked.wrapper tracked = Some c
          ∧ closureKind c = (true, Tracked.meta tracked, raw))
  ∧ (∀ raw tracked, reducerTrackerMap w !! raw = Some tracked →
       ∃ c, closures w !! Tracked.wrapper tracked = Some c
            ∧ closureKind c = (false, Tracked.meta tracked, raw)).

(** The caches are the same, and every wrapper is still there, changed at
    most in its mirrored value. *)
Definition ClosuresKept (w w' : World) : Prop :=
  stateTrackerMap w' = stateTrackerMap w
  ∧ reducerTrackerMap w' = reducerTrackerMap w
  ∧ length (closures w') = length (closures w)
  ∧ ∀ i c, closures w !! i = Some c →
           ∃ c', closures w' !! i = Some c' ∧ closureKind c' = closureKind c.


(** A reducer that adds a numeric action to a numeric state and throws
    on any other action. *)
Definition sample_reducer (state action : Value) : Result Value :=
  match state, action with
  | VNum s, VNum a => Returned (VNum (s + a))
  | _, _ => Thrown (VStr "unknown action")
  end.

(** A page inside an effect of component App with one tracked dispatch
    function (state "count", mirrored state 0, raw dispatch 21). *)
Definition world_in_reducer_effect : World :=
  mkWorld (Some 0) false [] true 5 [] [] [] None ∅
    {[ 21 := Tracked.mk 0 (Meta.mk "App.tsx:3" "App" "count") ]}
    [EffectTracker.mk "App.tsx:6" "App" None (Some []) false]
    [ReducerWrapper (Meta.mk "App.tsx:3" "App" "count") sample_reducer (VNum 0) 21].


(** The interaction identifiers of a batch that are neither null nor 0,
    in arrival order. *)
Definition truthyIds (raws : list EventTiming.t) : list Z :=
  flat_map (fun r => match EventTiming.interactionId r with
                     | Some id => if bool_decide (id = 0%Z) then [] else [id]
                     | None => []
                     end) raws.

(** A list without its repetitions, each element at its first place. *)
Fixpoint firstOccurrences (ids : list Z) : list Z :=
  match ids with
  | [] => []
  | id :: rest => id :: filter (λ x, x ≠ id) (firstOccurrences rest)
  end.

(** [interactions.set(id, ...)] on the keys: a new key goes last. *)
Definition addKey (keys : list Z) (id : Z) : list Z :=
  if bool_decide (id ∈ keys) then keys else keys ++ [id].


(** * The webpack loader (src/react-hook-babel-loader.cjs) *)

(** [needle] is read at the start of [text]. *)
Fixpoint startsWith (needle text : string) : bool :=
  match needle, text with
  | EmptyString, _ => true
  | String _ _, EmptyString => false
  | String a needle', String b text' => Ascii.eqb a b && startsWith needle' text'
  end.

(** [text.includes(needle)] *)
Fixpoint includes (needle text : string) : bool :=
  startsWith needle text
  || match text with
     | EmptyString => false
     | String _ rest => includes needle rest
     end.

(** The first piece of [s.split(c)] and the pieces after it. *)
Fixpoint splitAux (c : Ascii.ascii) (s : string) : string * list string :=
  match s with
  | EmptyString => (EmptyString, [])
  | String a rest =>
      let '(piece, pieces) := splitAux c rest in
      if Ascii.eqb a c then (EmptyString, piece :: pieces) else (String a piece, pieces)
  end.

(** [s.split(c)] for a separator of one character. *)
Definition split (c : Ascii.ascii) (s : string) : list string :=
  let '(piece, pieces) := splitAux c s in piece :: pieces.

Definition slash : Ascii.ascii := Ascii.ascii_of_nat 47.

(** [ignoredFolders], for the platform's [path.sep]. *)
Definition ignoredFolders (sep : string) : list string :=
  map (fun folder => String.concat sep (split slash folder))
    ["/node_modules/react-dom/";
     "/node_modules/react/";
     "/compiled/react-dom/";
     "/compiled/react/";
     "/compiled/react-server-dom-webpack/";
     "compiled/next-devtools/";
     "react-refresh/cjs/react-refresh-runtime.development.js"].

(** The names whose presence marks a source as already transformed. *)
Definition trackedNames : list string :=
  ["__trackedUseState"; "__trackedUseReducer"; "__trackedUseEffect";
   "__trackedUseLayoutEffect"].

(** What the loader does with a module: hand it back through
    [this.callback(null, source, sourceMap)], or run babel-loader on it. *)
Inductive LoaderOutcome (M : Type) :=
| loader_callback (source : string) (sourceMap : M)
| loader_babel (source : string) (sourceMap : M).
Arguments loader_callback {M} source sourceMap.
Arguments loader_babel {M} source sourceMap.

Definition reactHookBabelLoader {M : Type} (sep resourcePath source : string) (sourceMap : M)
    : LoaderOutcome M :=
  if existsb (fun folder => includes folder resourcePath) (ignoredFolders sep) then
    loader_callback source sourceMap
  else if negb (includes "react" source) then
    loader_callback source sourceMap
  else if includes "__trackedUseState" source
          || includes "__trackedUseReducer" source
          || includes "__trackedUseEffect" source
          || includes "__trackedUseLayoutEffect" source then
    loader_callback source sourceMap
  else
    loader_babel source sourceMap.

(** [needle] occurs somewhere in [text]. *)
Definition IsSubstring (needle text : string) : Prop :=
  ∃ before after, text = before +:+ needle +:+ after.


(** * The Babel plugin (src/babel-plugin.js) *)

(** The AST nodes the plugin inspects or builds; every other kind of
    expression is [OtherExpression]. *)
#[warnings="-register-all"] Inductive Node :=
| Identifier (name : string)
| MemberExpression (object property : Node) (computed : bool)
| ArrayExpression (elements : list (option Node))
| ArrayPattern (elements : list (option Node))
| StringLiteral (value : string)
| NullLiteral
| CallExpression (callee : Node) (arguments : list Node)
| OtherExpression.

(** [node.name] inside a template literal: the name of an identifier, the
    text of [undefined] for a node without that field. *)
Definition nodeName (node : Node) : string :=
  match node with
  | Identifier name => name
  | _ => "undefined"
  end.

Fixpoint memberExpressionToString (node : Node) : string :=
  match node with
  | Identifier name => name
  | MemberExpression object property computed =>
      let obj := memberExpressionToString object in
      let prop :=
        if computed then "[" +:+ memberExpressionToString property +:+ "]"
        else "." +:+ nodeName property in
      obj +:+ prop
  | _ => "complex"
  end.

Definition stringifyDeps (depsNode : option Node) : option (list string) :=
  match depsNode with
  | Some (ArrayExpression elements) =>
      Some (map (fun el =>
                   match el with
                   | None => "complex"
                   | Some (Identifier name) => name
                   | Some (MemberExpression object property computed) =>
                       memberExpressionToString (MemberExpression object property computed)
                   | Some _ => "complex"
                   end) elements)
  | _ => None
  end.

Definition isHookCall (callee : Node) (hookName : string) : bool :=
  match callee with
  | Identifier name => bool_decide (name = hookName)
  | MemberExpression _ (Identifier name) _ => bool_decide (name = hookName)
  | _ => false
  end.

(** The paths above a call, as far as [getComponentName] tells them apart. *)
Inductive PathNode :=
| FunctionDeclaration (id : option string)
| VariableDeclarator (id : Node)
| ArrowFunctionExpression
| FunctionExpression
| ExportDefaultDeclaration (declaration : PathNode)
| OtherPath.

(** The loop of [getComponentName], on a path followed by its parents. *)
Fixpoint componentNameFrom (path : list PathNode) : string :=
  match path with
  | [] => "Unknown"
  | current :: parents =>
      match current with
      | FunctionDeclaration (Some name) => name
      | VariableDeclarator (Identifier name) => name
      | ArrowFunctionExpression | FunctionExpression =>
          match parents with
          | VariableDeclarator id :: _ =>
              match id with Identifier name => name | _ => "Anonymous" end
          | _ => componentNameFrom parents
          end
      | ExportDefaultDeclaration declaration =>
          match declaration with
          | FunctionDeclaration (Some name) => name
          | _ => "DefaultExport"
          end
      | _ => componentNameFrom parents
      end
  end.

(** The path of a call expression: the call's node and the paths above it,
    the nearest first. *)
Module CallPath.
Record t := mk {
  callee : Node;
  arguments : list Node;
  line : option nat;
  parents : list PathNode;
}.
End CallPath.

(** The call expression itself matches none of the cases of the loop. *)
Definition getComponentName (path : CallPath.t) : string :=
  componentNameFrom (OtherPath :: CallPath.parents path).

Definition getStateNameFromDeclarator (callPath : CallPath.t) : option string :=
  match CallPath.parents callPath with
  | VariableDeclarator (ArrayPattern (Some (Identifier name) :: _)) :: _ => Some name
  | _ => None
  end.

(** The state object of one pass of the plugin over a file. *)
Module PluginPass.
Record t := mk {
  filename : option string;
  optsFilename : option string;
  needsImport : bool;
  hasUseState : bool;
  hasUseReducer : bool;
  hasUseEffect : bool;
  hasUseLayoutEffect : bool;
}.
End PluginPass.

(** [a || b] on strings that may be missing: the empty string is falsy. *)
Definition orElse (a : option string) (b : string) : string :=
  match a with
  | Some s => if bool_decide (s = EmptyString) then b else s
  | None => b
  end.

Definition filenameOf (state : PluginPass.t) : string :=
  orElse (PluginPass.filename state) (orElse (PluginPass.optsFilename state) "unknown").

(** [filename.split("/").pop() || filename] *)
Definition shortFilename (filename : string) : string :=
  orElse (last (split slash filename)) filename.

(** [path.node.loc?.start?.line ?? "?"] inside the template literal. *)
Definition lineText (line : option nat) : string :=
  match line with
  | Some n => pretty n
  | None => "?"
  end.

Definition locationLiteral (path : CallPath.t) (state : PluginPass.t) : Node :=
  StringLiteral (shortFilename (filenameOf state) +:+ ":" +:+ lineText (CallPath.line path)).

(** [args[i] || t.identifier("undefined")] *)
Definition argOr (args : list Node) (i : nat) : Node :=
  default (Identifier "undefined") (args !! i).

(** [Program.enter] *)
Definition programEnter (state : PluginPass.t) : PluginPass.t :=
  PluginPass.mk (PluginPass.filename state) (PluginPass.optsFilename state)
    false false false false false.

(** The [CallExpression] visitor: the node that replaces the call, if it is
    replaced, and the state. *)
Definition visitCallExpression (path : CallPath.t) (state : PluginPass.t)
    : option Node * PluginPass.t :=
  let callee := CallPath.callee path in
  let args := CallPath.arguments path in
  if isHookCall callee "useState" then
    let componentName := getComponentName path in
    let stateName := orElse (getStateNameFromDeclarator path) "anonymous" in
    (Some (CallExpression (Identifier "__trackedUseState")
             [argOr args 0;
              locationLiteral path state;
              StringLiteral componentName;
              StringLiteral stateName]),
     PluginPass.mk (PluginPass.filename state) (PluginPass.optsFilename state)
       true true (PluginPass.hasUseReducer state) (PluginPass.hasUseEffect state)
       (PluginPass.hasUseLayoutEffect state))
  else if isHookCall callee "useReducer" then
    let componentName := getComponentName path in
    let stateName := orElse (getStateNameFromDeclarator path) "anonymous" in
    (Some (CallExpression (Identifier "__trackedUseReducer")
             [argOr args 0;
              argOr args 1;
              argOr args 2;
              locationLiteral path state;
              StringLiteral componentName;
              StringLiteral stateName]),
     PluginPass.mk (PluginPass.filename state) (PluginPass.optsFilename state)
       true (PluginPass.hasUseState state) true (PluginPass.hasUseEffect state)
       (PluginPass.hasUseLayoutEffect state))
  else
    let isEffect := isHookCall callee "useEffect" in
    let isLayoutEffect := isHookCall callee "useLayoutEffect" in
    if isEffect || isLayoutEffect then
      let componentName := getComponentName path in
      let depNames := stringifyDeps (args !! 1) in
      let depNamesArg :=
        match depNames with
        | Some names => ArrayExpression (map (fun d => Some (StringLiteral d)) names)
        | None => NullLiteral
        end in
      let wrapperName :=
        if isEffect then "__trackedUseEffect" else "__trackedUseLayoutEffect" in
      (Some (CallExpression (Identifier wrapperName)
               [argOr args 0;
                argOr args 1;
                locationLiteral path state;
                StringLiteral componentName;
                depNamesArg]),
       PluginPass.mk (PluginPass.filename state) (PluginPass.optsFilename state)
         true (PluginPass.hasUseState state) (PluginPass.hasUseReducer state)
         (if isEffect then true else PluginPass.hasUseEffect state)
         (if isLayoutEffect then true else PluginPass.hasUseLayoutEffect state))
    else (None, state).

(** The declaration [Program.exit] puts at the top of the file. *)
Inductive ImportForm :=
| RequireDeclaration (names : list string) (source : string)
| ImportDeclaration (names : list string) (source : string).

Definition importedNames (state : PluginPass.t) : list string :=
  (if PluginPass.hasUseState state then ["__trackedUseState"] else [])
  ++ (if PluginPass.hasUseReducer state then ["__trackedUseReducer"] else [])
  ++ (if PluginPass.hasUseEffect state then ["__trackedUseEffect"] else [])
  ++ (if PluginPass.hasUseLayoutEffect state then ["__trackedUseLayoutEffect"] else []).

(** [Program.exit]; [isCJS] is [path.node.sourceType === "script"]. *)
Definition programExit (isCJS : bool) (state : PluginPass.t) : option ImportForm :=
  if negb (PluginPass.needsImport state) then None
  else
    let names := importedNames state in
    if bool_decide (length names = 0) then None
    else
      let source := "@jantimon/react-render-loop-tracer/runtime" in
      if isCJS then Some (RequireDeclaration names source)
      else Some (ImportDeclaration names source).

(** The visitor on the calls of a file, in the order of the traversal. *)
Fixpoint visitCalls (paths : list CallPath.t) (state : PluginPass.t)
    : list (option Node) * PluginPass.t :=
  match paths with
  | [] => ([], state)
  | path :: rest =>
      let '(replacement, state1) := visitCallExpression path state in
      let '(replacements, state2) := visitCalls rest state1 in
      (replacement :: replacements, state2)
  end.

(** ** Notions used by the statements about the plugin *)

(** The member expression [head.p1.p2...]. *)
Definition dotted (head : string) (props : list string) : Node :=
  foldl (fun object prop => MemberExpression object (Identifier prop) false)
    (Identifier head) props.

(** [replacement] is a call of the function [name]. *)
Definition callsTo (name : string) (replacement : option Node) : bool :=
  match replacement with
  | Some (CallExpression (Identifier callee) _) => bool_decide (callee = name)
  | _ => false
  end.

Definition namesOf (form : ImportForm) : list string :=
  match form with
  | RequireDeclaration names _ => names
  | ImportDeclaration names _ => names
  end.

(** * Properties *)

(** ** Values *)

Lemma Object_is_true (x y : Value) : Object_is x y = true ↔ x = y.
Proof. unfold Object_is. apply bool_decide_eq_true. Qed.

Lemma Object_is_false (x y : Value) : Object_is x y = false ↔ x ≠ y.
Proof. unfold Object_is. apply bool_decide_eq_false. Qed.

(** ** The dependency differ *)

Lemma changedStep_fold (prev current : list Value) (names : list string) (idxs : list nat) :
  ∀ acc,
    foldl (changedStep prev current names) acc idxs
    = acc ++ map (depNameAt names)
               (filter (λ i, depAt prev i ≠ depAt current i) idxs).
Proof.
  induction idxs as [|i idxs IH]; intros acc; simpl.
  - by rewrite app_nil_r.
  - rewrite IH. unfold changedStep.
    destruct (Object_is (depAt prev i) (depAt current i)) eqn:E.
    + apply Object_is_true in E.
      rewrite filter_cons_False; [done | naive_solver].
    + apply Object_is_false in E.
      rewrite filter_cons_True; [| done]. simpl. by rewrite <- app_assoc.
Qed.

Lemma getChangedDeps_None (prevDeps currentDeps : option (list Value))
    (depNames : option (list string)) :
  getChangedDeps prevDeps currentDeps depNames = None
  ↔ prevDeps = None ∨ depNames = None ∨ currentDeps = None.
Proof.
  destruct prevDeps, depNames, currentDeps; simpl; split; auto;
    try discriminate; intros [? | [? | ?]]; discriminate.
Qed.

(** C4 (as amended). [getChangedDeps] returns null exactly when the
    previous list, the name list or the current list is missing: a missing
    baseline is one of three causes.  Otherwise it returns, in order, the
    names of the positions of the current list whose value is not the
    same value (Object.is) as the previous one; a position whose name is
    missing or empty is named dep[i].  Diffing [a,b] to [a,c] with names
    x, y gives [y], and diffing [a] to [a] gives the empty list. *)
Theorem getChangedDeps_spec (prevDeps currentDeps : option (list Value))
    (depNames : option (list string)) :
  (getChangedDeps prevDeps currentDeps depNames = None
     ↔ prevDeps = None ∨ depNames = None ∨ currentDeps = None)
  ∧ (∀ prev names current,
        prevDeps = Some prev → depNames = Some names → currentDeps = Some current →
        getChangedDeps prevDeps currentDeps depNames
        = Some (map (depNameAt names)
                  (filter (λ i, depAt prev i ≠ depAt current i) (seq 0 (length current)))))
  ∧ (∀ names i name,
        names !! i = Some name → name ≠ EmptyString → depNameAt names i = name)
  ∧ (∀ names i,
        names !! i = None ∨ names !! i = Some EmptyString →
        depNameAt names i = "dep[" +:+ pretty i +:+ "]")
  ∧ (∀ a b c, b ≠ c →
        getChangedDeps (Some [a; b]) (Some [a; c]) (Some ["x"; "y"]) = Some ["y"])
  ∧ (∀ a names, getChangedDeps (Some [a]) (Some [a]) (Some names) = Some []).
Proof.
  split; [apply getChangedDeps_None |].
  split.
  { intros prev names current -> -> ->. simpl. by rewrite changedStep_fold. }
  split.
  { intros names i name Hi Hne. unfold depNameAt. rewrite Hi.
    by rewrite bool_decide_eq_false_2. }
  split.
  { intros names i [Hi | Hi]; unfold depNameAt; rewrite Hi; [done |].
    by rewrite bool_decide_eq_true_2. }
  split.
  { intros a b c Hbc. simpl. unfold changedStep at 2.
    assert (Object_is (depAt [a; b] 0) (depAt [a; c] 0) = true) as ->
      by (by apply Object_is_true).
    unfold changedStep.
    assert (Object_is (depAt [a; b] 1) (depAt [a; c] 1) = false) as ->
      by (by apply Object_is_false).
    done. }
  intros a names. simpl. unfold changedStep.
  assert (Object_is (depAt [a] 0) (depAt [a] 0) = true) as -> by (by apply Object_is_true).
  done.
Qed.

Lemma getChangedDeps_spec_witness :
  getChangedDeps (Some [VNum 1; VNum 2]) (Some [VNum 1; VNum 3]) (Some ["x"; "y"])
  = Some ["y"]
  ∧ depNameAt ["x"] 3 = "dep[3]".
Proof.
  destruct (getChangedDeps_spec (Some [VNum 1; VNum 2]) (Some [VNum 1; VNum 3])
              (Some ["x"; "y"])) as (_ & _ & _ & Hfallback & Hdiff & _).
  split.
  - apply Hdiff. discriminate.
  - apply (Hfallback ["x"] 3). left. reflexivity.
Defined.

(** C4, as stated, fails: with a baseline present but no name list the
    result is null all the same. *)
Lemma getChangedDeps_null_with_baseline :
  getChangedDeps (Some [VNum 1]) (Some [VNum 2]) None = None
  ∧ Some [VNum 1] ≠ (None : option (list Value)).
Proof. split; [reflexivity | discriminate]. Qed.

(** ** The formatter *)

Lemma printLoop_each (totals : gmap string nat) (entries : list LogEntry.t) :
  ∀ current, PrintsEach entries (printLoop totals current entries).
Proof.
  induction entries as [|entry rest IH]; intros current; simpl.
  - constructor.
  - constructor; [eauto | apply IH].
Qed.

Lemma printEntries_each (entries : list LogEntry.t) :
  PrintsEach entries (printEntries entries).
Proof. apply printLoop_each. Qed.

Lemma printEntries_length (entries : list LogEntry.t) :
  length (printEntries entries) = length entries.
Proof. symmetry. eapply Forall2_length, printEntries_each. Qed.

Lemma printSingle_isPrint (ty : EntryType) (text : string) :
  isPrint (printSingle ty text) = true.
Proof. by destruct ty. Qed.

Lemma printEntries_isPrint (entries : list LogEntry.t) :
  List.filter isPrint (printEntries entries) = printEntries entries.
Proof.
  pose proof (printEntries_each entries) as H.
  induction H as [|entry call es cs [count ->] _ IH]; simpl; [done |].
  by rewrite printSingle_isPrint, IH.
Qed.

Lemma printGroup_isPrint (header : string) (during : list LogEntry.t) :
  List.filter isPrint (printGroup header during) = printEntries during.
Proof.
  destruct during as [|entry rest]; [done |].
  unfold printGroup. rewrite !List.filter_app, printEntries_isPrint.
  simpl. by rewrite app_nil_r.
Qed.

(** ** The partition of the buffer *)

Lemma partitionBuffer_spec (windowStart : Q) (windowEnd : Number) (buffer : list LogEntry.t) :
  partitionBuffer windowStart windowEnd buffer
  = (beforeWindow windowStart buffer,
     duringWindow windowStart windowEnd buffer,
     afterWindow windowStart windowEnd buffer).
Proof.
  induction buffer as [|entry rest IH]; simpl; [done |].
  rewrite IH.
  destruct (Qltb (LogEntry.time entry) windowStart); simpl; [done |].
  by destruct (Number_leb (LogEntry.time entry) windowEnd).
Qed.

Lemma partition_permutation (windowStart : Q) (windowEnd : Number) (buffer : list LogEntry.t) :
  buffer ≡ₚ beforeWindow windowStart buffer
            ++ duringWindow windowStart windowEnd buffer
            ++ afterWindow windowStart windowEnd buffer.
Proof.
  induction buffer as [|entry rest IH]; simpl; [done |].
  destruct (Qltb (LogEntry.time entry) windowStart); simpl.
  - by constructor.
  - destruct (Number_leb (LogEntry.time entry) windowEnd); simpl.
    + rewrite IH at 1. by rewrite Permutation_middle.
    + rewrite IH at 1.
      rewrite (app_assoc _ _ (entry :: _)), <- Permutation_middle.
      by rewrite <- app_assoc.
Qed.

Lemma filter_notEffectRun_split (entries : list LogEntry.t) :
  entries ≡ₚ List.filter notEffectRun entries
             ++ List.filter (fun entry => negb (notEffectRun entry)) entries.
Proof.
  induction entries as [|entry rest IH]; simpl; [done |].
  destruct (notEffectRun entry); simpl.
  - by constructor.
  - rewrite <- Permutation_middle. by constructor.
Qed.

Lemma filter_effectRun_all (entries : list LogEntry.t) :
  Forall (fun entry => LogEntry.type entry = EffectRun)
         (List.filter (fun entry => negb (notEffectRun entry)) entries).
Proof.
  induction entries as [|entry rest IH]; simpl; [constructor |].
  destruct (notEffectRun entry) eqn:E; simpl; [done |].
  constructor; [| done].
  unfold notEffectRun in E. apply negb_false_iff, bool_decide_eq_true in E. done.
Qed.

(** ** One pass of each observer *)

Lemma longTaskPass_console (task : LongTask.t) (w : World) :
  let taskStart := LongTask.startTime task in
  let taskEnd := (Number_add (LongTask.startTime task) (LongTask.duration task)) in
  let during := duringWindow taskStart taskEnd (logBuffer w) in
  console (longTaskPass task w)
  = console w ++ printEntries (beforeWindow taskStart (logBuffer w))
      ++ printGroup ("Long Task (" +:+ pretty (Math_round (LongTask.duration task)) +:+ "ms) — "
                       +:+ groupParts during) during.
Proof. unfold longTaskPass. by rewrite partitionBuffer_spec. Qed.

Lemma longTaskPass_logBuffer (task : LongTask.t) (w : World) :
  logBuffer (longTaskPass task w)
  = afterWindow (LongTask.startTime task)
      (Number_add (LongTask.startTime task) (LongTask.duration task)) (logBuffer w).
Proof. unfold longTaskPass. by rewrite partitionBuffer_spec. Qed.

Lemma interactionPass_console (worst : EventTiming.t) (w : World) :
  let procStart := EventTiming.processingStart worst in
  let procEnd := EventTiming.processingEnd worst in
  let during := duringWindow procStart (Finite procEnd) (logBuffer w) in
  console (interactionPass worst w)
  = console w ++ printEntries (List.filter notEffectRun (beforeWindow procStart (logBuffer w)))
      ++ printGroup ("Slow Interaction: " +:+ EventTiming.name worst +:+ " ("
                       +:+ pretty (Math_round (EventTiming.duration worst)) +:+ "ms) — "
                       +:+ groupParts during) during.
Proof. unfold interactionPass. by rewrite partitionBuffer_spec. Qed.

Lemma interactionPass_logBuffer (worst : EventTiming.t) (w : World) :
  logBuffer (interactionPass worst w)
  = afterWindow (EventTiming.processingStart worst) (Finite (EventTiming.processingEnd worst))
      (logBuffer w).
Proof. unfold interactionPass. by rewrite partitionBuffer_spec. Qed.

(** C1 (as amended). On an interaction window the entries strictly before
    the window start are printed at once, one call each, without the
    effect-run entries among them, and the group follows.  On a long-task
    window every entry strictly before the window start that is not an
    effect-run entry is printed at once, one call each, in buffer order,
    before the group; what this path does with the effect-run entries of
    the before-partition is left open. *)
Theorem before_partition_printing (w : World) :
  (∀ worst : EventTiming.t,
      let before := beforeWindow (EventTiming.processingStart worst) (logBuffer w) in
      ∃ groupCalls,
        console (interactionPass worst w)
        = console w ++ printEntries (List.filter notEffectRun before) ++ groupCalls
        ∧ PrintsEach (List.filter notEffectRun before)
            (printEntries (List.filter notEffectRun before))
        ∧ (groupCalls = [] ∨ ∃ header rest, groupCalls = console_groupCollapsed header :: rest))
  ∧ (∀ task : LongTask.t,
      let before := beforeWindow (LongTask.startTime task) (logBuffer w) in
      ∃ batch groupCalls,
        console (longTaskPass task w) = console w ++ printEntries batch ++ groupCalls
        ∧ PrintsEach batch (printEntries batch)
        ∧ List.filter notEffectRun batch = List.filter notEffectRun before
        ∧ (groupCalls = [] ∨ ∃ header rest, groupCalls = console_groupCollapsed header :: rest)).
Proof.
  split.
  - intros worst before. eexists. split; [apply interactionPass_console |].
    split; [apply printEntries_each |].
    unfold printGroup. destruct (duringWindow _ _ _); eauto.
  - intros task before. eexists before, _. split; [apply longTaskPass_console |].
    split; [apply printEntries_each |]. split; [done |].
    unfold printGroup. destruct (duringWindow _ _ _); eauto.
Qed.

(** C1, as stated, fails in both halves: with one effect-run entry
    buffered at time 1 and a window starting at 5, the long-task pass
    prints the entry on its own, and the interaction pass does not print it. *)
Lemma before_print_effect_run_counterexample :
  console (longTaskPass (LongTask.mk 5 60) world_one_effect_run)
  = [console_info "[effect-run] useEffect A.tsx:3 in A ran because it was initially mounted"]
  ∧ console (interactionPass (EventTiming.mk 4 250 5 65 (Some 7%Z) "click" "event")
               world_one_effect_run) = []
  ∧ logBuffer (interactionPass (EventTiming.mk 4 250 5 65 (Some 7%Z) "click" "event")
                 world_one_effect_run) = [].
Proof. repeat split; vm_compute; reflexivity. Qed.

(** ** The drain invariant *)

Lemma Drained_refl (w : World) : Drained w w [].
Proof.
  exists [], [], []. simpl. rewrite !app_nil_r.
  split; [done |]. split; [done |]. split; [done | constructor].
Qed.

Lemma Drained_trans (w1 w2 w3 : World) (pushed1 pushed2 : list LogEntry.t) :
  Drained w1 w2 pushed1 → Drained w2 w3 pushed2 → Drained w1 w3 (pushed1 ++ pushed2).
Proof.
  intros (out1 & batches1 & dropped1 & Hc1 & Hp1 & Hperm1 & Hd1)
         (out2 & batches2 & dropped2 & Hc2 & Hp2 & Hperm2 & Hd2).
  exists (out1 ++ out2), (batches1 ++ batches2), (dropped1 ++ dropped2).
  split; [by rewrite Hc2, Hc1, app_assoc |].
  split; [by rewrite List.filter_app, Hp1, Hp2, map_app, concat_app |].
  split; [| by apply Forall_app].
  rewrite app_assoc, Hperm1, concat_app.
  rewrite <- !app_assoc, Hperm2.
  apply Permutation_app_head.
  rewrite !app_assoc. do 2 apply Permutation_app_tail.
  apply Permutation_app_comm.
Qed.

Lemma Drained_push (entry : LogEntry.t) (w : World) :
  Drained w (set_logBuffer (logBuffer w ++ [entry]) w) [entry].
Proof.
  exists [], [], []. simpl. rewrite app_nil_r.
  split; [done |]. split; [done |]. split; [done | constructor].
Qed.

Lemma Drained_longTaskPass (task : LongTask.t) (w : World) :
  Drained w (longTaskPass task w) [].
Proof.
  set (taskStart := LongTask.startTime task).
  set (taskEnd := (Number_add (LongTask.startTime task) (LongTask.duration task))).
  exists (printEntries (beforeWindow taskStart (logBuffer w))
            ++ printGroup ("Long Task (" +:+ pretty (Math_round (LongTask.duration task))
                             +:+ "ms) — "
                             +:+ groupParts (duringWindow taskStart taskEnd (logBuffer w)))
                 (duringWindow taskStart taskEnd (logBuffer w))),
         [beforeWindow taskStart (logBuffer w); duringWindow taskStart taskEnd (logBuffer w)],
         [].
  split; [apply longTaskPass_console |].
  split; [rewrite List.filter_app, printEntries_isPrint, printGroup_isPrint;
          simpl; by rewrite app_nil_r |].
  split; [| constructor].
  rewrite longTaskPass_logBuffer. simpl. rewrite !app_nil_r, <- app_assoc.
  apply partition_permutation.
Qed.

Lemma Drained_interactionPass (worst : EventTiming.t) (w : World) :
  Drained w (interactionPass worst w) [].
Proof.
  set (procStart := EventTiming.processingStart worst).
  set (procEnd := EventTiming.processingEnd worst).
  set (before := beforeWindow procStart (logBuffer w)).
  exists (printEntries (List.filter notEffectRun before)
            ++ printGroup ("Slow Interaction: " +:+ EventTiming.name worst +:+ " ("
                             +:+ pretty (Math_round (EventTiming.duration worst)) +:+ "ms) — "
                             +:+ groupParts (duringWindow procStart (Finite procEnd) (logBuffer w)))
                 (duringWindow procStart (Finite procEnd) (logBuffer w))),
         [List.filter notEffectRun before; duringWindow procStart (Finite procEnd) (logBuffer w)],
         (List.filter (fun entry => negb (notEffectRun entry)) before).
  split; [apply interactionPass_console |].
  split; [rewrite List.filter_app, printEntries_isPrint, printGroup_isPrint;
          simpl; by rewrite app_nil_r |].
  split; [| apply filter_effectRun_all].
  rewrite interactionPass_logBuffer. simpl. rewrite !app_nil_r.
  rewrite (partition_permutation procStart (Finite procEnd) (logBuffer w)) at 1.
  fold before. rewrite (filter_notEffectRun_split before) at 1.
  rewrite <- !app_assoc. apply Permutation_app_head.
  rewrite !app_assoc. apply Permutation_app_tail, Permutation_app_comm.
Qed.

Lemma Drained_flushBuffer (w : World) : Drained w (flushBuffer w) [].
Proof.
  exists (printEntries (List.filter notEffectRun (logBuffer w))),
         [List.filter notEffectRun (logBuffer w)],
         (List.filter (fun entry => negb (notEffectRun entry)) (logBuffer w)).
  split; [done |].
  split; [simpl; by rewrite printEntries_isPrint, app_nil_r |].
  split; [| apply filter_effectRun_all].
  simpl. rewrite !app_nil_r. apply filter_notEffectRun_split.
Qed.

Lemma Drained_foldl {A : Type} (pass : A → World → World) (items : list A) :
  (∀ item w, Drained w (pass item w) []) →
  ∀ w, Drained w (foldl (fun w item => pass item w) w items) [].
Proof.
  intros Hpass. induction items as [|item items IH]; intros w; simpl.
  - apply Drained_refl.
  - change (@nil LogEntry.t) with (@nil LogEntry.t ++ []).
    eapply Drained_trans; [apply Hpass | apply IH].
Qed.

Lemma Drained_longTaskCallback (tasks : list LongTask.t) (w : World) :
  Drained w (initLongTaskObserver_callback tasks w) [].
Proof. apply (Drained_foldl longTaskPass), Drained_longTaskPass. Qed.

Lemma Drained_INPCallback (raws : list EventTiming.t) (w : World) :
  Drained w (initINPObserver_callback raws w) [].
Proof.
  unfold initINPObserver_callback.
  apply (Drained_foldl
           (fun (group : Z * list EventTiming.t) w =>
              let '(_, entries) := group in
              match entries with
              | first :: rest => interactionPass (worstOf first rest) w
              | [] => w
              end)).
  intros [id [|first rest]] w'; [apply Drained_refl | apply Drained_interactionPass].
Qed.

Lemma Drained_runBufferOp (op : BufferOp) (w : World) :
  Drained w (runBufferOp op w) (pushedBy [op]).
Proof.
  destruct op as [entry | tasks | raws |]; simpl.
  - apply Drained_push.
  - apply Drained_longTaskCallback.
  - apply Drained_INPCallback.
  - apply Drained_flushBuffer.
Qed.

(** C3 (as amended). Over any sequence of pushes, long-task callbacks,
    interaction callbacks and flushes, the print calls added to the
    console are the renderings of batches of entries such that every entry
    that was in the buffer or was pushed is in exactly one of: a printed
    batch, the buffer that remains, or the entries dropped without being
    printed; and every dropped entry is an effect-run entry.  So no entry
    is printed twice, and an entry other than an effect-run entry leaves
    the buffer only by being printed or by being kept as the
    after-partition.  Flushing an empty buffer changes nothing. *)
Theorem buffer_drain_invariant (ops : list BufferOp) (w : World) :
  Drained w (runBufferOps ops w) (pushedBy ops)
  ∧ flushBuffer (set_logBuffer [] w) = set_logBuffer [] w.
Proof.
  split.
  - revert w. induction ops as [|op ops IH]; intros w.
    + apply Drained_refl.
    + replace (pushedBy (op :: ops)) with (pushedBy [op] ++ pushedBy ops)
        by (unfold pushedBy; simpl; by rewrite app_nil_r).
      eapply Drained_trans; [apply Drained_runBufferOp | apply IH].
  - unfold flushBuffer, set_logBuffer, set_console. simpl. by rewrite app_nil_r.
Qed.

(** C3, as stated, fails: the fallback flush removes a buffered effect-run
    entry that it neither prints nor keeps. *)
Lemma flush_drops_effect_run_counterexample :
  logBuffer world_one_effect_run = [sample_effect_run]
  ∧ console (flushBuffer world_one_effect_run) = console world_one_effect_run
  ∧ logBuffer (flushBuffer world_one_effect_run) = [].
Proof. repeat split. Qed.

(** ** The selection of the interaction observer *)

Lemma Qltb_true (x y : Q) : Qltb x y = true ↔ (x < y)%Q.
Proof.
  unfold Qltb. rewrite negb_true_iff. split.
  - intros H. apply Qnot_le_lt. intros Hle. apply Qle_bool_iff in Hle. congruence.
  - intros H. destruct (Qle_bool y x) eqn:E; [| done].
    apply Qle_bool_iff in E. exfalso. by apply (Qlt_not_le x y).
Qed.

Lemma Qltb_false (x y : Q) : Qltb x y = false ↔ (y <= x)%Q.
Proof.
  unfold Qltb. rewrite negb_false_iff. apply Qle_bool_iff.
Qed.

Lemma worstOf_elem (rest : list EventTiming.t) :
  ∀ first, worstOf first rest ∈ first :: rest.
Proof.
  induction rest as [|curr rest IH]; intros first; simpl.
  - apply elem_of_cons. by left.
  - apply elem_of_cons.
    destruct (Qltb (EventTiming.duration curr) (EventTiming.duration first)).
    + specialize (IH first). apply elem_of_cons in IH as [-> | IH]; [by left |].
      right. apply elem_of_cons. by right.
    + right. apply IH.
Qed.

Lemma worstOf_ge_first (rest : list EventTiming.t) :
  ∀ first, (EventTiming.duration first <= EventTiming.duration (worstOf first rest))%Q.
Proof.
  induction rest as [|curr rest IH]; intros first; simpl.
  - apply Qle_refl.
  - destruct (Qltb (EventTiming.duration curr) (EventTiming.duration first)) eqn:E.
    + apply IH.
    + apply Qltb_false in E. eapply Qle_trans; [apply E | apply IH].
Qed.

Lemma worstOf_greatest (rest : list EventTiming.t) :
  ∀ first r, r ∈ first :: rest →
    (EventTiming.duration r <= EventTiming.duration (worstOf first rest))%Q.
Proof.
  induction rest as [|curr rest IH]; intros first r Hr.
  - apply list_elem_of_singleton in Hr as ->. apply Qle_refl.
  - apply elem_of_cons in Hr as [-> | Hr]; [apply worstOf_ge_first |].
    simpl.
    destruct (Qltb (EventTiming.duration curr) (EventTiming.duration first)) eqn:E.
    + apply elem_of_cons in Hr as [-> | Hr].
      * apply Qltb_true, Qlt_le_weak in E.
        eapply Qle_trans; [apply E | apply worstOf_ge_first].
      * apply IH. apply elem_of_cons. by right.
    + by apply IH.
Qed.

Lemma lookupGroup_groupPush (id : Z) (entry : EventTiming.t)
    (interactions : list (Z * list EventTiming.t)) (key : Z) :
  lookupGroup key (groupPush id entry interactions)
  = if bool_decide (key = id)
    then Some (default [] (lookupGroup id interactions) ++ [entry])
    else lookupGroup key interactions.
Proof.
  induction interactions as [|[k group] rest IH]; cbn [groupPush lookupGroup].
  - destruct (decide (key = id)) as [-> | Hne].
    + by rewrite !bool_decide_eq_true_2.
    + rewrite (bool_decide_eq_false_2 (id = key)) by congruence.
      by rewrite (bool_decide_eq_false_2 (key = id)).
  - destruct (decide (k = id)) as [-> | Hk].
    + rewrite !(bool_decide_eq_true_2 (id = id)) by done. cbn [lookupGroup].
      destruct (decide (key = id)) as [-> | Hne].
      * by rewrite !bool_decide_eq_true_2.
      * rewrite (bool_decide_eq_false_2 (id = key)) by congruence.
        by rewrite (bool_decide_eq_false_2 (key = id)).
    + rewrite !(bool_decide_eq_false_2 (k = id)) by done. cbn [lookupGroup].
      rewrite IH.
      destruct (decide (k = key)) as [-> | Hkk].
      * rewrite (bool_decide_eq_true_2 (key = key)) by done.
        by rewrite (bool_decide_eq_false_2 (key = id)).
      * by rewrite (bool_decide_eq_false_2 (k = key)).
Qed.

Lemma groupPush_keys (id : Z) (entry : EventTiming.t)
    (interactions : list (Z * list EventTiming.t)) :
  (groupPush id entry interactions).*1
  = if bool_decide (id ∈ interactions.*1) then interactions.*1 else interactions.*1 ++ [id].
Proof.
  induction interactions as [|[k group] rest IH]; cbn [groupPush].
  - by rewrite bool_decide_eq_false_2 by apply not_elem_of_nil.
  - rewrite (fmap_cons fst (k, group) rest). cbn [fst].
    destruct (decide (k = id)) as [-> | Hk].
    + rewrite (bool_decide_eq_true_2 (id = id)) by done.
      rewrite bool_decide_eq_true_2 by (apply elem_of_cons; by left).
      by rewrite fmap_cons.
    + rewrite (bool_decide_eq_false_2 (k = id)) by done.
      rewrite fmap_cons, IH. cbn [fst].
      destruct (decide (id ∈ rest.*1)) as [Hin | Hin].
      * rewrite (bool_decide_eq_true_2 (id ∈ rest.*1)) by done.
        by rewrite bool_decide_eq_true_2 by (apply elem_of_cons; by right).
      * rewrite (bool_decide_eq_false_2 (id ∈ rest.*1)) by done.
        rewrite bool_decide_eq_false_2; [done |].
        intros [? | ?]%elem_of_cons; congruence.
Qed.

Lemma groupPush_NoDup (id : Z) (entry : EventTiming.t)
    (interactions : list (Z * list EventTiming.t)) :
  NoDup interactions.*1 → NoDup (groupPush id entry interactions).*1.
Proof.
  intros Hnd. rewrite groupPush_keys. case_bool_decide as Hin; [done |].
  apply NoDup_app. split; [done |]. split; [| apply NoDup_singleton].
  intros x Hx Hx'. apply list_elem_of_singleton in Hx'. by subst.
Qed.

(** One iteration of the grouping loop. *)
Lemma groupInteractions_snoc (raws : list EventTiming.t) (entry : EventTiming.t) :
  groupInteractions (raws ++ [entry])
  = match EventTiming.interactionId entry with
    | Some id => if bool_decide (id = 0%Z) then groupInteractions raws
                 else groupPush id entry (groupInteractions raws)
    | None => groupInteractions raws
    end.
Proof. unfold groupInteractions. by rewrite foldl_snoc. Qed.

Lemma groupInteractions_NoDup (raws : list EventTiming.t) :
  NoDup (groupInteractions raws).*1.
Proof.
  induction raws as [|entry raws IH] using rev_ind; [constructor |].
  rewrite groupInteractions_snoc.
  destruct (EventTiming.interactionId entry) as [id |]; [| done].
  case_bool_decide; [done | by apply groupPush_NoDup].
Qed.

Lemma groupFor_snoc (key : Z) (raws : list EventTiming.t) (entry : EventTiming.t) :
  groupFor key (raws ++ [entry])
  = groupFor key raws
    ++ (if bool_decide (EventTiming.interactionId entry = Some key) then [entry] else []).
Proof.
  unfold groupFor. rewrite filter_app. f_equal.
  case_bool_decide; [by rewrite filter_cons_True | by rewrite filter_cons_False].
Qed.

(** The map built by the grouping loop: under each non-zero identifier
    that occurs, the reports that carry it, in arrival order. *)
Lemma lookupGroup_groupInteractions (raws : list EventTiming.t) (key : Z) :
  lookupGroup key (groupInteractions raws)
  = if bool_decide (key ≠ 0%Z ∧ groupFor key raws ≠ [])
    then Some (groupFor key raws) else None.
Proof.
  induction raws as [|entry raws IH] using rev_ind.
  - rewrite bool_decide_eq_false_2; [done | by intros [_ ?]].
  - rewrite groupInteractions_snoc, groupFor_snoc.
    destruct (EventTiming.interactionId entry) as [id |] eqn:Hid.
    2:{ rewrite (bool_decide_eq_false_2 (None = Some key)) by discriminate.
        by rewrite app_nil_r. }
    destruct (decide (id = 0%Z)) as [-> | Hz].
    { rewrite (bool_decide_eq_true_2 (0%Z = 0%Z)) by done. rewrite IH.
      destruct (decide (key = 0%Z)) as [-> | Hkey].
      - rewrite !bool_decide_eq_false_2; [done | by intros [? _] | by intros [? _]].
      - rewrite (bool_decide_eq_false_2 (Some 0%Z = Some key)) by congruence.
        by rewrite app_nil_r. }
    rewrite (bool_decide_eq_false_2 (id = 0%Z)) by done.
    rewrite lookupGroup_groupPush.
    destruct (decide (key = id)) as [-> | Hkey].
    + rewrite (bool_decide_eq_true_2 (id = id)) by done.
      rewrite (bool_decide_eq_true_2 (Some id = Some id)) by done.
      rewrite (bool_decide_eq_true_2 (id ≠ 0%Z ∧ groupFor id raws ++ [entry] ≠ [])).
      2:{ split; [done |]. intros Happ. by apply app_eq_nil in Happ as [_ ?]. }
      do 2 f_equal. rewrite IH.
      destruct (decide (id ≠ 0%Z ∧ groupFor id raws ≠ [])) as [Hne | Hne].
      * by rewrite bool_decide_eq_true_2.
      * rewrite bool_decide_eq_false_2 by done. simpl.
        destruct (groupFor id raws) eqn:Hg; [done |].
        exfalso. apply Hne. split; [done | discriminate].
    + rewrite (bool_decide_eq_false_2 (key = id)) by done.
      rewrite (bool_decide_eq_false_2 (Some id = Some key)) by congruence.
      by rewrite app_nil_r.
Qed.

Lemma lookupGroup_elem (interactions : list (Z * list EventTiming.t)) (key : Z)
    (group : list EventTiming.t) :
  NoDup interactions.*1 → (key, group) ∈ interactions →
  lookupGroup key interactions = Some group.
Proof.
  induction interactions as [|[k g] rest IH]; intros Hnd Hin.
  - by apply elem_of_nil in Hin.
  - rewrite fmap_cons in Hnd. apply NoDup_cons in Hnd as [Hk Hnd].
    cbn [lookupGroup]. apply elem_of_cons in Hin as [Heq | Hin].
    + injection Heq as -> ->. by rewrite bool_decide_eq_true_2.
    + rewrite bool_decide_eq_false_2; [by apply IH |].
      intros ->. apply Hk. cbn [fst].
      apply (list_elem_of_fmap_2 fst) in Hin. exact Hin.
Qed.

(** Every group of the map is the non-empty list of all the reports that
    carry its non-zero identifier. *)
Lemma groupInteractions_sound (raws : list EventTiming.t) (key : Z)
    (group : list EventTiming.t) :
  (key, group) ∈ groupInteractions raws →
  key ≠ 0%Z ∧ group ≠ [] ∧ group = groupFor key raws.
Proof.
  intros Hin.
  apply lookupGroup_elem in Hin; [| apply groupInteractions_NoDup].
  rewrite lookupGroup_groupInteractions in Hin.
  destruct (decide (key ≠ 0%Z ∧ groupFor key raws ≠ [])) as [[Hk Hg] | Hne].
  - rewrite bool_decide_eq_true_2 in Hin by done. injection Hin as <-. done.
  - by rewrite bool_decide_eq_false_2 in Hin.
Qed.

Lemma lookupGroup_Some (interactions : list (Z * list EventTiming.t)) (key : Z)
    (group : list EventTiming.t) :
  lookupGroup key interactions = Some group → (key, group) ∈ interactions.
Proof.
  induction interactions as [|[k g] rest IH]; cbn [lookupGroup]; [done |].
  destruct (decide (k = key)) as [-> | Hk].
  - rewrite bool_decide_eq_true_2 by done. intros [= ->]. apply elem_of_cons. by left.
  - rewrite bool_decide_eq_false_2 by done. intros H. apply elem_of_cons. right. by apply IH.
Qed.

Lemma selectedReports_elem (raws : list EventTiming.t) (s : EventTiming.t) :
  s ∈ selectedReports raws
  ↔ ∃ key first rest, (key, first :: rest) ∈ groupInteractions raws ∧ s = worstOf first rest.
Proof.
  unfold selectedReports. rewrite list_elem_of_In, in_flat_map. split.
  - intros ([key [|first rest]] & Hin & Hs); [destruct Hs |].
    destruct Hs as [<- | []]. exists key, first, rest.
    split; [by apply list_elem_of_In | done].
  - intros (key & first & rest & Hin & ->).
    exists (key, first :: rest). split; [by apply list_elem_of_In | by left].
Qed.

Lemma selectedReports_ids (raws : list EventTiming.t) :
  EventTiming.interactionId <$> selectedReports raws = Some <$> (groupInteractions raws).*1.
Proof.
  unfold selectedReports.
  assert (Forall (fun '(key, group) =>
                    group ≠ [] ∧ ∀ r, r ∈ group → EventTiming.interactionId r = Some key)
                 (groupInteractions raws)) as Hall.
  { apply Forall_forall. intros [key group] Hin.
    apply groupInteractions_sound in Hin as (_ & Hne & ->). split; [done |].
    intros r Hr. unfold groupFor in Hr. by apply list_elem_of_filter in Hr as [? _]. }
  induction Hall as [|[key group] rest [Hne Hids] _ IH]; [done |].
  destruct group as [|first more]; [done |].
  cbn [flat_map]. rewrite !fmap_cons, <- IH. cbn [app fst fmap list_fmap].
  f_equal. apply Hids, worstOf_elem.
Qed.

Lemma INPCallback_selected (raws : list EventTiming.t) (w : World) :
  initINPObserver_callback raws w
  = foldl (fun w worst => interactionPass worst w) w (selectedReports raws).
Proof.
  unfold initINPObserver_callback, selectedReports.
  generalize (groupInteractions raws) as groups. intros groups. revert w.
  induction groups as [|[key [|first rest]] groups IH]; intros w; simpl; [done | apply IH ..].
Qed.

Lemma groupInteractions_filter (raws : list EventTiming.t) :
  groupInteractions
    (List.filter (fun r => negb (falsyId (EventTiming.interactionId r))) raws)
  = groupInteractions raws.
Proof.
  unfold groupInteractions. generalize (@nil (Z * list EventTiming.t)) as acc.
  induction raws as [|r raws IH]; intros acc; simpl; [done |].
  destruct (EventTiming.interactionId r) as [id |] eqn:Hid; simpl.
  - destruct (bool_decide (id = 0%Z)) eqn:Hz; simpl; [apply IH |].
    rewrite Hid, Hz. apply IH.
  - apply IH.
Qed.

(** C9. The callback of the interaction observer handles exactly the
    selected reports, one partition pass per selected report.  Reports
    whose interaction identifier is null or zero have no effect at all.
    Exactly one report is selected for each remaining identifier, and no
    report with that identifier has a greater duration.  The pass of a
    selected report partitions the buffer by its processingStart and
    processingEnd: it keeps the entries after that window, prints the
    entries before it (effect-run entries left out) one line each, and,
    when some entry lies within the window, prints one group that holds
    those entries one line each and whose label starts with "Slow
    Interaction: " followed by the name of the report and its rounded
    duration. *)
Theorem interaction_selection (raws : list EventTiming.t) (w : World) :
  initINPObserver_callback raws w
  = foldl (fun w worst => interactionPass worst w) w (selectedReports raws)
  ∧ initINPObserver_callback raws w
    = initINPObserver_callback
        (List.filter (fun r => negb (falsyId (EventTiming.interactionId r))) raws) w
  ∧ (∀ s, s ∈ selectedReports raws →
          s ∈ raws ∧ falsyId (EventTiming.interactionId s) = false)
  ∧ NoDup (EventTiming.interactionId <$> selectedReports raws)
  ∧ (∀ r, r ∈ raws → falsyId (EventTiming.interactionId r) = false →
          ∃ s, s ∈ selectedReports raws
               ∧ EventTiming.interactionId s = EventTiming.interactionId r)
  ∧ (∀ s r, s ∈ selectedReports raws → r ∈ raws →
            EventTiming.interactionId r = EventTiming.interactionId s →
            (EventTiming.duration r <= EventTiming.duration s)%Q)
  ∧ (∀ worst w0,
        let procStart := EventTiming.processingStart worst in
        let procEnd := EventTiming.processingEnd worst in
        let before := List.filter notEffectRun (beforeWindow procStart (logBuffer w0)) in
        let during := duringWindow procStart (Finite procEnd) (logBuffer w0) in
        let label :=
          "Slow Interaction: " +:+ EventTiming.name worst +:+ " ("
            +:+ pretty (Math_round (EventTiming.duration worst)) +:+ "ms) — "
            +:+ groupParts during in
        logBuffer (interactionPass worst w0)
        = afterWindow procStart (Finite procEnd) (logBuffer w0)
        ∧ ∃ beforeLines duringLines,
            PrintsEach before beforeLines
            ∧ PrintsEach during duringLines
            ∧ console (interactionPass worst w0)
              = console w0 ++ beforeLines
                  ++ match during with
                     | [] => []
                     | _ :: _ =>
                         console_groupCollapsed label :: duringLines ++ [console_groupEnd]
                     end).
Proof.
  assert (∀ s, s ∈ selectedReports raws →
            ∃ key, key ≠ 0%Z ∧ EventTiming.interactionId s = Some key
                   ∧ s ∈ groupFor key raws
                   ∧ ∀ r, r ∈ groupFor key raws →
                          (EventTiming.duration r <= EventTiming.duration s)%Q) as Hsel.
  { intros s (key & first & rest & Hin & ->)%selectedReports_elem.
    apply groupInteractions_sound in Hin as (Hkey & _ & Hgroup).
    exists key. split; [done |].
    assert (worstOf first rest ∈ groupFor key raws) as Hw
      by (rewrite <- Hgroup; apply worstOf_elem).
    split; [unfold groupFor in Hw; by apply list_elem_of_filter in Hw as [? _] |].
    split; [done |].
    intros r Hr. apply worstOf_greatest. by rewrite Hgroup. }
  split; [apply INPCallback_selected |].
  split.
  { unfold initINPObserver_callback. by rewrite groupInteractions_filter. }
  split.
  { intros s (key & Hkey & Hid & Hin & _)%Hsel.
    unfold groupFor in Hin. apply list_elem_of_filter in Hin as [_ Hin].
    split; [done |]. rewrite Hid. simpl. by apply bool_decide_eq_false_2. }
  split.
  { rewrite selectedReports_ids. apply NoDup_fmap_2; [apply _ |].
    apply groupInteractions_NoDup. }
  split.
  { intros r Hr Hid.
    destruct (EventTiming.interactionId r) as [key |] eqn:Hkey; [| done].
    simpl in Hid. apply bool_decide_eq_false in Hid.
    assert (r ∈ groupFor key raws) as Hg by (by apply list_elem_of_filter).
    assert (lookupGroup key (groupInteractions raws) = Some (groupFor key raws)) as Hl.
    { rewrite lookupGroup_groupInteractions. rewrite bool_decide_eq_true_2; [done |].
      split; [done |]. intros Hnil. rewrite Hnil in Hg. by apply elem_of_nil in Hg. }
    apply lookupGroup_Some in Hl.
    destruct (groupFor key raws) as [|first rest] eqn:Hgf;
      [by apply elem_of_nil in Hg |].
    exists (worstOf first rest). split.
    - apply selectedReports_elem. eauto.
    - assert (worstOf first rest ∈ groupFor key raws) as Hw
        by (rewrite Hgf; apply worstOf_elem).
      unfold groupFor in Hw. by apply list_elem_of_filter in Hw as [? _]. }
  split.
  { intros s r (key & Hkey & Hid & _ & Hmax)%Hsel Hr Heq.
    apply Hmax. apply list_elem_of_filter. split; [congruence | done]. }
  intros worst w0 procStart procEnd before during label.
  split; [apply interactionPass_logBuffer |].
  exists (printEntries before), (printEntries during).
  split; [apply printEntries_each |]. split; [apply printEntries_each |].
  rewrite interactionPass_console. fold procStart procEnd during before label.
  unfold printGroup. by destruct during.
Qed.

Lemma interaction_selection_witness :
  (EventTiming.duration report_pointerdown <= EventTiming.duration report_click)%Q
  ∧ ∃ s, s ∈ selectedReports sample_reports
         ∧ EventTiming.interactionId s = EventTiming.interactionId report_pointerdown.
Proof.
  destruct (interaction_selection sample_reports world_one_effect_run)
    as (_ & _ & _ & _ & Hex & Hmax & _).
  split.
  - apply Hmax.
    + assert (selectedReports sample_reports = [report_click]) as ->
        by (vm_compute; reflexivity).
      apply elem_of_cons. by left.
    + apply elem_of_cons. by left.
    + reflexivity.
  - apply Hex.
    + apply elem_of_cons. by left.
    + reflexivity.
Defined.

(** ** What [log] touches *)

Lemma logState_log (message : string) (type : EntryType) (location countKey : string)
    (w1 w2 : World) :
  logState w1 = logState w2 →
  logState (log message type location countKey w1)
  = logState (log message type location countKey w2).
Proof.
  destruct w1, w2. unfold logState, log, scheduleFlush. simpl.
  intros [= -> -> -> -> -> -> ->].
  destruct effectTrackerLogger1; [done |].
  destruct hasPerformance1; [| done].
  by destruct flushTimer1.
Qed.

Lemma logState_emitAll (es : list Emission.t) :
  ∀ w1 w2, logState w1 = logState w2 → logState (emitAll es w1) = logState (emitAll es w2).
Proof.
  induction es as [|e es IH]; intros w1 w2 H; simpl; [done |].
  apply IH. unfold emit. by apply logState_log.
Qed.

Lemma logState_outputs (w1 w2 : World) : logState w1 = logState w2 → outputs w1 = outputs w2.
Proof. unfold logState, outputs. by intros [= _ -> _ _ -> _ ->]. Qed.

Lemma snoc_neq {A : Type} (l : list A) (x : A) : l ++ [x] ≠ l.
Proof.
  intros H. apply (f_equal length) in H. rewrite length_app in H. simpl in H. lia.
Qed.

(** A call of [log] always reaches exactly one sink. *)
Lemma log_delivers (message : string) (type : EntryType) (location countKey : string)
    (w : World) :
  outputs (log message type location countKey w) ≠ outputs w.
Proof.
  unfold outputs, log, scheduleFlush.
  destruct (effectTrackerLogger w); simpl.
  - intros [= H]. by apply snoc_neq in H.
  - destruct (hasPerformance w); simpl.
    + destruct (flushTimer w); simpl; intros [= H]; by apply snoc_neq in H.
    + intros [= H]. by apply snoc_neq in H.
Qed.

Lemma log_frame (message : string) (type : EntryType) (location countKey : string)
    (w : World) :
  let w' := log message type location countKey w in
  effectTracker w' = effectTracker w ∧ trackers w' = trackers w
  ∧ closures w' = closures w ∧ hostCalls w' = hostCalls w
  ∧ stateTrackerMap w' = stateTrackerMap w ∧ reducerTrackerMap w' = reducerTrackerMap w.
Proof.
  unfold log, scheduleFlush.
  destruct (effectTrackerLogger w); [done |].
  destruct (hasPerformance w); [| done].
  simpl. by destruct (flushTimer w).
Qed.

Lemma attributeChange_logState (hookName : string) (meta : Meta.t) (tracker : nat)
    (w : World) :
  logState (attributeChange hookName meta tracker w)
  = logState (emit (stateChangeEmission hookName meta (trackers w !!! tracker)) w).
Proof. unfold attributeChange, emit. simpl. by apply logState_log. Qed.

Lemma attributeChange_frame (hookName : string) (meta : Meta.t) (tracker : nat) (w : World) :
  let w' := attributeChange hookName meta tracker w in
  effectTracker w' = effectTracker w ∧ closures w' = closures w
  ∧ hostCalls w' = hostCalls w
  ∧ stateTrackerMap w' = stateTrackerMap w ∧ reducerTrackerMap w' = reducerTrackerMap w.
Proof.
  unfold attributeChange.
  match goal with |- context [log ?m ?t ?l ?k ?w0] =>
    destruct (log_frame m t l k w0) as (H1 & _ & H3 & H4 & H5 & H6) end.
  cbv zeta. rewrite H1, H3, H4, H5, H6. done.
Qed.

(** ** The tracked setter *)

Lemma callStateWrapper_returned (wrapper : nat) (valueOrUpdater : SetStateArg) (w : World)
    (meta : Meta.t) (value newValue : Value) (rawSetState : nat) :
  closures w !! wrapper = Some (StateWrapper meta value rawSetState) →
  applyArg valueOrUpdater value = Returned newValue →
  callStateWrapper wrapper valueOrUpdater w
  = (Returned VUndefined,
     let w1 := match effectTracker w with
               | Some tracker =>
                   if negb (strictEq value newValue)
                   then attributeChange "useState" meta tracker w
                   else w
               | None => w
               end in
     let w2 := set_closures
                 (<[wrapper := StateWrapper meta newValue rawSetState]> (closures w1)) w1 in
     set_hostCalls (hostCalls w2 ++ [call_rawSetState rawSetState valueOrUpdater]) w2).
Proof. intros Hclosure Hnew. unfold callStateWrapper. by rewrite Hclosure, Hnew. Qed.

Lemma callStateWrapper_thrown (wrapper : nat) (valueOrUpdater : SetStateArg) (w : World)
    (meta : Meta.t) (value : Value) (rawSetState : nat) (e : Value) :
  closures w !! wrapper = Some (StateWrapper meta value rawSetState) →
  applyArg valueOrUpdater value = Thrown e →
  callStateWrapper wrapper valueOrUpdater w = (Thrown e, w).
Proof. intros Hclosure Hnew. unfold callStateWrapper. by rewrite Hclosure, Hnew. Qed.

Lemma callReducerWrapper_returned (wrapper : nat) (action : Value) (w : World)
    (meta : Meta.t) (reducer : Value → Value → Result Value) (trackedState nextState : Value)
    (rawDispatch : nat) :
  closures w !! wrapper = Some (ReducerWrapper meta reducer trackedState rawDispatch) →
  reducer trackedState action = Returned nextState →
  callReducerWrapper wrapper action w
  = (Returned VUndefined,
     let w1 := match effectTracker w with
               | Some tracker =>
                   if negb (strictEq trackedState nextState)
                   then attributeChange "useReducer" meta tracker w
                   else w
               | None => w
               end in
     let w2 := set_closures
                 (<[wrapper := ReducerWrapper meta reducer nextState rawDispatch]> (closures w1))
                 w1 in
     set_hostCalls (hostCalls w2 ++ [call_rawDispatch rawDispatch action]) w2).
Proof. intros Hclosure Hnext. unfold callReducerWrapper. by rewrite Hclosure, Hnext. Qed.

Lemma callReducerWrapper_thrown (wrapper : nat) (action : Value) (w : World)
    (meta : Meta.t) (reducer : Value → Value → Result Value) (trackedState : Value)
    (rawDispatch : nat) (e : Value) :
  closures w !! wrapper = Some (ReducerWrapper meta reducer trackedState rawDispatch) →
  reducer trackedState action = Thrown e →
  callReducerWrapper wrapper action w = (Thrown e, w).
Proof. intros Hclosure Hnext. unfold callReducerWrapper. by rewrite Hclosure, Hnext. Qed.

(** C5 (as amended). A call of a tracked state setter first computes the
    new value: the argument, or the updater applied to the mirrored value.
    When that completes, the call emits one state-change entry if the new
    value is not strictly equal to the mirrored value and the execution
    context is non-null, and emits nothing otherwise; in both cases the
    mirrored value becomes the new value, the raw setter is called with
    the very argument the wrapper received, and the call returns. When
    the updater throws, the call throws what the updater threw and has
    done nothing: no entry, the mirror as it was, the raw setter not
    called. *)
Theorem tracked_setter_behaviour (wrapper : nat) (valueOrUpdater : SetStateArg) (w : World)
    (meta : Meta.t) (value : Value) (rawSetState : nat) :
  closures w !! wrapper = Some (StateWrapper meta value rawSetState) →
  let call := callStateWrapper wrapper valueOrUpdater w in
  match applyArg valueOrUpdater value with
  | Returned newValue =>
      call.1 = Returned VUndefined
      ∧ match effectTracker w with
        | Some tracker =>
            if strictEq value newValue then logState call.2 = logState w
            else logState call.2
                 = logState
                     (emit (stateChangeEmission "useState" meta (trackers w !!! tracker)) w)
        | None => logState call.2 = logState w
        end
      ∧ (outputs call.2 ≠ outputs w
         ↔ strictEq value newValue = false ∧ effectTracker w ≠ None)
      ∧ closures call.2 !! wrapper = Some (StateWrapper meta newValue rawSetState)
      ∧ hostCalls call.2 = hostCalls w ++ [call_rawSetState rawSetState valueOrUpdater]
  | Thrown e => call = (Thrown e, w)
  end.
Proof.
  intros Hclosure call.
  assert (wrapper < length (closures w)) as Hlt by (by eapply lookup_lt_Some).
  destruct (applyArg valueOrUpdater value) as [newValue | e] eqn:Hnew.
  2:{ by apply (callStateWrapper_thrown _ _ _ meta value rawSetState). }
  subst call.
  rewrite (callStateWrapper_returned _ _ _ meta value newValue rawSetState) by done.
  cbn [fst snd]. split; [done |].
  destruct (effectTracker w) as [tracker |] eqn:Htracker.
  - destruct (strictEq value newValue) eqn:Heq; cbn [negb].
    + split; [done |]. split; [| split].
      * split; [by intros [] | by intros [[=] _]].
      * simpl. by apply list_lookup_insert_eq.
      * done.
    + pose proof (attributeChange_frame "useState" meta tracker w) as (_ & Hc & Hh & _).
      pose proof (attributeChange_logState "useState" meta tracker w) as Hlog.
      split; [exact Hlog |]. split; [| split].
      * split; [done |]. intros _.
        change (outputs (attributeChange "useState" meta tracker w) ≠ outputs w).
        rewrite (logState_outputs _ _ Hlog). apply log_delivers.
      * simpl. rewrite Hc. by apply list_lookup_insert_eq.
      * simpl. by rewrite Hh.
  - split; [done |]. split; [| split].
    + split; [by intros [] | by intros [_ []]].
    + simpl. by apply list_lookup_insert_eq.
    + done.
Qed.

Lemma tracked_setter_behaviour_witness :
  hostCalls (callStateWrapper 0 (PlainValue (VNum 1)) world_in_effect).2
  = [call_rawSetState 11 (PlainValue (VNum 1))]
  ∧ closures (callStateWrapper 0 (PlainValue (VNum 1)) world_in_effect).2 !! 0
    = Some (StateWrapper (Meta.mk "App.tsx:3" "App" "a") (VNum 1) 11).
Proof.
  destruct (tracked_setter_behaviour 0 (PlainValue (VNum 1)) world_in_effect
              (Meta.mk "App.tsx:3" "App" "a") (VNum 0) 11) as (_ & _ & _ & Hmirror & Hforward).
  - reflexivity.
  - split; [exact Hforward | exact Hmirror].
Defined.

(** C5, as stated, fails: inside an effect, a call of the tracked setter
    with an updater that throws neither updates the mirrored value nor
    reaches the raw setter. *)
Lemma throwing_updater_counterexample :
  (callStateWrapper 0 (Updater (fun _ => Thrown (VStr "boom"))) world_in_effect).1
  = Thrown (VStr "boom")
  ∧ closures (callStateWrapper 0 (Updater (fun _ => Thrown (VStr "boom"))) world_in_effect).2
      !! 0
    = Some (StateWrapper (Meta.mk "App.tsx:3" "App" "a") (VNum 0) 11)
  ∧ hostCalls (callStateWrapper 0 (Updater (fun _ => Thrown (VStr "boom"))) world_in_effect).2
    = [].
Proof. repeat split. Qed.

(** ** The effect instrumentor *)

Lemma installTracker_frame (tracker : EffectTracker.t) (w : World) :
  let w1 := installTracker tracker w in
  effectTracker w1 = Some (length (trackers w))
  ∧ trackers w1 = trackers w ++ [tracker]
  ∧ logState w1 = logState w
  ∧ closures w1 = closures w ∧ hostCalls w1 = hostCalls w
  ∧ stateTrackerMap w1 = stateTrackerMap w ∧ reducerTrackerMap w1 = reducerTrackerMap w.
Proof. done. Qed.

Lemma slowEffectDetection_frame (startTime : Q) (location componentName : string)
    (w : World) :
  let w' := slowEffectDetection startTime location componentName w in
  effectTracker w' = effectTracker w ∧ trackers w' = trackers w
  ∧ closures w' = closures w ∧ hostCalls w' = hostCalls w
  ∧ stateTrackerMap w' = stateTrackerMap w ∧ reducerTrackerMap w' = reducerTrackerMap w.
Proof.
  unfold slowEffectDetection.
  destruct (Qltb 0 startTime); [| done].
  destruct (Number_leb 8 (Number_sub (now w) startTime)); [apply log_frame | done].
Qed.

Lemma logNonLoopEffect_frame (tracker : nat) (changedDeps : option (list string))
    (location componentName : string) (w : World) :
  let w' := logNonLoopEffect tracker changedDeps location componentName w in
  effectTracker w' = effectTracker w ∧ trackers w' = trackers w
  ∧ closures w' = closures w ∧ hostCalls w' = hostCalls w
  ∧ stateTrackerMap w' = stateTrackerMap w ∧ reducerTrackerMap w' = reducerTrackerMap w.
Proof.
  unfold logNonLoopEffect.
  destruct (EffectTracker.stateWasSet (trackers w !!! tracker)); [done | apply log_frame].
Qed.

(** What an invocation does once its body has returned: the context is
    restored, and the entries of the two blocks are emitted on top of what
    the body left. *)
Lemma effectClosure_returned (callback : Callback) (deps : option (list Value))
    (location componentName : string) (depNames : option (list string))
    (refs : EffectRefs) (w : World) (cleanup : Value) (w2 : World) :
  callback (installTracker (trackerFor location componentName refs deps depNames) w)
  = (Returned cleanup, w2) →
  ∃ w',
    effectClosure callback deps location componentName depNames refs w
    = (Returned cleanup, mkRefs deps false, w')
    ∧ effectTracker w' = effectTracker w
    ∧ trackers w' = trackers w2
    ∧ logState w'
      = logState (emitAll (slowPart location componentName w w2
                             ++ runPart location componentName
                                  (changedDepsOf refs deps depNames) w w2) w2).
Proof.
  intros Hbody. unfold effectClosure. fold (trackerFor location componentName refs deps depNames).
  rewrite Hbody. eexists. split; [reflexivity |].
  change (hasPerformance (installTracker (trackerFor location componentName refs deps depNames) w))
    with (hasPerformance w).
  change (now (installTracker (trackerFor location componentName refs deps depNames) w))
    with (now w).
  set (startTime := if hasPerformance w then now w else 0%Q).
  set (w3 := set_effectTracker (effectTracker w) w2).
  set (w4 := slowEffectDetection startTime location componentName w3).
  pose proof (slowEffectDetection_frame startTime location componentName w3)
    as (Ht4 & Htr4 & _).
  pose proof (logNonLoopEffect_frame (length (trackers w))
                (changedDepsOf refs deps depNames) location componentName w4)
    as (Ht5 & Htr5 & _).
  fold w4 in Ht4, Htr4.
  split; [by rewrite Ht5, Ht4 |]. split; [by rewrite Htr5, Htr4 |].
  assert (logState w4 = logState (emitAll (slowPart location componentName w w2) w2)) as Hslow.
  { unfold w4, slowEffectDetection, slowPart. fold startTime.
    change (now w3) with (now w2).
    destruct (Qltb 0 startTime); [| done].
    destruct (Number_leb 8 (Number_sub (now w2) startTime)); [| done].
    simpl. unfold emit, slowEffectEmission. simpl. by apply logState_log. }
  unfold emitAll. rewrite foldl_app. fold (emitAll (slowPart location componentName w w2) w2).
  unfold logNonLoopEffect, runPart. rewrite Htr4. change (trackers w3) with (trackers w2).
  destruct (EffectTracker.stateWasSet (trackers w2 !!! length (trackers w))); [done |].
  simpl. unfold emit, effectRunEmission. simpl. by apply logState_log.
Qed.

(** What an invocation does when its body throws. *)
Lemma effectClosure_thrown (callback : Callback) (deps : option (list Value))
    (location componentName : string) (depNames : option (list string))
    (refs : EffectRefs) (w : World) (e : Value) (w2 : World) :
  callback (installTracker (trackerFor location componentName refs deps depNames) w)
  = (Thrown e, w2) →
  effectClosure callback deps location componentName depNames refs w
  = (Thrown e, mkRefs deps false, set_effectTracker (effectTracker w) w2).
Proof.
  intros Hbody. unfold effectClosure.
  fold (trackerFor location componentName refs deps depNames). by rewrite Hbody.
Qed.

(** C2. An invocation of an instrumented effect, whichever of the two
    hooks registered it and whether its body returns or throws, leaves the
    global execution-context slot as it found it, and its outcome is the
    outcome of the body: the cleanup that the body returned, or the very
    exception that the body threw. *)
Theorem effect_context_balanced (callback : Callback) (deps : option (list Value))
    (location componentName : string) (depNames : option (list string))
    (refs : EffectRefs) (w : World) :
  let body := callback (installTracker (trackerFor location componentName refs deps depNames) w) in
  let invocation :=
    effect (__trackedUseEffect callback deps location componentName depNames) refs w in
  let layoutInvocation :=
    effect (__trackedUseLayoutEffect callback deps location componentName depNames) refs w in
  effectTracker invocation.2 = effectTracker w
  ∧ invocation.1.1 = body.1
  ∧ effectTracker layoutInvocation.2 = effectTracker w
  ∧ layoutInvocation.1.1 = body.1.
Proof.
  cbv zeta. unfold __trackedUseEffect, __trackedUseLayoutEffect, trackedEffectImpl. cbn [effect].
  destruct (callback (installTracker (trackerFor location componentName refs deps depNames) w))
    as [[cleanup | e] w2] eqn:Hbody.
  - destruct (effectClosure_returned _ _ _ _ _ _ _ _ _ Hbody) as (w' & -> & Ht & _).
    done.
  - rewrite (effectClosure_thrown _ _ _ _ _ _ _ _ _ Hbody). done.
Qed.

Lemma nearestDouble_comp (x y : Q) : (x == y)%Q → nearestDouble x = nearestDouble y.
Proof. intros H. unfold nearestDouble. by rewrite (Qred_complete x y H). Qed.

Lemma Number_sub_comp (x y z : Q) :
  (x - y == z)%Q → Number_sub x y = numberOf (nearestDouble z).
Proof. intros H. unfold Number_sub. by rewrite (nearestDouble_comp _ _ H). Qed.

Lemma Number_sub_self (q : Q) : Number_sub q q = Finite 0.
Proof.
  rewrite (Number_sub_comp q q 0); [reflexivity |]. unfold Qminus. apply Qplus_opp_r.
Qed.

Lemma zero_duration_not_slow (q : Q) : Number_leb 8 (Number_sub q q) = false.
Proof. by rewrite Number_sub_self. Qed.

Lemma Qltb_irrefl (q : Q) : Qltb q q = false.
Proof. apply Qltb_false, Qle_refl. Qed.

(** A body that takes no time is not slow. *)
Lemma slowPart_instant (location componentName : string) (w w2 : World) :
  now w2 = now w → slowPart location componentName w w2 = [].
Proof.
  intros Hnow. unfold slowPart. rewrite Hnow.
  destruct (hasPerformance w).
  - by rewrite zero_duration_not_slow, andb_false_r.
  - by rewrite Qltb_irrefl.
Qed.

Lemma runPart_fresh (location componentName : string) (changedDeps : option (list string))
    (tracker : EffectTracker.t) (w : World) :
  EffectTracker.stateWasSet tracker = false →
  runPart location componentName changedDeps w (installTracker tracker w)
  = [effectRunEmission location componentName changedDeps].
Proof.
  intros Hflag. unfold runPart. simpl. by rewrite list_lookup_total_middle, Hflag.
Qed.

(** An invocation whose body does nothing emits its effect-run entry and
    nothing else. *)
Lemma effectClosure_idleBody (deps : option (list Value)) (location componentName : string)
    (depNames : option (list string)) (refs : EffectRefs) (w : World) :
  ∃ w',
    effectClosure idleBody deps location componentName depNames refs w
    = (Returned VUndefined, mkRefs deps false, w')
    ∧ logState w'
      = logState (emit (effectRunEmission location componentName
                          (changedDepsOf refs deps depNames)) w).
Proof.
  destruct (effectClosure_returned idleBody deps location componentName depNames refs w
              VUndefined
              (installTracker (trackerFor location componentName refs deps depNames) w)
              eq_refl) as (w' & Hrun & _ & _ & Hlog).
  exists w'. split; [exact Hrun |].
  rewrite Hlog, slowPart_instant, runPart_fresh by done.
  simpl. by apply logState_log.
Qed.

Lemma reasonFor_cases (changedDeps : option (list string)) :
  match changedDeps with
  | None => reasonFor changedDeps = "it was initially mounted"
  | Some changed =>
      reasonFor changedDeps
      = if bool_decide (changed = []) then "it re-ran (no deps changed detected)"
        else String.concat ", " changed +:+ " changed"
  end.
Proof. by destruct changedDeps as [[|name names] |]. Qed.

(** C6 (as amended). After an effect invocation whose body returns, an
    effect-run entry is emitted exactly when the mutation-occurred flag of
    the invocation's tracker is false.  Its reason is "it was initially
    mounted" on the first run of the registration; on a later run it is
    the changed names followed by "changed" when there are any, and "it
    re-ran (no deps changed detected)" when there are none.  An effect
    with dependency [x] whose body does nothing, run on mount and again
    after x changed, emits exactly two entries, both effect-run: the first
    because it was initially mounted, the second because x changed. *)
Theorem effect_run_entry (callback : Callback) (deps : option (list Value))
    (location componentName : string) (depNames : option (list string))
    (refs : EffectRefs) (w : World) (cleanup : Value) (w2 : World) :
  callback (installTracker (trackerFor location componentName refs deps depNames) w)
  = (Returned cleanup, w2) →
  let changedDeps := changedDepsOf refs deps depNames in
  let flag := EffectTracker.stateWasSet (trackers w2 !!! length (trackers w)) in
  let w' := (effectClosure callback deps location componentName depNames refs w).2 in
  let slow := slowPart location componentName w w2 in
  logState w'
  = logState (emitAll (slow ++ if flag then []
                               else [effectRunEmission location componentName changedDeps]) w2)
  ∧ (outputs w' ≠ outputs (emitAll slow w2) ↔ flag = false)
  ∧ Emission.type (effectRunEmission location componentName changedDeps) = EffectRun
  ∧ Emission.message (effectRunEmission location componentName changedDeps)
    = "useEffect " +:+ location +:+ " in " +:+ componentName +:+ " ran because "
        +:+ reasonFor changedDeps
  ∧ (isInitialRef refs = true → reasonFor changedDeps = "it was initially mounted")
  ∧ (isInitialRef refs = false →
     ∃ changed, changedDeps = Some changed
       ∧ reasonFor changedDeps
         = if bool_decide (changed = []) then "it re-ran (no deps changed detected)"
           else String.concat ", " changed +:+ " changed")
  ∧ (∀ (x0 x1 : Value) (w0 : World),
        x0 ≠ x1 →
        let mount :=
          effectClosure idleBody (Some [x0]) location componentName (Some ["x"]) freshRefs w0 in
        let rerun :=
          effectClosure idleBody (Some [x1]) location componentName (Some ["x"])
            mount.1.2 mount.2 in
        logState rerun.2
        = logState (emitAll [effectRunEmission location componentName None;
                             effectRunEmission location componentName (Some ["x"])] w0)
        ∧ Emission.message (effectRunEmission location componentName None)
          = "useEffect " +:+ location +:+ " in " +:+ componentName
              +:+ " ran because it was initially mounted"
        ∧ Emission.message (effectRunEmission location componentName (Some ["x"]))
          = "useEffect " +:+ location +:+ " in " +:+ componentName
              +:+ " ran because x changed").
Proof.
  intros Hbody changedDeps flag w' slow.
  destruct (effectClosure_returned _ _ _ _ _ _ _ _ _ Hbody) as (w5 & Hrun & _ & _ & Hlog).
  assert (w' = w5) as -> by (subst w'; by rewrite Hrun).
  fold changedDeps slow in Hlog. unfold runPart in Hlog. fold flag in Hlog.
  split; [exact Hlog |].
  split.
  { rewrite (logState_outputs _ _ Hlog). unfold emitAll. rewrite foldl_app.
    destruct flag; simpl.
    - split; [by intros [] | done].
    - split; [done |]. intros _. apply log_delivers. }
  split; [done |]. split; [done |].
  split.
  { intros Hinit. subst changedDeps. unfold changedDepsOf. by rewrite Hinit. }
  split.
  { intros Hinit. subst changedDeps. unfold changedDepsOf. rewrite Hinit.
    destruct (getChangedDeps (prevDepsRef refs) deps depNames) as [changed |].
    - exists changed. split; [done |]. apply (reasonFor_cases (Some changed)).
    - exists []. by split. }
  intros x0 x1 w0 Hx mount rerun.
  split; [| by split].
  subst rerun mount.
  destruct (effectClosure_idleBody (Some [x0]) location componentName (Some ["x"])
              freshRefs w0) as (m & -> & Hm).
  cbn [fst snd].
  destruct (effectClosure_idleBody (Some [x1]) location componentName (Some ["x"])
              (mkRefs (Some [x0]) false) m) as (r & -> & Hr).
  cbn [fst snd]. rewrite Hr.
  assert (changedDepsOf (mkRefs (Some [x0]) false) (Some [x1]) (Some ["x"]) = Some ["x"]) as ->.
  { unfold changedDepsOf. cbn [isInitialRef prevDepsRef getChangedDeps].
    simpl. unfold changedStep.
    assert (Object_is (depAt [x0] 0) (depAt [x1] 0) = false) as ->
      by (by apply Object_is_false).
    done. }
  unfold emit at 1. simpl. apply logState_log. exact Hm.
Qed.

Lemma effect_run_entry_witness :
  logBuffer
    (effectClosure idleBody (Some [VNum 2]) "A.tsx:3" "A" (Some ["x"])
       (effectClosure idleBody (Some [VNum 1]) "A.tsx:3" "A" (Some ["x"]) freshRefs
          world_idle).1.2
       (effectClosure idleBody (Some [VNum 1]) "A.tsx:3" "A" (Some ["x"]) freshRefs
          world_idle).2).2
  = [LogEntry.mk "useEffect A.tsx:3 in A ran because it was initially mounted" 5 EffectRun
       "A.tsx:3" "A.tsx:3:A";
     LogEntry.mk "useEffect A.tsx:3 in A ran because x changed" 5 EffectRun
       "A.tsx:3" "A.tsx:3:A"].
Proof.
  destruct (effect_run_entry idleBody (Some [VNum 1]) "A.tsx:3" "A" (Some ["x"]) freshRefs
              world_idle VUndefined
              (installTracker (trackerFor "A.tsx:3" "A" freshRefs (Some [VNum 1]) (Some ["x"]))
                 world_idle) eq_refl)
    as (_ & _ & _ & _ & _ & _ & Hscenario).
  destruct (Hscenario (VNum 1) (VNum 2) world_idle) as (Hlog & _ & _); [discriminate |].
  exact (f_equal (fun s => s.1.1.2) Hlog).
Defined.

(** C6, as stated, fails when the body throws: the flag is still false,
    and no effect-run entry (indeed nothing) is emitted. *)
Lemma throwing_effect_emits_nothing_counterexample :
  (effectClosure (runHost [throw (VStr "boom")]) (Some []) "A.tsx:3" "A" (Some []) freshRefs
     world_idle).1.1 = Thrown (VStr "boom")
  ∧ EffectTracker.stateWasSet
      (trackers
         (effectClosure (runHost [throw (VStr "boom")]) (Some []) "A.tsx:3" "A" (Some [])
            freshRefs world_idle).2 !!! 0) = false
  ∧ outputs
      (effectClosure (runHost [throw (VStr "boom")]) (Some []) "A.tsx:3" "A" (Some [])
         freshRefs world_idle).2 = outputs world_idle.
Proof. repeat split. Qed.

Lemma slowPart_slow (location componentName : string) (w w2 : World) :
  hasPerformance w = true → (0 < now w)%Q →
  Number_leb 8 (Number_sub (now w2) (now w)) = true →
  slowPart location componentName w w2
  = [slowEffectEmission location componentName (Number_sub (now w2) (now w))].
Proof.
  intros Hperf Hstart Hslow. unfold slowPart. rewrite Hperf.
  apply Qltb_true in Hstart. by rewrite Hstart, Hslow.
Qed.

(** C7 (as amended). For an effect invocation that starts with the
    clock available and reading more than 0, and whose body returns with a
    measured duration of at least 8 ms (the difference of the two clock
    readings, as the subtraction of doubles gives it), exactly one
    slow-effect entry is emitted, whether or not state was set during the
    body, with that duration rounded to an integer in its text; the
    effect-run entry follows it when no state was set.  A body that only
    works for 12 ms yields exactly one slow-effect entry ("took 12ms") and
    one effect-run entry. *)
Theorem slow_effect_entry (callback : Callback) (deps : option (list Value))
    (location componentName : string) (depNames : option (list string))
    (refs : EffectRefs) (w : World) (cleanup : Value) (w2 : World) :
  hasPerformance w = true → (0 < now w)%Q →
  callback (installTracker (trackerFor location componentName refs deps depNames) w)
  = (Returned cleanup, w2) →
  Number_leb 8 (Number_sub (now w2) (now w)) = true →
  let changedDeps := changedDepsOf refs deps depNames in
  let flag := EffectTracker.stateWasSet (trackers w2 !!! length (trackers w)) in
  let w' := (effectClosure callback deps location componentName depNames refs w).2 in
  let duration := Number_sub (now w2) (now w) in
  logState w'
  = logState (emitAll ([slowEffectEmission location componentName duration]
                         ++ if flag then []
                            else [effectRunEmission location componentName changedDeps]) w2)
  ∧ Emission.type (slowEffectEmission location componentName duration) = SlowEffect
  ∧ Emission.message (slowEffectEmission location componentName duration)
    = "Slow effect: useEffect " +:+ location +:+ " in " +:+ componentName
        +:+ " took " +:+ roundedText duration +:+ "ms"
  ∧ (let quiet :=
       (effectClosure (runHost [busy 12]) deps location componentName depNames refs w).2 in
     logState quiet
     = logState (emitAll [slowEffectEmission location componentName (Finite 12);
                          effectRunEmission location componentName changedDeps]
                   (set_now (now w + 12)%Q w))
     ∧ Emission.message (slowEffectEmission location componentName (Finite 12))
       = "Slow effect: useEffect " +:+ location +:+ " in " +:+ componentName
           +:+ " took 12ms").
Proof.
  intros Hperf Hstart Hbody Hslow changedDeps flag w' duration.
  destruct (effectClosure_returned _ _ _ _ _ _ _ _ _ Hbody) as (w5 & Hrun & _ & _ & Hlog).
  assert (w' = w5) as -> by (subst w'; by rewrite Hrun).
  rewrite slowPart_slow in Hlog by done.
  split; [exact Hlog |]. split; [done |]. split; [done |].
  set (w1 := installTracker (trackerFor location componentName refs deps depNames) w).
  assert (runHost [busy 12] w1 = (Returned VUndefined, set_now (now w1 + 12)%Q w1)) as Hquiet
    by done.
  destruct (effectClosure_returned _ _ _ _ _ _ _ _ _ Hquiet) as (q & Hq & _ & _ & Hqlog).
  cbv zeta. rewrite Hq. cbn [snd].
  split; [| by vm_compute].
  rewrite Hqlog.
  assert (Number_sub (now w + 12) (now w) = Finite 12) as Hdur.
  { rewrite (Number_sub_comp _ _ 12); [by vm_compute | ring]. }
  change (now (set_now (now w1 + 12)%Q w1)) with (now w + 12)%Q in *.
  rewrite slowPart_slow; [| done | done |].
  2:{ change (now (set_now (now w1 + 12)%Q w1)) with (now w + 12)%Q. by rewrite Hdur. }
  change (now (set_now (now w1 + 12)%Q w1)) with (now w + 12)%Q.
  unfold runPart. change (trackers (set_now (now w1 + 12)%Q w1)) with (trackers w1).
  unfold w1 at 1. cbn [installTracker trackers set_effectTracker set_trackers].
  rewrite list_lookup_total_middle by done. cbn [trackerFor EffectTracker.stateWasSet].
  fold changedDeps. rewrite Hdur.
  by apply logState_emitAll.
Qed.

Lemma slow_effect_entry_witness :
  logBuffer
    (effectClosure (runHost [busy 12]) (Some []) "A.tsx:3" "A" (Some []) freshRefs
       world_idle).2
  = [LogEntry.mk "Slow effect: useEffect A.tsx:3 in A took 12ms" (5 + 12) SlowEffect
       "A.tsx:3" "A.tsx:3:A";
     LogEntry.mk "useEffect A.tsx:3 in A ran because it was initially mounted" (5 + 12)
       EffectRun "A.tsx:3" "A.tsx:3:A"].
Proof.
  assert (Number_leb 8 (Number_sub (now (set_now (5 + 12)%Q world_idle)) (now world_idle))
          = true) as Hslow
    by (vm_compute; reflexivity).
  destruct (slow_effect_entry (runHost [busy 12]) (Some []) "A.tsx:3" "A" (Some []) freshRefs
              world_idle VUndefined
              (set_now (now world_idle + 12)%Q
                 (installTracker (trackerFor "A.tsx:3" "A" freshRefs (Some []) (Some []))
                    world_idle))
              eq_refl eq_refl eq_refl Hslow) as (_ & _ & _ & Hquiet & _).
  exact (f_equal (fun s => s.1.1.2) Hquiet).
Defined.

(** C7, as stated, fails in two ways.  Where [performance] is missing, a
    body that works for 12 ms yields no slow-effect entry, only the
    effect-run line; and a body that throws after 12 ms yields nothing. *)
Lemma slow_effect_missed_counterexample :
  outputs
    (effectClosure (runHost [busy 12]) (Some []) "A.tsx:3" "A" (Some []) freshRefs
       world_no_clock).2
  = ([], [], [console_info "useEffect A.tsx:3 in A ran because it was initially mounted"])
  ∧ (effectClosure (runHost [busy 12; throw (VStr "boom")]) (Some []) "A.tsx:3" "A"
       (Some []) freshRefs world_idle).1.1 = Thrown (VStr "boom")
  ∧ now (effectClosure (runHost [busy 12; throw (VStr "boom")]) (Some []) "A.tsx:3" "A"
           (Some []) freshRefs world_idle).2 = (5 + 12)%Q
  ∧ outputs
      (effectClosure (runHost [busy 12; throw (VStr "boom")]) (Some []) "A.tsx:3" "A"
         (Some []) freshRefs world_idle).2 = ([], [], []).
Proof. repeat split. Qed.

(** C10. When the name list is null or the current dependency list is
    undefined, [getChangedDeps] returns null whatever the values are, and
    on every run but the first the effect turns that null into the empty
    list.  So the tracker of such a re-run carries no changed names, and
    both the effect-run entry of the re-run and any state change
    attributed to it give the reason "it re-ran (no deps changed
    detected)", even if the dependency values changed. *)
Theorem unnamed_deps_reason (refs : EffectRefs) (deps : option (list Value))
    (depNames : option (list string)) :
  isInitialRef refs = false →
  depNames = None ∨ deps = None →
  getChangedDeps (prevDepsRef refs) deps depNames = None
  ∧ changedDepsOf refs deps depNames = Some []
  ∧ (∀ (callback : Callback) (location componentName : string) (w : World)
       (cleanup : Value) (w2 : World),
        callback (installTracker (trackerFor location componentName refs deps depNames) w)
        = (Returned cleanup, w2) →
        EffectTracker.stateWasSet (trackers w2 !!! length (trackers w)) = false →
        logState (effectClosure callback deps location componentName depNames refs w).2
        = logState
            (emitAll
               (slowPart location componentName w w2
                  ++ [Emission.mk
                        ("useEffect " +:+ location +:+ " in " +:+ componentName
                           +:+ " ran because it re-ran (no deps changed detected)")
                        EffectRun location (location +:+ ":" +:+ componentName)]) w2))
  ∧ (∀ (location componentName hookName : string) (meta : Meta.t) (w : World),
        let w1 := installTracker (trackerFor location componentName refs deps depNames) w in
        effectTracker w1 = Some (length (trackers w))
        ∧ logState (attributeChange hookName meta (length (trackers w)) w1)
          = logState
              (emit (Emission.mk
                       ("useEffect " +:+ location +:+ " in " +:+ componentName
                          +:+ " changed " +:+ hookName +:+ " " +:+ dquote
                          +:+ Meta.stateName meta +:+ dquote
                          +:+ " because it re-ran (no deps changed detected)")
                       StateChange location (location +:+ ":" +:+ componentName)) w1)).
Proof.
  intros Hinit Hmissing.
  assert (getChangedDeps (prevDepsRef refs) deps depNames = None) as Hnull.
  { apply getChangedDeps_None. destruct Hmissing; auto. }
  assert (changedDepsOf refs deps depNames = Some []) as Hchanged.
  { unfold changedDepsOf. by rewrite Hinit, Hnull. }
  split; [done |]. split; [done |]. split.
  - intros callback location componentName w cleanup w2 Hbody Hflag.
    destruct (effectClosure_returned _ _ _ _ _ _ _ _ _ Hbody) as (w5 & -> & _ & _ & Hlog).
    cbn [snd]. rewrite Hlog. unfold runPart. by rewrite Hflag, Hchanged.
  - intros location componentName hookName meta w w1. split; [done |].
    rewrite attributeChange_logState. subst w1.
    cbn [installTracker trackers set_effectTracker set_trackers].
    rewrite list_lookup_total_middle by done.
    unfold stateChangeEmission, trackerFor.
    cbn [EffectTracker.location EffectTracker.componentName EffectTracker.changedDeps].
    by rewrite Hchanged.
Qed.

Lemma unnamed_deps_reason_witness :
  getChangedDeps (Some [VNum 1]) (Some [VNum 2]) None = None
  ∧ changedDepsOf (mkRefs (Some [VNum 1]) false) (Some [VNum 2]) None = Some [].
Proof.
  destruct (unnamed_deps_reason (mkRefs (Some [VNum 1]) false) (Some [VNum 2]) None)
    as (Hnull & Hchanged & _).
  - reflexivity.
  - left. reflexivity.
  - split; [exact Hnull | exact Hchanged].
Defined.

(** ** The wrapper cache *)

Lemma CachePreserved_same (w w' : World) :
  stateTrackerMap w' = stateTrackerMap w → reducerTrackerMap w' = reducerTrackerMap w →
  CachePreserved w w'.
Proof. intros Hs Hr. split; intros r t; by rewrite ?Hs, ?Hr. Qed.

Lemma CachePreserved_trans (w1 w2 w3 : World) :
  CachePreserved w1 w2 → CachePreserved w2 w3 → CachePreserved w1 w3.
Proof. intros [Hs1 Hr1] [Hs2 Hr2]. split; intros r t H; auto. Qed.

Lemma callStateWrapper_caches (wrapper : nat) (valueOrUpdater : SetStateArg) (w : World) :
  CachePreserved w (callStateWrapper wrapper valueOrUpdater w).2.
Proof.
  apply CachePreserved_same; unfold callStateWrapper;
    destruct (closures w !! wrapper) as [[meta value raw | ? ? ? ?] |]; try done;
    destruct (applyArg valueOrUpdater value) as [newValue | e]; try done;
    destruct (effectTracker w) as [tracker |]; try done;
    destruct (negb (strictEq value newValue)); try done;
    simpl; apply (attributeChange_frame "useState" meta tracker w).
Qed.

Lemma callReducerWrapper_caches (wrapper : nat) (action : Value) (w : World) :
  CachePreserved w (callReducerWrapper wrapper action w).2.
Proof.
  apply CachePreserved_same; unfold callReducerWrapper;
    destruct (closures w !! wrapper) as [[? ? ? | meta reducer state raw] |]; try done;
    destruct (reducer state action) as [nextState | e]; try done;
    destruct (effectTracker w) as [tracker |]; try done;
    destruct (negb (strictEq state nextState)); try done;
    simpl; apply (attributeChange_frame "useReducer" meta tracker w).
Qed.

Lemma runHost_caches (actions : list HostAction) :
  ∀ w, CachePreserved w (runHost actions w).2.
Proof.
  induction actions as [|action rest IH]; intros w; [by apply CachePreserved_same |].
  destruct action; simpl.
  - pose proof (callStateWrapper_caches wrapper valueOrUpdater w) as Hcall.
    destruct (callStateWrapper wrapper valueOrUpdater w) as [[result | e] w1]; [| done].
    eapply CachePreserved_trans; [apply Hcall | apply IH].
  - pose proof (callReducerWrapper_caches wrapper action w) as Hcall.
    destruct (callReducerWrapper wrapper action w) as [[result | e] w1]; [| done].
    eapply CachePreserved_trans; [apply Hcall | apply IH].
  - eapply CachePreserved_trans; [| apply IH]. by apply CachePreserved_same.
  - eapply CachePreserved_trans; [| apply IH]. by apply CachePreserved_same.
  - by apply CachePreserved_same.
Qed.

Lemma effectClosure_caches (callback : Callback) (deps : option (list Value))
    (location componentName : string) (depNames : option (list string))
    (refs : EffectRefs) (w : World) :
  (∀ w0, CachePreserved w0 (callback w0).2) →
  CachePreserved w (effectClosure callback deps location componentName depNames refs w).2.
Proof.
  intros Hcallback. unfold effectClosure.
  set (w1 := installTracker _ w).
  specialize (Hcallback w1).
  destruct (callback w1) as [[cleanup | e] w2]; cbn [snd] in *.
  - eapply CachePreserved_trans; [by apply (CachePreserved_same w w1) |].
    eapply CachePreserved_trans; [apply Hcallback |].
    match goal with |- context [slowEffectDetection ?s ?l ?c ?w0] =>
      pose proof (slowEffectDetection_frame s l c w0) as (_ & _ & _ & _ & Hs4 & Hr4);
      set (w4 := slowEffectDetection s l c w0) in * end.
    match goal with |- context [logNonLoopEffect ?t ?d ?l ?c w4] =>
      pose proof (logNonLoopEffect_frame t d l c w4) as (_ & _ & _ & _ & Hs5 & Hr5) end.
    apply CachePreserved_same; [by rewrite Hs5, Hs4 | by rewrite Hr5, Hr4].
  - eapply CachePreserved_trans; [by apply (CachePreserved_same w w1) |].
    eapply CachePreserved_trans; [apply Hcallback |]. by apply CachePreserved_same.
Qed.

Lemma foldl_caches {A : Type} (pass : A → World → World) (items : list A) :
  (∀ item w, CachePreserved w (pass item w)) →
  ∀ w, CachePreserved w (foldl (fun w item => pass item w) w items).
Proof.
  intros Hpass. induction items as [|item items IH]; intros w; simpl.
  - by apply CachePreserved_same.
  - eapply CachePreserved_trans; [apply Hpass | apply IH].
Qed.

Lemma longTaskPass_caches (task : LongTask.t) (w : World) :
  CachePreserved w (longTaskPass task w).
Proof.
  apply CachePreserved_same; unfold longTaskPass; by destruct (partitionBuffer _ _ _) as [[? ?] ?].
Qed.

Lemma interactionPass_caches (worst : EventTiming.t) (w : World) :
  CachePreserved w (interactionPass worst w).
Proof.
  apply CachePreserved_same; unfold interactionPass;
    by destruct (partitionBuffer _ _ _) as [[? ?] ?].
Qed.

Lemma trackedUseState_caches (useState : InitArg → Value * nat) (initialValue : InitArg)
    (location componentName stateName : string) (w : World) :
  CachePreserved w (__trackedUseState useState initialValue location componentName stateName w).2.
Proof.
  unfold __trackedUseState. destruct (useState initialValue) as [state raw].
  destruct (stateTrackerMap w !! raw) as [tracked |] eqn:Hraw;
    [by apply CachePreserved_same |].
  split; intros r t Hr; cbn; [| done].
  rewrite lookup_insert_ne; [done | congruence].
Qed.

Lemma trackedUseReducer_caches
    (useReducer : (Value → Value → Result Value) → Value → option (Value → Value) → Value * nat)
    (reducer : Value → Value → Result Value) (initialArg : Value) (init : option (Value → Value))
    (location componentName stateName : string) (w : World) :
  CachePreserved w
    (__trackedUseReducer useReducer reducer initialArg init location componentName stateName w).2.
Proof.
  unfold __trackedUseReducer.
  destruct (match init with
            | Some f => useReducer reducer initialArg (Some f)
            | None => useReducer reducer initialArg None
            end) as [state raw].
  destruct (reducerTrackerMap w !! raw) as [tracked |] eqn:Hraw;
    [by apply CachePreserved_same |].
  split; intros r t Hr; cbn; [done |].
  rewrite lookup_insert_ne; [done | congruence].
Qed.

Lemma runOp_caches (op : RuntimeOp) (w : World) : CachePreserved w (runOp op w).
Proof.
  destruct op; cbn [runOp].
  - apply trackedUseState_caches.
  - apply trackedUseReducer_caches.
  - apply effectClosure_caches, runHost_caches.
  - apply runHost_caches.
  - apply (foldl_caches longTaskPass), longTaskPass_caches.
  - unfold initINPObserver_callback.
    apply (foldl_caches
             (fun (group : Z * list EventTiming.t) w =>
                let '(_, entries) := group in
                match entries with
                | first :: rest => interactionPass (worstOf first rest) w
                | [] => w
                end)).
    intros [id [|first rest]] w'; [by apply CachePreserved_same | apply interactionPass_caches].
  - by apply CachePreserved_same.
Qed.

Lemma runOps_caches (ops : list RuntimeOp) (w : World) : CachePreserved w (runOps ops w).
Proof. apply (foldl_caches runOp), runOp_caches. Qed.

Lemma trackedUseState_result (useState : InitArg → Value * nat) (initialValue : InitArg)
    (location componentName stateName : string) (w : World) :
  let call := __trackedUseState useState initialValue location componentName stateName w in
  let raw := (useState initialValue).2 in
  (∃ tracked, stateTrackerMap call.2 !! raw = Some tracked
              ∧ call.1.2 = Tracked.wrapper tracked)
  ∧ match stateTrackerMap w !! raw with
    | Some tracked => call.2 = w ∧ call.1.2 = Tracked.wrapper tracked
    | None =>
        closures call.2
        = closures w
            ++ [StateWrapper (Meta.mk location componentName stateName)
                  (match initialValue with InitFunction f => f () | InitValue v => v end) raw]
        ∧ call.1.2 = length (closures w)
    end.
Proof.
  unfold __trackedUseState. destruct (useState initialValue) as [state raw]. cbn [snd].
  destruct (stateTrackerMap w !! raw) as [tracked |] eqn:Hraw; cbn [fst snd].
  - split; [by exists tracked | done].
  - split; [| done]. eexists. split; [apply lookup_insert_eq | done].
Qed.

Lemma trackedUseReducer_result
    (useReducer : (Value → Value → Result Value) → Value → option (Value → Value) → Value * nat)
    (reducer : Value → Value → Result Value) (initialArg : Value) (init : option (Value → Value))
    (location componentName stateName : string) (w : World) :
  let call :=
    __trackedUseReducer useReducer reducer initialArg init location componentName stateName w in
  let host := useReducer reducer initialArg init in
  (∃ tracked, reducerTrackerMap call.2 !! host.2 = Some tracked
              ∧ call.1.2 = Tracked.wrapper tracked)
  ∧ match reducerTrackerMap w !! host.2 with
    | Some tracked => call.2 = w ∧ call.1.2 = Tracked.wrapper tracked
    | None =>
        closures call.2
        = closures w
            ++ [ReducerWrapper (Meta.mk location componentName stateName) reducer host.1 host.2]
        ∧ call.1.2 = length (closures w)
    end.
Proof.
  unfold __trackedUseReducer.
  assert (match init with
          | Some f => useReducer reducer initialArg (Some f)
          | None => useReducer reducer initialArg None
          end = useReducer reducer initialArg init) as -> by (by destruct init).
  destruct (useReducer reducer initialArg init) as [state raw]. cbn [fst snd].
  destruct (reducerTrackerMap w !! raw) as [tracked |] eqn:Hraw; cbn [fst snd].
  - split; [by exists tracked | done].
  - split; [| done]. eexists. split; [apply lookup_insert_eq | done].
Qed.

(** C8. The first call of [__trackedUseState] that sees a raw setter
    builds exactly one wrapper for it and caches it; whatever the page
    does afterwards (hook calls, effects, host code, timing signals, the
    timer), a later call that sees the same raw setter returns that very
    wrapper and changes nothing, so the wrapper is not rebuilt.  The same
    holds for [__trackedUseReducer] and raw dispatch functions. *)
Theorem wrapper_cache_idempotent (w : World) (ops : list RuntimeOp) :
  (∀ (useState useState' : InitArg → Value * nat) (initialValue initialValue' : InitArg)
     (location componentName stateName location' componentName' stateName' : string),
      (useState' initialValue').2 = (useState initialValue).2 →
      let first := __trackedUseState useState initialValue location componentName stateName w in
      let w2 := runOps ops first.2 in
      let later :=
        __trackedUseState useState' initialValue' location' componentName' stateName' w2 in
      later.1.2 = first.1.2
      ∧ later.2 = w2
      ∧ match stateTrackerMap w !! (useState initialValue).2 with
        | Some tracked => first.2 = w ∧ first.1.2 = Tracked.wrapper tracked
        | None =>
            closures first.2
            = closures w
                ++ [StateWrapper (Meta.mk location componentName stateName)
                      (match initialValue with InitFunction f => f () | InitValue v => v end)
                      (useState initialValue).2]
            ∧ first.1.2 = length (closures w)
        end)
  ∧ (∀ (useReducer useReducer' :
          (Value → Value → Result Value) → Value → option (Value → Value) → Value * nat)
       (reducer reducer' : Value → Value → Result Value) (initialArg initialArg' : Value)
       (init init' : option (Value → Value))
       (location componentName stateName location' componentName' stateName' : string),
      (useReducer' reducer' initialArg' init').2 = (useReducer reducer initialArg init).2 →
      let first :=
        __trackedUseReducer useReducer reducer initialArg init location componentName stateName
          w in
      let w2 := runOps ops first.2 in
      let later :=
        __trackedUseReducer useReducer' reducer' initialArg' init' location' componentName'
          stateName' w2 in
      later.1.2 = first.1.2
      ∧ later.2 = w2
      ∧ match reducerTrackerMap w !! (useReducer reducer initialArg init).2 with
        | Some tracked => first.2 = w ∧ first.1.2 = Tracked.wrapper tracked
        | None =>
            closures first.2
            = closures w
                ++ [ReducerWrapper (Meta.mk location componentName stateName) reducer
                      (useReducer reducer initialArg init).1
                      (useReducer reducer initialArg init).2]
            ∧ first.1.2 = length (closures w)
        end).
Proof.
  split.
  - intros useState useState' initialValue initialValue' location componentName stateName
      location' componentName' stateName' Hsame first w2 later.
    destruct (trackedUseState_result useState initialValue location componentName stateName w)
      as ((tracked & Hcached & Hwrapper) & Hfirst).
    fold first in Hcached, Hwrapper, Hfirst.
    split; [| split; [| exact Hfirst]].
    + apply (runOps_caches ops first.2) in Hcached. fold w2 in Hcached.
      destruct (trackedUseState_result useState' initialValue' location' componentName'
                  stateName' w2) as (_ & Hlater).
      fold later in Hlater. rewrite Hsame, Hcached in Hlater.
      destruct Hlater as [_ ->]. by rewrite Hwrapper.
    + apply (runOps_caches ops first.2) in Hcached. fold w2 in Hcached.
      destruct (trackedUseState_result useState' initialValue' location' componentName'
                  stateName' w2) as (_ & Hlater).
      fold later in Hlater. rewrite Hsame, Hcached in Hlater. by destruct Hlater.
  - intros useReducer useReducer' reducer reducer' initialArg initialArg' init init'
      location componentName stateName location' componentName' stateName' Hsame first w2 later.
    destruct (trackedUseReducer_result useReducer reducer initialArg init location componentName
                stateName w) as ((tracked & Hcached & Hwrapper) & Hfirst).
    fold first in Hcached, Hwrapper, Hfirst.
    split; [| split; [| exact Hfirst]].
    + apply (runOps_caches ops first.2) in Hcached. fold w2 in Hcached.
      destruct (trackedUseReducer_result useReducer' reducer' initialArg' init' location'
                  componentName' stateName' w2) as (_ & Hlater).
      fold later in Hlater. rewrite Hsame, Hcached in Hlater.
      destruct Hlater as [_ ->]. by rewrite Hwrapper.
    + apply (runOps_caches ops first.2) in Hcached. fold w2 in Hcached.
      destruct (trackedUseReducer_result useReducer' reducer' initialArg' init' location'
                  componentName' stateName' w2) as (_ & Hlater).
      fold later in Hlater. rewrite Hsame, Hcached in Hlater. by destruct Hlater.
Qed.

Lemma wrapper_cache_idempotent_witness :
  (__trackedUseState (fun _ => (VNum 3, 11)) (InitValue (VNum 0)) "App.tsx:3" "App" "a"
     (runOps sample_ops
        (__trackedUseState (fun _ => (VNum 0, 11)) (InitValue (VNum 0)) "App.tsx:3" "App" "a"
           world_idle).2)).1.2
  = (__trackedUseState (fun _ => (VNum 0, 11)) (InitValue (VNum 0)) "App.tsx:3" "App" "a"
       world_idle).1.2.
Proof.
  destruct (wrapper_cache_idempotent world_idle sample_ops) as [Hstate _].
  destruct (Hstate (fun _ => (VNum 0, 11)) (fun _ => (VNum 3, 11))
              (InitValue (VNum 0)) (InitValue (VNum 0))
              "App.tsx:3" "App" "a" "App.tsx:3" "App" "a") as (Hsame & _).
  - reflexivity.
  - exact Hsame.
Defined.

(** ** The scenarios of the repository's tests *)

(** On the buffered path [log] is a push followed by [scheduleFlush]. *)
Lemma log_buffered (message : string) (type : EntryType) (location countKey : string)
    (w : World) :
  effectTrackerLogger w = false → hasPerformance w = true →
  log message type location countKey w
  = scheduleFlush
      (runBufferOp (buf_push (LogEntry.mk message (now w) type location countKey)) w).
Proof. intros Hlogger Hperf. unfold log. by rewrite Hlogger, Hperf. Qed.

(** "groups buffered logs under a Long Task console.group" *)
Example long_task_groups_two_changes :
  console (runOps (render_two_setters ++ [op_longtask [LongTask.mk 4 11]]) world_idle)
  = [console_groupCollapsed "Long Task (11ms) — 2 effect→setState";
     console_log ("[state-change] 1/2 " +:+ mountChangeMessage "a");
     console_log ("[state-change] 2/2 " +:+ mountChangeMessage "b");
     console_groupEnd].
Proof. vm_compute. reflexivity. Qed.

(** "coalesces multiple events with same interactionId using worst duration" *)
Example interaction_uses_worst_duration :
  console (runOps (render_two_setters
                     ++ [op_event [EventTiming.mk 0 250 4 6 (Some 7%Z) "pointerdown" "event";
                                   EventTiming.mk 1 320 4 6 (Some 7%Z) "click" "event"]])
             world_idle)
  = [console_groupCollapsed "Slow Interaction: click (320ms) — 2 effect→setState";
     console_log ("[state-change] 1/2 " +:+ mountChangeMessage "a");
     console_log ("[state-change] 2/2 " +:+ mountChangeMessage "b");
     console_groupEnd].
Proof. vm_compute. reflexivity. Qed.

(** "skips events with interactionId 0" *)
Example interaction_zero_is_skipped :
  runOps (render_two_setters
            ++ [op_event [EventTiming.mk 0 320 4 6 (Some 0%Z) "mousemove" "event"]])
    world_idle
  = runOps render_two_setters world_idle.
Proof. vm_compute. reflexivity. Qed.

(** "does not flush effect-run entries individually" *)
Example timer_skips_effect_run :
  console (runOps [op_effect useEffect [] (Some []) "App.tsx:3" "App" (Some []) freshRefs;
                   op_timer] world_idle) = []
  ∧ logBuffer (runOps [op_effect useEffect [] (Some []) "App.tsx:3" "App" (Some []) freshRefs;
                       op_timer] world_idle) = [].
Proof. split; vm_compute; reflexivity. Qed.

(** "tracks multiple state updates from a single effect", with the custom logger *)
Example logger_receives_both_changes :
  loggerReceived (runOps render_two_setters world_with_logger)
  = [mountChangeMessage "a"; mountChangeMessage "b"]
  ∧ logBuffer (runOps render_two_setters world_with_logger) = [].
Proof. split; vm_compute; reflexivity. Qed.

(** ** Arithmetic on doubles

    The clock readings 52.6 and 155.1, 1.1 and 9.1, and the long task of
    126.8 ms starting at 5503.8 are cases where the result in doubles is
    not the exact result. *)

(** On these inputs the rounding agrees with the addition and the
    subtraction of the Standard Library's specification of IEEE 754. *)
Example arithmetic_agrees_with_IEEE :
  nearestDouble (literal (1551 # 10) - literal (526 # 10))
  = SpecFloat.SFsub 53 1024 (nearestDouble (1551 # 10)) (nearestDouble (526 # 10))
  ∧ nearestDouble (literal (91 # 10) - literal (11 # 10))
    = SpecFloat.SFsub 53 1024 (nearestDouble (91 # 10)) (nearestDouble (11 # 10))
  ∧ nearestDouble (literal (55038 # 10) + literal (1268 # 10))
    = SpecFloat.SFadd 53 1024 (nearestDouble (55038 # 10)) (nearestDouble (1268 # 10))
  ∧ Number_add (inject_Z (2 ^ 1023)) (inject_Z (2 ^ 1023)) = PlusInfinity.
Proof. repeat split; vm_compute; reflexivity. Qed.

(** The differences are 102.5 and 8 where the exact ones are a little
    less, and the sum is the double 5630.6 where the exact one is a
    little less. *)
Example double_results :
  Number_sub (literal (1551 # 10)) (literal (526 # 10)) = Finite (205 # 2)
  ∧ (literal (1551 # 10) - literal (526 # 10) < 205 # 2)%Q
  ∧ Number_sub (literal (91 # 10)) (literal (11 # 10)) = Finite 8
  ∧ (literal (91 # 10) - literal (11 # 10) < 8)%Q
  ∧ Number_add (literal (55038 # 10)) (literal (1268 # 10)) = Finite (literal (56306 # 10))
  ∧ (literal (55038 # 10) + literal (1268 # 10) < literal (56306 # 10))%Q.
Proof. repeat split; vm_compute; reflexivity. Qed.

(** An effect that starts at 52.6 and ends at 155.1 is reported with 103 ms. *)
Example slow_effect_rounds_the_double_difference :
  logBuffer
    (effectClosure (runHost [busy (literal (1551 # 10) - literal (526 # 10))]) (Some [])
       "A.tsx:3" "A" (Some []) freshRefs (set_now (literal (526 # 10)) world_idle)).2
  = [LogEntry.mk "Slow effect: useEffect A.tsx:3 in A took 103ms"
       (literal (526 # 10) + (literal (1551 # 10) - literal (526 # 10))) SlowEffect
       "A.tsx:3" "A.tsx:3:A";
     LogEntry.mk "useEffect A.tsx:3 in A ran because it was initially mounted"
       (literal (526 # 10) + (literal (1551 # 10) - literal (526 # 10))) EffectRun
       "A.tsx:3" "A.tsx:3:A"].
Proof. vm_compute. reflexivity. Qed.

(** An effect that starts at 1.1 and ends at 9.1 is measured at 8 ms and
    is reported as slow. *)
Example slow_effect_at_the_threshold :
  Emission.message <$>
    slowPart "A.tsx:3" "A" (set_now (literal (11 # 10)) world_idle)
      (set_now (literal (91 # 10)) world_idle)
  = ["Slow effect: useEffect A.tsx:3 in A took 8ms"].
Proof. vm_compute. reflexivity. Qed.

(** An entry stamped 5630.6 lies within the long task that starts at
    5503.8 and lasts 126.8 ms: it is grouped, not kept. *)
Example long_task_end_is_a_double_sum :
  longTaskPass (LongTask.mk (literal (55038 # 10)) (literal (1268 # 10)))
    (set_logBuffer
       [LogEntry.mk "useEffect A.tsx:3 in A ran because it was initially mounted"
          (literal (56306 # 10)) EffectRun "A.tsx:3" "A.tsx:3:A"] world_idle)
  = set_console
      [console_groupCollapsed "Long Task (127ms) — 1 other effects";
       console_info
         "[effect-run] useEffect A.tsx:3 in A ran because it was initially mounted";
       console_groupEnd] world_idle.
Proof. vm_compute. reflexivity. Qed.

(** * Further properties of the runtime *)

(** ** [log] on its three paths *)

Lemma emit_buffered_fields (e : Emission.t) (w : World) :
  effectTrackerLogger w = false → hasPerformance w = true →
  let w' := emit e w in
  effectTrackerLogger w' = false ∧ hasPerformance w' = true ∧ now w' = now w
  ∧ logBuffer w' = logBuffer w ++ [entryAt (now w) e]
  ∧ flushTimer w' = Some (default (now w + 100)%Q (flushTimer w))
  ∧ console w' = console w ∧ loggerReceived w' = loggerReceived w.
Proof.
  intros Hlogger Hperf. unfold emit, log, scheduleFlush. rewrite Hlogger, Hperf. simpl.
  destruct (flushTimer w) eqn:Htimer; simpl; by rewrite ?Htimer.
Qed.

(** X1. On the buffered path (no custom logger, [performance] present) a
    run of emissions appends its entries to the buffer in emission order,
    each stamped with the clock, prints nothing, and leaves one timer
    pending: the one that was pending already, or else a timer due 100 ms
    after the first emission. The timer is never re-armed while pending. *)
Theorem log_buffers_and_arms_once (es : list Emission.t) (w : World) :
  effectTrackerLogger w = false → hasPerformance w = true →
  logBuffer (emitAll es w) = logBuffer w ++ map (entryAt (now w)) es
  ∧ flushTimer (emitAll es w)
    = match es with
      | [] => flushTimer w
      | _ :: _ => Some (default (now w + 100)%Q (flushTimer w))
      end
  ∧ console (emitAll es w) = console w
  ∧ loggerReceived (emitAll es w) = loggerReceived w.
Proof.
  revert w. induction es as [|e es IH]; intros w Hlogger Hperf.
  - simpl. by rewrite app_nil_r.
  - destruct (emit_buffered_fields e w Hlogger Hperf)
      as (Hl & Hp & Hnow & Hbuf & Htimer & Hcon & Hrec).
    destruct (IH (emit e w) Hl Hp) as (IHbuf & IHtimer & IHcon & IHrec).
    change (emitAll (e :: es) w) with (emitAll es (emit e w)).
    rewrite IHbuf, IHcon, IHrec, IHtimer, Hbuf, Hnow, Hcon, Hrec, Htimer.
    split; [by rewrite <- app_assoc |]. split; [by destruct es |]. done.
Qed.

Lemma log_buffers_and_arms_once_witness :
  flushTimer (emitAll [effectRunEmission "A.tsx:3" "A" None;
                       effectRunEmission "B.tsx:9" "B" None] world_idle)
  = Some (5 + 100)%Q.
Proof.
  destruct (log_buffers_and_arms_once
              [effectRunEmission "A.tsx:3" "A" None; effectRunEmission "B.tsx:9" "B" None]
              world_idle eq_refl eq_refl) as (_ & Htimer & _).
  exact Htimer.
Defined.

(** X2. With a custom logger installed every emission is handed to the
    logger at once, in emission order and as its bare message; the buffer,
    the timer and the console are not touched. *)
Theorem log_custom_logger_bypasses (es : list Emission.t) (w : World) :
  effectTrackerLogger w = true →
  loggerReceived (emitAll es w) = loggerReceived w ++ map Emission.message es
  ∧ logBuffer (emitAll es w) = logBuffer w
  ∧ flushTimer (emitAll es w) = flushTimer w
  ∧ console (emitAll es w) = console w.
Proof.
  revert w. induction es as [|e es IH]; intros w Hlogger.
  - simpl. by rewrite app_nil_r.
  - change (emitAll (e :: es) w) with (emitAll es (emit e w)).
    assert (emit e w = set_loggerReceived (loggerReceived w ++ [Emission.message e]) w) as ->
      by (unfold emit, log; by rewrite Hlogger).
    destruct (IH (set_loggerReceived (loggerReceived w ++ [Emission.message e]) w) Hlogger)
      as (-> & -> & -> & ->).
    simpl. by rewrite <- app_assoc.
Qed.

Lemma log_custom_logger_bypasses_witness :
  loggerReceived (emitAll [effectRunEmission "A.tsx:3" "A" None] world_with_logger)
  = ["useEffect A.tsx:3 in A ran because it was initially mounted"].
Proof.
  destruct (log_custom_logger_bypasses [effectRunEmission "A.tsx:3" "A" None]
              world_with_logger eq_refl) as (Hrec & _).
  exact Hrec.
Defined.

(** X3. Without a custom logger and without [performance] every emission
    is printed at once on the channel of its type, as its bare message
    with no tag and no ordinal; nothing is buffered and no timer is set. *)
Theorem log_without_clock_prints_now (es : list Emission.t) (w : World) :
  effectTrackerLogger w = false → hasPerformance w = false →
  console (emitAll es w) = console w ++ map printedNow es
  ∧ logBuffer (emitAll es w) = logBuffer w
  ∧ flushTimer (emitAll es w) = flushTimer w
  ∧ loggerReceived (emitAll es w) = loggerReceived w.
Proof.
  revert w. induction es as [|e es IH]; intros w Hlogger Hperf.
  - simpl. by rewrite app_nil_r.
  - change (emitAll (e :: es) w) with (emitAll es (emit e w)).
    assert (emit e w = set_console (console w ++ [printedNow e]) w) as ->
      by (unfold emit, log; by rewrite Hlogger, Hperf).
    destruct (IH (set_console (console w ++ [printedNow e]) w) Hlogger Hperf)
      as (-> & -> & -> & ->).
    simpl. by rewrite <- app_assoc.
Qed.

Lemma log_without_clock_prints_now_witness :
  console (emitAll [slowEffectEmission "A.tsx:3" "A" (Finite 12)] world_no_clock)
  = [console_warn "Slow effect: useEffect A.tsx:3 in A took 12ms"].
Proof.
  destruct (log_without_clock_prints_now [slowEffectEmission "A.tsx:3" "A" (Finite 12)]
              world_no_clock eq_refl eq_refl) as (Hcon & _).
  exact Hcon.
Defined.

(** X4. When the flush timer fires the buffer is emptied and the timer
    slot cleared, so firing again changes nothing; the next emission on
    the buffered path starts a new buffer and arms a new timer. *)
Theorem flush_timer_cycle (w : World) (e : Emission.t) :
  effectTrackerLogger w = false → hasPerformance w = true →
  let fired := flushTimer_callback w in
  logBuffer fired = [] ∧ flushTimer fired = None
  ∧ console fired = console w ++ printEntries (List.filter notEffectRun (logBuffer w))
  ∧ flushTimer_callback fired = fired
  ∧ logBuffer (emit e fired) = [entryAt (now w) e]
  ∧ flushTimer (emit e fired) = Some (now w + 100)%Q.
Proof.
  intros Hlogger Hperf fired.
  split; [done |]. split; [done |]. split; [done |].
  split.
  { subst fired. unfold flushTimer_callback, flushBuffer. destruct w. simpl.
    by rewrite app_nil_r. }
  destruct (emit_buffered_fields e fired Hlogger Hperf) as (_ & _ & _ & Hbuf & Htimer & _).
  split; [exact Hbuf | exact Htimer].
Qed.

Lemma flush_timer_cycle_witness :
  flushTimer (emit (effectRunEmission "A.tsx:3" "A" None)
                (flushTimer_callback world_one_effect_run)) = Some (2 + 100)%Q.
Proof.
  destruct (flush_timer_cycle world_one_effect_run (effectRunEmission "A.tsx:3" "A" None)
              eq_refl eq_refl) as (_ & _ & _ & _ & _ & Htimer).
  exact Htimer.
Defined.

(** ** The ordinals of the formatter *)

Lemma keyCount_cons (key : string) (entry : LogEntry.t) (entries : list LogEntry.t) :
  keyCount key (entry :: entries)
  = (if decide (LogEntry.countKey entry = key) then 1 else 0) + keyCount key entries.
Proof. unfold keyCount. rewrite filter_cons. by destruct (decide _). Qed.

Lemma countOf_insert (m : gmap string nat) (a key : string) (v : nat) :
  countOf (<[a := v]> m) key = if decide (a = key) then v else countOf m key.
Proof. unfold countOf. rewrite lookup_insert. by destruct (decide _). Qed.

Lemma countTotals_fold (entries : list LogEntry.t) :
  ∀ (m : gmap string nat) (key : string),
    countOf
      (foldl (fun totals entry =>
                <[LogEntry.countKey entry := countOf totals (LogEntry.countKey entry) + 1]>
                  totals) m entries) key
    = countOf m key + keyCount key entries.
Proof.
  induction entries as [|entry rest IH]; intros m key; simpl.
  - unfold keyCount. simpl. lia.
  - rewrite IH, countOf_insert, keyCount_cons.
    destruct (decide (LogEntry.countKey entry = key)) as [-> |]; lia.
Qed.

Lemma countTotals_count (entries : list LogEntry.t) (key : string) :
  countOf (countTotals entries) key = keyCount key entries.
Proof. unfold countTotals. rewrite countTotals_fold. unfold countOf. by rewrite lookup_empty. Qed.

Lemma total_of_count (totals : gmap string nat) (key : string) :
  1 ≤ countOf totals key →
  match totals !! key with
  | Some n => if bool_decide (n = 0) then 1 else n
  | None => 1
  end = countOf totals key.
Proof.
  unfold countOf. destruct (totals !! key) as [n |]; simpl; [| lia].
  intros Hn. by rewrite bool_decide_eq_false_2 by lia.
Qed.

Lemma printLoop_lookup (totals : gmap string nat) (entries : list LogEntry.t) :
  ∀ (current : gmap string nat) (i : nat) (entry : LogEntry.t),
    entries !! i = Some entry →
    1 ≤ countOf totals (LogEntry.countKey entry) →
    printLoop totals current entries !! i
    = Some (printSingle (LogEntry.type entry)
              ("[" +:+ typeName (LogEntry.type entry) +:+ "]"
                 +:+ ordinal (countOf current (LogEntry.countKey entry)
                              + keyCount (LogEntry.countKey entry) (take (S i) entries))
                       (countOf totals (LogEntry.countKey entry))
                 +:+ " " +:+ LogEntry.message entry)).
Proof.
  induction entries as [|first rest IH]; intros current i entry Hi Htotal; [done |].
  destruct i as [|i].
  - injection Hi as ->. cbn [printLoop lookup list_lookup].
    rewrite (total_of_count totals _ Htotal).
    change (take 1 (entry :: rest)) with [entry].
    rewrite keyCount_cons, decide_True by done.
    unfold ordinal, keyCount. simpl. done.
  - cbn [printLoop lookup list_lookup]. simpl in Hi.
    rewrite (IH _ i entry Hi Htotal). do 5 f_equal.
    rewrite countOf_insert. change (take (S (S i)) (first :: rest)) with (first :: take (S i) rest).
    rewrite keyCount_cons.
    destruct (decide (LogEntry.countKey first = LogEntry.countKey entry)) as [-> |];
      do 2 f_equal; lia.
Qed.

(** X5. The line that [printEntries] prints for the entry at position i
    of a batch is the entry's tag, then (only when several entries of the
    batch share its group key) the ordinal k/n where n counts the entries
    of the batch with that key and k those among the first i+1, then the
    message; and the batch yields one line per entry. *)
Theorem printEntries_ordinals (entries : list LogEntry.t) (i : nat) (entry : LogEntry.t) :
  entries !! i = Some entry →
  printEntries entries !! i = Some (lineAt entries i entry)
  ∧ length (printEntries entries) = length entries
  ∧ 1 ≤ keyCount (LogEntry.countKey entry) (take (S i) entries)
      ≤ keyCount (LogEntry.countKey entry) entries.
Proof.
  intros Hi.
  assert (1 ≤ keyCount (LogEntry.countKey entry) (take (S i) entries)) as Hidx.
  { rewrite (take_S_r entries i entry Hi). unfold keyCount.
    rewrite filter_app, length_app, filter_cons_True by done. simpl. lia. }
  assert (keyCount (LogEntry.countKey entry) (take (S i) entries)
          ≤ keyCount (LogEntry.countKey entry) entries) as Hle.
  { rewrite <- (take_drop (S i) entries) at 2. unfold keyCount.
    rewrite filter_app, length_app. lia. }
  split; [| split; [apply printEntries_length | done]].
  unfold printEntries, lineAt.
  rewrite (printLoop_lookup _ _ ∅ i entry Hi) by (rewrite countTotals_count; lia).
  rewrite countTotals_count. unfold countOf at 1. by rewrite lookup_empty.
Qed.

Lemma printEntries_ordinals_witness :
  printEntries [LogEntry.mk "m1" 1 StateChange "L" "L:C"; LogEntry.mk "m2" 2 EffectRun "M" "M:C";
                LogEntry.mk "m3" 3 StateChange "L" "L:C"] !! 2
  = Some (console_log "[state-change] 2/2 m3").
Proof.
  destruct (printEntries_ordinals
              [LogEntry.mk "m1" 1 StateChange "L" "L:C"; LogEntry.mk "m2" 2 EffectRun "M" "M:C";
               LogEntry.mk "m3" 3 StateChange "L" "L:C"] 2
              (LogEntry.mk "m3" 3 StateChange "L" "L:C") eq_refl) as (Hline & _).
  exact Hline.
Defined.

(** ** Replaying and retaining *)

Lemma List_filter_none {A : Type} (f g : A → bool) (l : list A) :
  (∀ x, g x = true → f x = false) → List.filter f (List.filter g l) = [].
Proof.
  intros H. induction l as [|x l IH]; simpl; [done |].
  destruct (g x) eqn:Hg; simpl; [| done]. by rewrite (H x Hg).
Qed.

Lemma List_filter_idem {A : Type} (g : A → bool) (l : list A) :
  List.filter g (List.filter g l) = List.filter g l.
Proof.
  induction l as [|x l IH]; simpl; [done |].
  destruct (g x) eqn:Hg; simpl; [| done]. by rewrite Hg, IH.
Qed.

Lemma List_filter_sublist {A : Type} (g : A → bool) (l : list A) :
  List.filter g l `sublist_of` l.
Proof.
  induction l as [|x l IH]; simpl; [constructor |].
  destruct (g x); by constructor.
Qed.

Lemma afterWindow_again (windowStart : Q) (windowEnd : Number) (buffer : list LogEntry.t) :
  partitionBuffer windowStart windowEnd (afterWindow windowStart windowEnd buffer)
  = ([], [], afterWindow windowStart windowEnd buffer).
Proof.
  rewrite partitionBuffer_spec. unfold beforeWindow, duringWindow, afterWindow.
  rewrite List_filter_idem.
  rewrite !List_filter_none; [done | |].
  - intros x [Hx1 Hx2]%andb_true_iff. apply negb_true_iff in Hx2.
    by rewrite Hx2, andb_false_r.
  - intros x [Hx1 Hx2]%andb_true_iff. by apply negb_true_iff in Hx1.
Qed.

Lemma pass_fixpoint (w : World) :
  set_logBuffer (logBuffer w) (set_console (console w ++ [] ++ []) w) = w.
Proof. destruct w. unfold set_logBuffer, set_console. simpl. by rewrite app_nil_r. Qed.

(** X6. A timing signal that is delivered again changes nothing: after a
    long-task pass (or an interaction pass) the same window finds no entry
    before or inside it, prints nothing and keeps the buffer. *)
Theorem window_replay_is_noop (w : World) (task : LongTask.t) (worst : EventTiming.t) :
  longTaskPass task (longTaskPass task w) = longTaskPass task w
  ∧ interactionPass worst (interactionPass worst w) = interactionPass worst w.
Proof.
  split.
  - unfold longTaskPass at 1. rewrite longTaskPass_logBuffer, afterWindow_again.
    rewrite <- (longTaskPass_logBuffer task w). apply pass_fixpoint.
  - unfold interactionPass at 1. rewrite interactionPass_logBuffer, afterWindow_again.
    rewrite <- (interactionPass_logBuffer worst w). apply pass_fixpoint.
Qed.

Lemma afterWindow_elem (windowStart : Q) (windowEnd : Number) (buffer : list LogEntry.t)
    (entry : LogEntry.t) :
  entry ∈ afterWindow windowStart windowEnd buffer
  ↔ entry ∈ buffer ∧ (windowStart <= LogEntry.time entry)%Q
      ∧ match windowEnd with
        | Finite windowEnd => (windowEnd < LogEntry.time entry)%Q
        | PlusInfinity => False
        | MinusInfinity | NotANumber => True
        end.
Proof.
  unfold afterWindow. rewrite list_elem_of_In, filter_In, <- list_elem_of_In.
  rewrite andb_true_iff, !negb_true_iff, Qltb_false.
  assert (Number_leb (LogEntry.time entry) windowEnd = false
          ↔ match windowEnd with
            | Finite windowEnd => (windowEnd < LogEntry.time entry)%Q
            | PlusInfinity => False
            | MinusInfinity | NotANumber => True
            end) as ->; [| done].
  destruct windowEnd as [q | | |]; cbn [Number_leb]; [| done ..].
  rewrite <- Qltb_true. unfold Qltb. by rewrite negb_true_iff.
Qed.

(** X7. What a pass keeps for the next signal are exactly the entries
    stamped later than the window end and not earlier than its start, in
    their buffer order; an entry on either boundary of the window is never
    kept. The end of the long-task window is the sum of the start and the
    duration as the addition of doubles gives it (when that sum is plus
    infinity nothing is kept); the interaction window is
    [processingStart, processingEnd]. *)
Theorem pass_keeps_later_entries (w : World) (task : LongTask.t) (worst : EventTiming.t)
    (entry : LogEntry.t) :
  (entry ∈ logBuffer (longTaskPass task w)
   ↔ entry ∈ logBuffer w
     ∧ (LongTask.startTime task <= LogEntry.time entry)%Q
     ∧ match Number_add (LongTask.startTime task) (LongTask.duration task) with
       | Finite taskEnd => (taskEnd < LogEntry.time entry)%Q
       | PlusInfinity => False
       | MinusInfinity | NotANumber => True
       end)
  ∧ (entry ∈ logBuffer (interactionPass worst w)
     ↔ entry ∈ logBuffer w
       ∧ (EventTiming.processingStart worst <= LogEntry.time entry)%Q
       ∧ (EventTiming.processingEnd worst < LogEntry.time entry)%Q)
  ∧ logBuffer (longTaskPass task w) `sublist_of` logBuffer w
  ∧ logBuffer (interactionPass worst w) `sublist_of` logBuffer w.
Proof.
  rewrite longTaskPass_logBuffer, interactionPass_logBuffer.
  split; [apply afterWindow_elem |].
  split; [apply (afterWindow_elem _ (Finite _)) |].
  split; apply List_filter_sublist.
Qed.

(** ** Console groups *)

Lemma groupsClosed_app (a b : list ConsoleCall) :
  ∀ open, groupsClosed open a = true → groupsClosed open (a ++ b) = groupsClosed false b.
Proof.
  induction a as [|call a IH]; intros open Ha; simpl in *.
  - by destruct open.
  - destruct call; try (by apply IH).
    + apply andb_true_iff in Ha as [-> Ha]. simpl. by apply IH.
    + apply andb_true_iff in Ha as [-> Ha]. simpl. by apply IH.
Qed.

Lemma groupsClosed_printEntries (entries : list LogEntry.t) (rest : list ConsoleCall) :
  ∀ open, groupsClosed open (printEntries entries ++ rest) = groupsClosed open rest.
Proof.
  pose proof (printEntries_each entries) as H.
  induction H as [|entry call es cs [count ->] _ IH]; intros open; [done |].
  simpl. destruct (LogEntry.type entry); apply IH.
Qed.

Lemma groupsClosed_printGroup (header : string) (during : list LogEntry.t) :
  groupsClosed false (printGroup header during) = true.
Proof.
  destruct during as [|entry rest]; [done |].
  unfold printGroup. cbn [app groupsClosed negb andb].
  by rewrite groupsClosed_printEntries.
Qed.

Lemma ConsoleGrows_same (w w' : World) : console w' = console w → ConsoleGrows w w'.
Proof. intros H. exists []. by rewrite app_nil_r. Qed.

Lemma ConsoleGrows_trans (w1 w2 w3 : World) :
  ConsoleGrows w1 w2 → ConsoleGrows w2 w3 → ConsoleGrows w1 w3.
Proof.
  intros (out1 & H1 & Hc1) (out2 & H2 & Hc2). exists (out1 ++ out2).
  split; [by rewrite H2, H1, app_assoc |]. by rewrite (groupsClosed_app _ _ _ Hc1).
Qed.

Lemma ConsoleGrows_log (message : string) (type : EntryType) (location countKey : string)
    (w : World) :
  ConsoleGrows w (log message type location countKey w).
Proof.
  unfold log, scheduleFlush. destruct (effectTrackerLogger w); [by apply ConsoleGrows_same |].
  destruct (hasPerformance w).
  - simpl. destruct (flushTimer w); by apply ConsoleGrows_same.
  - exists [printSingle type message]. split; [done |]. by destruct type.
Qed.

Lemma ConsoleGrows_attributeChange (hookName : string) (meta : Meta.t) (tracker : nat)
    (w : World) :
  ConsoleGrows w (attributeChange hookName meta tracker w).
Proof.
  unfold attributeChange.
  eapply ConsoleGrows_trans; [| apply ConsoleGrows_log]. by apply ConsoleGrows_same.
Qed.

Lemma ConsoleGrows_callStateWrapper (wrapper : nat) (valueOrUpdater : SetStateArg)
    (w : World) :
  ConsoleGrows w (callStateWrapper wrapper valueOrUpdater w).2.
Proof.
  unfold callStateWrapper.
  destruct (closures w !! wrapper) as [[meta value raw | ? ? ? ?] |];
    try (by apply ConsoleGrows_same).
  destruct (applyArg valueOrUpdater value) as [newValue | e];
    [| by apply ConsoleGrows_same].
  cbn [snd].
  eapply ConsoleGrows_trans; [| by apply ConsoleGrows_same].
  eapply ConsoleGrows_trans; [| by apply ConsoleGrows_same].
  destruct (effectTracker w) as [tracker |]; [| by apply ConsoleGrows_same].
  destruct (negb (strictEq value newValue));
    [apply ConsoleGrows_attributeChange | by apply ConsoleGrows_same].
Qed.

Lemma ConsoleGrows_callReducerWrapper (wrapper : nat) (action : Value) (w : World) :
  ConsoleGrows w (callReducerWrapper wrapper action w).2.
Proof.
  unfold callReducerWrapper.
  destruct (closures w !! wrapper) as [[? ? ? | meta reducer state raw] |];
    try (by apply ConsoleGrows_same).
  destruct (reducer state action) as [nextState | e]; [| by apply ConsoleGrows_same].
  cbn [snd].
  eapply ConsoleGrows_trans; [| by apply ConsoleGrows_same].
  eapply ConsoleGrows_trans; [| by apply ConsoleGrows_same].
  destruct (effectTracker w) as [tracker |]; [| by apply ConsoleGrows_same].
  destruct (negb (strictEq state nextState));
    [apply ConsoleGrows_attributeChange | by apply ConsoleGrows_same].
Qed.

Lemma ConsoleGrows_runHost (actions : list HostAction) :
  ∀ w, ConsoleGrows w (runHost actions w).2.
Proof.
  induction actions as [|action rest IH]; intros w; [by apply ConsoleGrows_same |].
  destruct action; simpl.
  - pose proof (ConsoleGrows_callStateWrapper wrapper valueOrUpdater w) as Hcall.
    destruct (callStateWrapper wrapper valueOrUpdater w) as [[result | e] w1]; [| done].
    eapply ConsoleGrows_trans; [apply Hcall | apply IH].
  - pose proof (ConsoleGrows_callReducerWrapper wrapper action w) as Hcall.
    destruct (callReducerWrapper wrapper action w) as [[result | e] w1]; [| done].
    eapply ConsoleGrows_trans; [apply Hcall | apply IH].
  - eapply ConsoleGrows_trans; [| apply IH]. by apply ConsoleGrows_same.
  - eapply ConsoleGrows_trans; [| apply IH]. by apply ConsoleGrows_same.
  - by apply ConsoleGrows_same.
Qed.

Lemma ConsoleGrows_effectClosure (callback : Callback) (deps : option (list Value))
    (location componentName : string) (depNames : option (list string))
    (refs : EffectRefs) (w : World) :
  (∀ w0, ConsoleGrows w0 (callback w0).2) →
  ConsoleGrows w (effectClosure callback deps location componentName depNames refs w).2.
Proof.
  intros Hcallback. unfold effectClosure.
  set (w1 := installTracker _ w).
  specialize (Hcallback w1).
  eapply ConsoleGrows_trans; [by apply (ConsoleGrows_same w w1) |].
  destruct (callback w1) as [[cleanup | e] w2]; cbn [snd] in *.
  - eapply ConsoleGrows_trans; [apply Hcallback |]. cbv zeta.
    match goal with |- ConsoleGrows _ (logNonLoopEffect ?t ?d ?l ?c ?w4) =>
      apply (ConsoleGrows_trans _ w4) end.
    + match goal with |- ConsoleGrows _ (slowEffectDetection ?s ?l ?c ?w3) =>
        apply (ConsoleGrows_trans _ w3); [by apply ConsoleGrows_same |] end.
      unfold slowEffectDetection.
      destruct (Qltb 0 _); [| by apply ConsoleGrows_same].
      destruct (Number_leb 8 _); [apply ConsoleGrows_log | by apply ConsoleGrows_same].
    + unfold logNonLoopEffect.
      destruct (EffectTracker.stateWasSet _); [by apply ConsoleGrows_same |].
      apply ConsoleGrows_log.
  - eapply ConsoleGrows_trans; [apply Hcallback | by apply ConsoleGrows_same].
Qed.

Lemma ConsoleGrows_foldl {A : Type} (pass : A → World → World) (items : list A) :
  (∀ item w, ConsoleGrows w (pass item w)) →
  ∀ w, ConsoleGrows w (foldl (fun w item => pass item w) w items).
Proof.
  intros Hpass. induction items as [|item items IH]; intros w; simpl.
  - by apply ConsoleGrows_same.
  - eapply ConsoleGrows_trans; [apply Hpass | apply IH].
Qed.

Lemma ConsoleGrows_longTaskPass (task : LongTask.t) (w : World) :
  ConsoleGrows w (longTaskPass task w).
Proof.
  eexists. split; [apply longTaskPass_console |].
  rewrite groupsClosed_printEntries. apply groupsClosed_printGroup.
Qed.

Lemma ConsoleGrows_interactionPass (worst : EventTiming.t) (w : World) :
  ConsoleGrows w (interactionPass worst w).
Proof.
  eexists. split; [apply interactionPass_console |].
  rewrite groupsClosed_printEntries. apply groupsClosed_printGroup.
Qed.

Lemma ConsoleGrows_flushBuffer (w : World) : ConsoleGrows w (flushBuffer w).
Proof.
  eexists. split; [done |].
  rewrite <- (app_nil_r (printEntries _)). by rewrite groupsClosed_printEntries.
Qed.

Lemma ConsoleGrows_runOp (op : RuntimeOp) (w : World) : ConsoleGrows w (runOp op w).
Proof.
  destruct op; cbn [runOp].
  - apply ConsoleGrows_same. unfold __trackedUseState.
    destruct (useState initialValue) as [state raw].
    by destruct (stateTrackerMap w !! raw).
  - apply ConsoleGrows_same. unfold __trackedUseReducer.
    destruct (match init with
              | Some f => useReducer reducer initialArg (Some f)
              | None => useReducer reducer initialArg None
              end) as [state raw].
    by destruct (reducerTrackerMap w !! raw).
  - apply ConsoleGrows_effectClosure, ConsoleGrows_runHost.
  - apply ConsoleGrows_runHost.
  - apply (ConsoleGrows_foldl longTaskPass), ConsoleGrows_longTaskPass.
  - unfold initINPObserver_callback.
    apply (ConsoleGrows_foldl
             (fun (group : Z * list EventTiming.t) w =>
                let '(_, entries) := group in
                match entries with
                | first :: rest => interactionPass (worstOf first rest) w
                | [] => w
                end)).
    intros [id [|first rest]] w'; [by apply ConsoleGrows_same | apply ConsoleGrows_interactionPass].
  - unfold flushTimer_callback.
    eapply ConsoleGrows_trans; [| apply ConsoleGrows_flushBuffer]. by apply ConsoleGrows_same.
Qed.

(** X8. Whatever the page does (hook calls, effects, host code, timing
    signals, the timer), the runtime only appends to the console, and what
    it appends is made of single lines and complete groups: a group is
    never opened inside another one, never closed without being open, and
    never left open. *)
Theorem console_groups_balanced (ops : list RuntimeOp) (w : World) :
  ∃ out, console (runOps ops w) = console w ++ out ∧ groupsClosed false out = true.
Proof. apply (ConsoleGrows_foldl runOp), ConsoleGrows_runOp. Qed.

(** ** More on the dependency differ *)

Lemma filter_nil_forall {A : Type} (P : A → Prop) `{!∀ x, Decision (P x)} (l : list A) :
  filter P l = [] ↔ ∀ x, x ∈ l → ¬ P x.
Proof.
  split.
  - intros Hnil x Hx HP. by apply (filter_nil_not_elem_of P l x Hnil HP).
  - intros Hall. induction l as [|x l IH]; [done |].
    rewrite filter_cons_False by (apply Hall, elem_of_cons; by left).
    apply IH. intros y Hy. apply Hall, elem_of_cons. by right.
Qed.

Lemma getChangedDeps_changed (prev current : list Value) (names : list string) :
  getChangedDeps (Some prev) (Some current) (Some names)
  = Some (map (depNameAt names)
            (filter (λ i, depAt prev i ≠ depAt current i) (seq 0 (length current)))).
Proof. simpl. by rewrite changedStep_fold. Qed.

(** X9. With a baseline and names present, the differ never reports more
    names than there are current dependencies, and it reports none exactly
    when every current position holds the same value (Object.is) as
    before; in particular diffing any list against itself, NaN included,
    reports nothing. *)
Theorem getChangedDeps_no_false_positive (prev current : list Value) (names : list string) :
  (∃ changed,
      getChangedDeps (Some prev) (Some current) (Some names) = Some changed
      ∧ length changed ≤ length current
      ∧ (changed = [] ↔ ∀ i, i < length current → depAt prev i = depAt current i))
  ∧ getChangedDeps (Some current) (Some current) (Some names) = Some [].
Proof.
  split.
  - eexists. split; [apply getChangedDeps_changed |]. split.
    + rewrite length_map. etransitivity; [apply length_filter |]. by rewrite length_seq.
    + split.
      * intros Hnil%fmap_nil_inv i Hi.
        destruct (decide (depAt prev i = depAt current i)) as [| Hne]; [done |].
        exfalso. eapply (filter_nil_not_elem_of _ _ i Hnil Hne).
        apply elem_of_seq. lia.
      * intros Hsame.
        assert (filter (λ i, depAt prev i ≠ depAt current i) (seq 0 (length current)) = [])
          as ->; [| done].
        apply filter_nil_forall. intros i Hi%elem_of_seq Hne. apply Hne, Hsame. lia.
  - rewrite getChangedDeps_changed.
    assert (filter (λ i, depAt current i ≠ depAt current i) (seq 0 (length current)) = [])
      as ->; [| done].
    apply filter_nil_forall. by intros i _ Hne.
Qed.

(** X10. Lists of different lengths. When the current list is longer
    than the previous one, every added position whose value is not
    undefined is reported (the missing previous value reads as
    undefined). When the current list is a proper beginning of the
    previous one, nothing is reported: positions that were dropped from the
    end are never looked at. *)
Theorem getChangedDeps_length_change (prev current : list Value) (names : list string) :
  (∀ i, length prev ≤ i → i < length current → depAt current i ≠ VUndefined →
        ∃ changed, getChangedDeps (Some prev) (Some current) (Some names) = Some changed
                   ∧ depNameAt names i ∈ changed)
  ∧ (take (length current) prev = current →
     getChangedDeps (Some prev) (Some current) (Some names) = Some []).
Proof.
  split.
  - intros i Hprev Hcur Hdef. eexists. split; [apply getChangedDeps_changed |].
    apply list_elem_of_fmap_2, list_elem_of_filter. split; [| apply elem_of_seq; lia].
    unfold depAt at 1. by rewrite (proj2 (lookup_ge_None prev i) Hprev).
  - intros Htake. rewrite getChangedDeps_changed.
    assert (filter (λ i, depAt prev i ≠ depAt current i) (seq 0 (length current)) = [])
      as ->; [| done].
    apply filter_nil_forall. intros i Hi%elem_of_seq Hne. apply Hne.
    unfold depAt.
    replace (current !! i) with (take (length current) prev !! i) by (by rewrite Htake).
    by rewrite lookup_take_lt by lia.
Qed.

Lemma getChangedDeps_length_change_witness :
  (∃ changed,
      getChangedDeps (Some [VNum 1]) (Some [VNum 1; VNull]) (Some ["a"; "b"]) = Some changed
      ∧ "b" ∈ changed)
  ∧ getChangedDeps (Some [VNum 1; VNum 2]) (Some [VNum 1]) (Some ["a"; "b"]) = Some [].
Proof.
  split.
  - destruct (getChangedDeps_length_change [VNum 1] [VNum 1; VNull] ["a"; "b"]) as [Hgrow _].
    apply (Hgrow 1); [simpl; lia | simpl; lia | discriminate].
  - destruct (getChangedDeps_length_change [VNum 1; VNum 2] [VNum 1] ["a"; "b"])
      as [_ Hshrink].
    apply Hshrink. reflexivity.
Defined.

(** ** More on the tracked setters *)

Lemma strictEq_refl (v : Value) : v ≠ VNaN → strictEq v v = true.
Proof.
  intros Hv. destruct v as [| | b | z | | | s | ref]; try done; simpl;
    try (by apply bool_decide_eq_true_2).
  destruct z; by apply bool_decide_eq_true_2.
Qed.

(** The state setter, step by step, when the new value is computed. *)
Lemma callStateWrapper_unfold (wrapper : nat) (valueOrUpdater : SetStateArg) (w : World)
    (meta : Meta.t) (value newValue : Value) (rawSetState : nat) :
  closures w !! wrapper = Some (StateWrapper meta value rawSetState) →
  applyArg valueOrUpdater value = Returned newValue →
  let attributed :=
    match effectTracker w with
    | Some tracker =>
        if strictEq value newValue then w else attributeChange "useState" meta tracker w
    | None => w
    end in
  callStateWrapper wrapper valueOrUpdater w
  = (Returned VUndefined,
     set_hostCalls (hostCalls attributed ++ [call_rawSetState rawSetState valueOrUpdater])
       (set_closures (<[wrapper := StateWrapper meta newValue rawSetState]> (closures attributed))
          attributed))
  ∧ closures attributed = closures w ∧ hostCalls attributed = hostCalls w
  ∧ effectTracker attributed = effectTracker w.
Proof.
  intros Hclosure Hnew attributed.
  rewrite (callStateWrapper_returned _ _ _ meta value newValue rawSetState) by done.
  subst attributed.
  destruct (effectTracker w) as [tracker |] eqn:Htracker; [| done].
  destruct (strictEq value newValue); cbn [negb]; [by rewrite ?Htracker |].
  pose proof (attributeChange_frame "useState" meta tracker w) as (Ht & Hc & Hh & _).
  split; [done |]. split; [done |]. split; [done | congruence].
Qed.

(** The dispatch wrapper, step by step, when the reducer returns. *)
Lemma callReducerWrapper_unfold (wrapper : nat) (action : Value) (w : World)
    (meta : Meta.t) (reducer : Value → Value → Result Value) (trackedState nextState : Value)
    (rawDispatch : nat) :
  closures w !! wrapper = Some (ReducerWrapper meta reducer trackedState rawDispatch) →
  reducer trackedState action = Returned nextState →
  let attributed :=
    match effectTracker w with
    | Some tracker =>
        if strictEq trackedState nextState then w
        else attributeChange "useReducer" meta tracker w
    | None => w
    end in
  callReducerWrapper wrapper action w
  = (Returned VUndefined,
     set_hostCalls (hostCalls attributed ++ [call_rawDispatch rawDispatch action])
       (set_closures
          (<[wrapper := ReducerWrapper meta reducer nextState rawDispatch]> (closures attributed))
          attributed))
  ∧ closures attributed = closures w ∧ hostCalls attributed = hostCalls w
  ∧ effectTracker attributed = effectTracker w.
Proof.
  intros Hclosure Hnext attributed.
  rewrite (callReducerWrapper_returned _ _ _ meta reducer trackedState nextState rawDispatch)
    by done.
  subst attributed.
  destruct (effectTracker w) as [tracker |] eqn:Htracker; [| done].
  destruct (strictEq trackedState nextState); cbn [negb]; [by rewrite ?Htracker |].
  pose proof (attributeChange_frame "useReducer" meta tracker w) as (Ht & Hc & Hh & _).
  split; [done |]. split; [done |]. split; [done | congruence].
Qed.

(** X11. A call of a tracked dispatch function first runs the reducer on
    the mirrored state. When the reducer returns, the call emits one
    state-change entry (naming useReducer) exactly when the execution
    context is non-null and the next state is not strictly equal to the
    mirrored one; in both cases the mirror becomes the next state, the raw
    dispatch is called with the same action, and the call returns. When
    the reducer throws, the call throws what the reducer threw and has
    done nothing: no entry, the mirror as it was, the raw dispatch not
    called. *)
Theorem tracked_dispatch_behaviour (wrapper : nat) (action : Value) (w : World)
    (meta : Meta.t) (reducer : Value → Value → Result Value) (trackedState : Value)
    (rawDispatch : nat) :
  closures w !! wrapper = Some (ReducerWrapper meta reducer trackedState rawDispatch) →
  let call := callReducerWrapper wrapper action w in
  match reducer trackedState action with
  | Returned nextState =>
      call.1 = Returned VUndefined
      ∧ match effectTracker w with
        | Some tracker =>
            if strictEq trackedState nextState then logState call.2 = logState w
            else logState call.2
                 = logState
                     (emit (stateChangeEmission "useReducer" meta (trackers w !!! tracker)) w)
        | None => logState call.2 = logState w
        end
      ∧ (outputs call.2 ≠ outputs w
         ↔ strictEq trackedState nextState = false ∧ effectTracker w ≠ None)
      ∧ closures call.2 !! wrapper = Some (ReducerWrapper meta reducer nextState rawDispatch)
      ∧ hostCalls call.2 = hostCalls w ++ [call_rawDispatch rawDispatch action]
  | Thrown e => call = (Thrown e, w)
  end.
Proof.
  intros Hclosure call.
  assert (wrapper < length (closures w)) as Hlt by (by eapply lookup_lt_Some).
  destruct (reducer trackedState action) as [nextState | e] eqn:Hnext.
  2:{ by apply (callReducerWrapper_thrown _ _ _ meta reducer trackedState rawDispatch). }
  destruct (callReducerWrapper_unfold wrapper action w meta reducer trackedState nextState
              rawDispatch Hclosure Hnext) as (Hcall & Hc & Hh & _).
  fold call in Hcall. rewrite Hcall. clear Hcall. cbn [fst snd]. split; [done |].
  destruct (effectTracker w) as [tracker |] eqn:Htracker.
  - destruct (strictEq trackedState nextState) eqn:Heq.
    + split; [done |]. split; [| split].
      * split; [by intros [] | by intros [[=] _]].
      * simpl. by apply list_lookup_insert_eq.
      * done.
    + pose proof (attributeChange_logState "useReducer" meta tracker w) as Hlog.
      split; [exact Hlog |]. split; [| split].
      * split; [done |]. intros _.
        change (outputs (attributeChange "useReducer" meta tracker w) ≠ outputs w).
        rewrite (logState_outputs _ _ Hlog). apply log_delivers.
      * simpl. rewrite Hc. by apply list_lookup_insert_eq.
      * simpl. by rewrite Hh.
  - split; [done |]. split; [| split].
    + split; [by intros [] | by intros [_ []]].
    + simpl. by apply list_lookup_insert_eq.
    + done.
Qed.

Lemma tracked_dispatch_behaviour_witness :
  (hostCalls (callReducerWrapper 0 (VNum 1) world_in_reducer_effect).2
   = [call_rawDispatch 21 (VNum 1)]
   ∧ logBuffer (callReducerWrapper 0 (VNum 1) world_in_reducer_effect).2
     = [entryAt 5 (stateChangeEmission "useReducer" (Meta.mk "App.tsx:3" "App" "count")
                     (EffectTracker.mk "App.tsx:6" "App" None (Some []) false))])
  ∧ callReducerWrapper 0 (VStr "reset") world_in_reducer_effect
    = (Thrown (VStr "unknown action"), world_in_reducer_effect).
Proof.
  split.
  - destruct (tracked_dispatch_behaviour 0 (VNum 1) world_in_reducer_effect
                (Meta.mk "App.tsx:3" "App" "count") sample_reducer (VNum 0) 21)
      as (_ & Hlog & _ & _ & Hforward).
    + reflexivity.
    + split; [exact Hforward |]. exact (f_equal (fun s => s.1.1.2) Hlog).
  - apply (tracked_dispatch_behaviour 0 (VStr "reset") world_in_reducer_effect
             (Meta.mk "App.tsx:3" "App" "count") sample_reducer (VNum 0) 21).
    reflexivity.
Defined.

Lemma callStateWrapper_no_context (wrapper : nat) (valueOrUpdater : SetStateArg) (w : World) :
  effectTracker w = None →
  let w' := (callStateWrapper wrapper valueOrUpdater w).2 in
  logState w' = logState w ∧ trackers w' = trackers w ∧ effectTracker w' = None.
Proof.
  intros Hnone. unfold callStateWrapper.
  destruct (closures w !! wrapper) as [[meta value raw | ? ? ? ?] |]; try done.
  destruct (applyArg valueOrUpdater value) as [newValue | e]; [| done].
  by rewrite Hnone.
Qed.

Lemma callReducerWrapper_no_context (wrapper : nat) (action : Value) (w : World) :
  effectTracker w = None →
  let w' := (callReducerWrapper wrapper action w).2 in
  logState w' = logState w ∧ trackers w' = trackers w ∧ effectTracker w' = None.
Proof.
  intros Hnone. unfold callReducerWrapper.
  destruct (closures w !! wrapper) as [[? ? ? | meta reducer state raw] |]; try done.
  destruct (reducer state action) as [nextState | e]; [| done].
  by rewrite Hnone.
Qed.

(** X12. Host code that runs while no effect is executing (an event
    handler, a callback that fires later) and that does not itself write
    the global slot can call tracked setters and dispatch functions as
    often as it likes: nothing is logged, buffered or printed, no tracker
    is marked, and only the clock moves on. *)
Theorem host_outside_effect_is_silent (actions : list HostAction) (w : World) :
  effectTracker w = None →
  Forall (fun action => isAssign action = false) actions →
  let w' := (runHost actions w).2 in
  outputs w' = outputs w ∧ flushTimer w' = flushTimer w
  ∧ trackers w' = trackers w ∧ effectTracker w' = None.
Proof.
  revert w. induction actions as [|action rest IH]; intros w Hnone Hactions; [done |].
  apply Forall_cons in Hactions as [Haction Hrest].
  destruct action as [wrapper arg | wrapper act | ms | tracker | e]; cbn [runHost].
  - destruct (callStateWrapper_no_context wrapper arg w Hnone) as (Hlog & Htr & Hnone').
    unfold logState in Hlog. injection Hlog as _ Hrec _ _ Hbuf Htimer Hcon.
    destruct (callStateWrapper wrapper arg w) as [[result | e] w1]; cbn [snd] in *.
    + destruct (IH _ Hnone' Hrest) as (-> & -> & -> & ->).
      unfold outputs. by rewrite Hrec, Hbuf, Hcon, Htimer, Htr.
    + unfold outputs. by rewrite Hrec, Hbuf, Hcon, Htimer, Htr.
  - destruct (callReducerWrapper_no_context wrapper act w Hnone) as (Hlog & Htr & Hnone').
    unfold logState in Hlog. injection Hlog as _ Hrec _ _ Hbuf Htimer Hcon.
    destruct (callReducerWrapper wrapper act w) as [[result | e] w1]; cbn [snd] in *.
    + destruct (IH _ Hnone' Hrest) as (-> & -> & -> & ->).
      unfold outputs. by rewrite Hrec, Hbuf, Hcon, Htimer, Htr.
    + unfold outputs. by rewrite Hrec, Hbuf, Hcon, Htimer, Htr.
  - by destruct (IH (set_now (now w + ms)%Q w) Hnone Hrest) as (-> & -> & -> & ->).
  - done.
  - done.
Qed.

Lemma host_outside_effect_is_silent_witness :
  outputs (runHost [call_setState 0 (PlainValue (VNum 7)); busy 3;
                    call_setState 0 (Updater (fun v => Returned v))]
             (set_effectTracker None world_in_effect)).2
  = ([], [], []).
Proof.
  destruct (host_outside_effect_is_silent
              [call_setState 0 (PlainValue (VNum 7)); busy 3;
               call_setState 0 (Updater (fun v => Returned v))]
              (set_effectTracker None world_in_effect) eq_refl) as (Hout & _).
  - repeat constructor.
  - exact Hout.
Defined.

(** X13. Setting a state twice in a row to the same value, inside an
    effect, is attributed at most once: the second call finds the mirror
    already equal and emits nothing. The one exception is NaN, which is
    never strictly equal to itself, so every call that sets NaN inside an
    effect is attributed again. *)
Theorem repeated_set_is_logged_once (wrapper : nat) (v : Value) (w : World)
    (meta : Meta.t) (value : Value) (rawSetState : nat) :
  closures w !! wrapper = Some (StateWrapper meta value rawSetState) →
  let once := (callStateWrapper wrapper (PlainValue v) w).2 in
  let twice := (callStateWrapper wrapper (PlainValue v) once).2 in
  (v ≠ VNaN → logState twice = logState once ∧ trackers twice = trackers once)
  ∧ (v = VNaN → effectTracker w ≠ None → outputs twice ≠ outputs once)
  ∧ hostCalls twice
    = hostCalls w ++ [call_rawSetState rawSetState (PlainValue v);
                      call_rawSetState rawSetState (PlainValue v)].
Proof.
  intros Hclosure once twice.
  assert (wrapper < length (closures w)) as Hlt by (by eapply lookup_lt_Some).
  destruct (callStateWrapper_unfold wrapper (PlainValue v) w meta value v rawSetState Hclosure
              eq_refl) as (Honce & Hc & Hh & Ht).
  apply (f_equal snd) in Honce. cbn [snd] in Honce. fold once in Honce.
  assert (closures once !! wrapper = Some (StateWrapper meta v rawSetState)) as Hclosure'.
  { rewrite Honce. simpl. rewrite Hc. by apply list_lookup_insert_eq. }
  assert (effectTracker once = effectTracker w) as Htracker by (by rewrite Honce).
  assert (hostCalls once = hostCalls w ++ [call_rawSetState rawSetState (PlainValue v)])
    as Hcalls by (rewrite Honce; simpl; by rewrite Hh).
  destruct (callStateWrapper_unfold wrapper (PlainValue v) once meta v v rawSetState Hclosure'
              eq_refl) as (Htwice & _ & Hh' & _).
  apply (f_equal snd) in Htwice. cbn [snd] in Htwice. fold twice in Htwice.
  split; [| split].
  - intros Hv. rewrite (strictEq_refl v Hv) in Htwice.
    assert (twice = set_hostCalls (hostCalls once ++ [call_rawSetState rawSetState (PlainValue v)])
                      (set_closures (<[wrapper := StateWrapper meta v rawSetState]> (closures once))
                         once)) as ->
      by (rewrite Htwice; by destruct (effectTracker once)).
    done.
  - intros -> Hcontext. rewrite Htracker in Htwice.
    destruct (effectTracker w) as [tracker |]; [| done].
    cbn [strictEq] in Htwice. rewrite Htwice.
    change (outputs (attributeChange "useState" meta tracker once) ≠ outputs once).
    rewrite (logState_outputs _ _ (attributeChange_logState "useState" meta tracker once)).
    apply log_delivers.
  - rewrite Htwice. cbn [hostCalls set_hostCalls]. rewrite Hh', Hcalls.
    by rewrite <- app_assoc.
Qed.

Lemma repeated_set_is_logged_once_witness :
  logBuffer (callStateWrapper 0 (PlainValue (VNum 1))
               (callStateWrapper 0 (PlainValue (VNum 1)) world_in_effect).2).2
  = logBuffer (callStateWrapper 0 (PlainValue (VNum 1)) world_in_effect).2.
Proof.
  destruct (repeated_set_is_logged_once 0 (VNum 1) world_in_effect
              (Meta.mk "App.tsx:3" "App" "a") (VNum 0) 11 eq_refl) as (Hsame & _).
  destruct Hsame as [Hlog _]; [discriminate |].
  exact (f_equal (fun s => s.1.1.2) Hlog).
Defined.

(** What one call of the state setter with an updater does to the mirror
    and to the calls that reach the host. *)
Lemma callStateWrapper_updater (wrapper : nat) (f : Value → Result Value) (w : World)
    (meta : Meta.t) (value : Value) (rawSetState : nat) :
  closures w !! wrapper = Some (StateWrapper meta value rawSetState) →
  let call := callStateWrapper wrapper (Updater f) w in
  match f value with
  | Returned newValue =>
      call.1 = Returned VUndefined
      ∧ closures call.2 !! wrapper = Some (StateWrapper meta newValue rawSetState)
      ∧ hostCalls call.2 = hostCalls w ++ [call_rawSetState rawSetState (Updater f)]
      ∧ length (closures call.2) = length (closures w)
  | Thrown e => call = (Thrown e, w)
  end.
Proof.
  intros Hclosure call.
  assert (wrapper < length (closures w)) as Hlt by (by eapply lookup_lt_Some).
  destruct (f value) as [newValue | e] eqn:Hf.
  2:{ by apply (callStateWrapper_thrown _ _ _ meta value rawSetState). }
  destruct (callStateWrapper_unfold wrapper (Updater f) w meta value newValue rawSetState
              Hclosure Hf) as (Hcall & Hc & Hh & _).
  fold call in Hcall. rewrite Hcall. cbn [fst snd closures hostCalls set_hostCalls set_closures].
  rewrite Hc, Hh, length_insert. split; [done |]. split; [| done].
  by apply list_lookup_insert_eq.
Qed.

(** X14. Updaters compose on the mirror as they do in the host. When the
    updaters f and then g are passed to a tracked setter and both return,
    the mirrored value is g (f v) for the earlier mirror v, and the raw
    setter has received f and then g, each exactly as passed. An updater
    that throws leaves no trace: when f throws, the second call starts
    from the old mirror v and only g is forwarded; when g throws, the
    mirror stays at f v and only f was forwarded. No wrapper is created. *)
Theorem updaters_compose_on_mirror (wrapper : nat) (f g : Value → Result Value) (w : World)
    (meta : Meta.t) (value : Value) (rawSetState : nat) :
  closures w !! wrapper = Some (StateWrapper meta value rawSetState) →
  let first := callStateWrapper wrapper (Updater f) w in
  let second := callStateWrapper wrapper (Updater g) first.2 in
  match f value with
  | Returned v1 =>
      first.1 = Returned VUndefined
      ∧ match g v1 with
        | Returned v2 =>
            second.1 = Returned VUndefined
            ∧ closures second.2 !! wrapper = Some (StateWrapper meta v2 rawSetState)
            ∧ hostCalls second.2
              = hostCalls w ++ [call_rawSetState rawSetState (Updater f);
                                call_rawSetState rawSetState (Updater g)]
        | Thrown e =>
            second.1 = Thrown e
            ∧ closures second.2 !! wrapper = Some (StateWrapper meta v1 rawSetState)
            ∧ hostCalls second.2 = hostCalls w ++ [call_rawSetState rawSetState (Updater f)]
        end
  | Thrown e =>
      first = (Thrown e, w)
      ∧ match g value with
        | Returned v2 =>
            second.1 = Returned VUndefined
            ∧ closures second.2 !! wrapper = Some (StateWrapper meta v2 rawSetState)
            ∧ hostCalls second.2 = hostCalls w ++ [call_rawSetState rawSetState (Updater g)]
        | Thrown e' => second = (Thrown e', w)
        end
  end
  ∧ length (closures second.2) = length (closures w).
Proof.
  intros Hclosure first second.
  pose proof (callStateWrapper_updater wrapper f w meta value rawSetState Hclosure) as Hfirst.
  fold first in Hfirst.
  destruct (f value) as [v1 | e].
  - destruct Hfirst as (Hr1 & Hc1 & Hh1 & Hl1).
    pose proof (callStateWrapper_updater wrapper g first.2 meta v1 rawSetState Hc1) as Hsecond.
    fold second in Hsecond.
    destruct (g v1) as [v2 | e].
    + destruct Hsecond as (Hr2 & Hc2 & Hh2 & Hl2).
      split; [| congruence]. split; [done |]. split; [done |]. split; [done |].
      by rewrite Hh2, Hh1, <- app_assoc.
    + rewrite Hsecond. cbn [fst snd]. split; [| done].
      split; [done |]. by split.
  - subst second. rewrite Hfirst. cbn [snd]. split; [| clear Hfirst].
    + split; [done |].
      pose proof (callStateWrapper_updater wrapper g w meta value rawSetState Hclosure)
        as Hsecond.
      destruct (g value) as [v2 | e']; [| done].
      by destruct Hsecond as (Hr2 & Hc2 & Hh2 & Hl2).
    + pose proof (callStateWrapper_updater wrapper g w meta value rawSetState Hclosure)
        as Hsecond.
      destruct (g value) as [v2 | e']; [by destruct Hsecond as (_ & _ & _ & ?) |].
      by rewrite Hsecond.
Qed.

Lemma updaters_compose_on_mirror_witness :
  (closures (callStateWrapper 0 (Updater (sample_reducer (VNum 2)))
               (callStateWrapper 0 (Updater (sample_reducer (VNum 1))) world_in_effect).2).2
     !! 0
   = Some (StateWrapper (Meta.mk "App.tsx:3" "App" "a") (VNum 3) 11))
  ∧ closures (callStateWrapper 0 (Updater (sample_reducer (VNum 2)))
                (callStateWrapper 0 (Updater (sample_reducer (VStr "x"))) world_in_effect).2).2
      !! 0
    = Some (StateWrapper (Meta.mk "App.tsx:3" "App" "a") (VNum 2) 11).
Proof.
  split.
  - destruct (updaters_compose_on_mirror 0 (sample_reducer (VNum 1)) (sample_reducer (VNum 2))
                world_in_effect (Meta.mk "App.tsx:3" "App" "a") (VNum 0) 11 eq_refl)
      as ((_ & _ & Hmirror & _) & _).
    exact Hmirror.
  - destruct (updaters_compose_on_mirror 0 (sample_reducer (VStr "x"))
                (sample_reducer (VNum 2))
                world_in_effect (Meta.mk "App.tsx:3" "App" "a") (VNum 0) 11 eq_refl)
      as ((_ & _ & Hmirror & _) & _).
    exact Hmirror.
Defined.

(** ** The wrappers behind the cache *)

Lemma ClosuresKept_same (w w' : World) :
  stateTrackerMap w' = stateTrackerMap w → reducerTrackerMap w' = reducerTrackerMap w →
  closures w' = closures w → ClosuresKept w w'.
Proof.
  intros Hs Hr Hc. split; [done |]. split; [done |]. split; [by rewrite Hc |].
  intros i c Hi. exists c. by rewrite Hc.
Qed.

Lemma ClosuresKept_trans (w1 w2 w3 : World) :
  ClosuresKept w1 w2 → ClosuresKept w2 w3 → ClosuresKept w1 w3.
Proof.
  intros (Hs1 & Hr1 & Hl1 & Hk1) (Hs2 & Hr2 & Hl2 & Hk2).
  split; [congruence |]. split; [congruence |]. split; [congruence |].
  intros i c Hi. destruct (Hk1 i c Hi) as (c' & Hi' & Hkind').
  destruct (Hk2 i c' Hi') as (c'' & Hi'' & Hkind''). exists c''. split; [done | congruence].
Qed.

Lemma WrappersSound_kept (w w' : World) :
  WrappersSound w → ClosuresKept w w' → WrappersSound w'.
Proof.
  intros [Hstate Hreducer] (Hs & Hr & _ & Hkept). split.
  - intros raw tracked Hraw. rewrite Hs in Hraw.
    destruct (Hstate raw tracked Hraw) as (c & Hc & Hkind).
    destruct (Hkept _ c Hc) as (c' & Hc' & Hkind'). exists c'. split; [done | congruence].
  - intros raw tracked Hraw. rewrite Hr in Hraw.
    destruct (Hreducer raw tracked Hraw) as (c & Hc & Hkind).
    destruct (Hkept _ c Hc) as (c' & Hc' & Hkind'). exists c'. split; [done | congruence].
Qed.

Lemma ClosuresKept_log (message : string) (type : EntryType) (location countKey : string)
    (w : World) :
  ClosuresKept w (log message type location countKey w).
Proof.
  destruct (log_frame message type location countKey w) as (_ & _ & Hc & _ & Hs & Hr).
  by apply ClosuresKept_same.
Qed.

Lemma ClosuresKept_attributeChange (hookName : string) (meta : Meta.t) (tracker : nat)
    (w : World) :
  ClosuresKept w (attributeChange hookName meta tracker w).
Proof.
  destruct (attributeChange_frame hookName meta tracker w) as (_ & Hc & _ & Hs & Hr).
  by apply ClosuresKept_same.
Qed.

Lemma ClosuresKept_update (wrapper : nat) (old new : Closure) (w : World) :
  closures w !! wrapper = Some old → closureKind new = closureKind old →
  ClosuresKept w (set_closures (<[wrapper := new]> (closures w)) w).
Proof.
  intros Hold Hkind. split; [done |]. split; [done |]. split; [apply length_insert |].
  intros i c Hi. cbn [closures set_closures].
  destruct (decide (i = wrapper)) as [-> | Hne].
  - exists new. split; [| congruence].
    apply list_lookup_insert_eq. by eapply lookup_lt_Some.
  - exists c. by rewrite list_lookup_insert_ne.
Qed.

Lemma ClosuresKept_callStateWrapper (wrapper : nat) (valueOrUpdater : SetStateArg)
    (w : World) :
  ClosuresKept w (callStateWrapper wrapper valueOrUpdater w).2.
Proof.
  destruct (closures w !! wrapper) as [[meta value raw | meta reducer state raw] |] eqn:Hclosure.
  - destruct (applyArg valueOrUpdater value) as [newValue | e] eqn:Hnew.
    2:{ rewrite (callStateWrapper_thrown _ _ _ meta value raw e) by done.
        by apply ClosuresKept_same. }
    destruct (callStateWrapper_unfold wrapper valueOrUpdater w meta value newValue raw Hclosure
                Hnew) as (-> & Hc & _ & _).
    cbn [snd].
    set (attributed := match effectTracker w with
                       | Some tracker => _
                       | None => w
                       end) in *.
    assert (ClosuresKept w attributed) as Hattr.
    { subst attributed. destruct (effectTracker w) as [tracker |]; [| by apply ClosuresKept_same].
      destruct (strictEq value _);
        [by apply ClosuresKept_same | apply ClosuresKept_attributeChange]. }
    eapply ClosuresKept_trans; [exact Hattr |].
    eapply ClosuresKept_trans; [| by apply ClosuresKept_same].
    eapply (ClosuresKept_update wrapper (StateWrapper meta value raw)); [by rewrite Hc | done].
  - unfold callStateWrapper. rewrite Hclosure. by apply ClosuresKept_same.
  - unfold callStateWrapper. rewrite Hclosure. by apply ClosuresKept_same.
Qed.

Lemma ClosuresKept_callReducerWrapper (wrapper : nat) (action : Value) (w : World) :
  ClosuresKept w (callReducerWrapper wrapper action w).2.
Proof.
  destruct (closures w !! wrapper) as [[meta value raw | meta reducer state raw] |] eqn:Hclosure.
  - unfold callReducerWrapper. rewrite Hclosure. by apply ClosuresKept_same.
  - destruct (reducer state action) as [nextState | e] eqn:Hnext.
    2:{ rewrite (callReducerWrapper_thrown _ _ _ meta reducer state raw e) by done.
        by apply ClosuresKept_same. }
    destruct (callReducerWrapper_unfold wrapper action w meta reducer state nextState raw
                Hclosure Hnext) as (-> & Hc & _ & _).
    cbn [snd].
    set (attributed := match effectTracker w with
                       | Some tracker => _
                       | None => w
                       end) in *.
    assert (ClosuresKept w attributed) as Hattr.
    { subst attributed. destruct (effectTracker w) as [tracker |]; [| by apply ClosuresKept_same].
      destruct (strictEq state _);
        [by apply ClosuresKept_same | apply ClosuresKept_attributeChange]. }
    eapply ClosuresKept_trans; [exact Hattr |].
    eapply ClosuresKept_trans; [| by apply ClosuresKept_same].
    eapply (ClosuresKept_update wrapper (ReducerWrapper meta reducer state raw));
      [by rewrite Hc | done].
  - unfold callReducerWrapper. rewrite Hclosure. by apply ClosuresKept_same.
Qed.

Lemma ClosuresKept_runHost (actions : list HostAction) :
  ∀ w, ClosuresKept w (runHost actions w).2.
Proof.
  induction actions as [|action rest IH]; intros w; [by apply ClosuresKept_same |].
  destruct action; simpl.
  - pose proof (ClosuresKept_callStateWrapper wrapper valueOrUpdater w) as Hcall.
    destruct (callStateWrapper wrapper valueOrUpdater w) as [[result | e] w1]; [| done].
    eapply ClosuresKept_trans; [apply Hcall | apply IH].
  - pose proof (ClosuresKept_callReducerWrapper wrapper action w) as Hcall.
    destruct (callReducerWrapper wrapper action w) as [[result | e] w1]; [| done].
    eapply ClosuresKept_trans; [apply Hcall | apply IH].
  - eapply ClosuresKept_trans; [| apply IH]. by apply ClosuresKept_same.
  - eapply ClosuresKept_trans; [| apply IH]. by apply ClosuresKept_same.
  - by apply ClosuresKept_same.
Qed.

Lemma ClosuresKept_effectClosure (callback : Callback) (deps : option (list Value))
    (location componentName : string) (depNames : option (list string))
    (refs : EffectRefs) (w : World) :
  (∀ w0, ClosuresKept w0 (callback w0).2) →
  ClosuresKept w (effectClosure callback deps location componentName depNames refs w).2.
Proof.
  intros Hcallback. unfold effectClosure.
  set (w1 := installTracker _ w).
  specialize (Hcallback w1).
  eapply ClosuresKept_trans; [by apply (ClosuresKept_same w w1) |].
  destruct (callback w1) as [[cleanup | e] w2]; cbn [snd] in *.
  - eapply ClosuresKept_trans; [apply Hcallback |]. cbv zeta.
    match goal with |- ClosuresKept _ (logNonLoopEffect ?t ?d ?l ?c ?w4) =>
      apply (ClosuresKept_trans _ w4) end.
    + match goal with |- ClosuresKept _ (slowEffectDetection ?s ?l ?c ?w3) =>
        apply (ClosuresKept_trans _ w3); [by apply ClosuresKept_same |] end.
      unfold slowEffectDetection.
      destruct (Qltb 0 _); [| by apply ClosuresKept_same].
      destruct (Number_leb 8 _); [apply ClosuresKept_log | by apply ClosuresKept_same].
    + unfold logNonLoopEffect.
      destruct (EffectTracker.stateWasSet _); [by apply ClosuresKept_same |].
      apply ClosuresKept_log.
  - eapply ClosuresKept_trans; [apply Hcallback | by apply ClosuresKept_same].
Qed.

Lemma ClosuresKept_foldl {A : Type} (pass : A → World → World) (items : list A) :
  (∀ item w, ClosuresKept w (pass item w)) →
  ∀ w, ClosuresKept w (foldl (fun w item => pass item w) w items).
Proof.
  intros Hpass. induction items as [|item items IH]; intros w; simpl.
  - by apply ClosuresKept_same.
  - eapply ClosuresKept_trans; [apply Hpass | apply IH].
Qed.

Lemma WrappersSound_trackedUseState (useState : InitArg → Value * nat)
    (initialValue : InitArg) (location componentName stateName : string) (w : World) :
  WrappersSound w →
  WrappersSound (__trackedUseState useState initialValue location componentName stateName w).2.
Proof.
  intros [Hstate Hreducer]. unfold __trackedUseState.
  destruct (useState initialValue) as [state raw].
  destruct (stateTrackerMap w !! raw) as [tracked |] eqn:Hraw; [done |].
  cbn [snd]. split.
  - intros raw' tracked'. cbn. rewrite lookup_insert.
    destruct (decide (raw = raw')) as [<- | Hne].
    + intros [= <-]. cbn. eexists. split; [apply list_lookup_middle; done | done].
    + intros Hraw'. destruct (Hstate raw' tracked' Hraw') as (c & Hc & Hkind).
      exists c. split; [| done]. rewrite lookup_app_l; [done | by eapply lookup_lt_Some].
  - intros raw' tracked' Hraw'. cbn in Hraw' |- *.
    destruct (Hreducer raw' tracked' Hraw') as (c & Hc & Hkind).
    exists c. split; [| done]. rewrite lookup_app_l; [done | by eapply lookup_lt_Some].
Qed.

Lemma WrappersSound_trackedUseReducer
    (useReducer : (Value → Value → Result Value) → Value → option (Value → Value) → Value * nat)
    (reducer : Value → Value → Result Value) (initialArg : Value) (init : option (Value → Value))
    (location componentName stateName : string) (w : World) :
  WrappersSound w →
  WrappersSound
    (__trackedUseReducer useReducer reducer initialArg init location componentName stateName w).2.
Proof.
  intros [Hstate Hreducer]. unfold __trackedUseReducer.
  destruct (match init with
            | Some f => useReducer reducer initialArg (Some f)
            | None => useReducer reducer initialArg None
            end) as [state raw].
  destruct (reducerTrackerMap w !! raw) as [tracked |] eqn:Hraw; [done |].
  cbn [snd]. split.
  - intros raw' tracked' Hraw'. cbn in Hraw' |- *.
    destruct (Hstate raw' tracked' Hraw') as (c & Hc & Hkind).
    exists c. split; [| done]. rewrite lookup_app_l; [done | by eapply lookup_lt_Some].
  - intros raw' tracked'. cbn. rewrite lookup_insert.
    destruct (decide (raw = raw')) as [<- | Hne].
    + intros [= <-]. cbn. eexists. split; [apply list_lookup_middle; done | done].
    + intros Hraw'. destruct (Hreducer raw' tracked' Hraw') as (c & Hc & Hkind).
      exists c. split; [| done]. rewrite lookup_app_l; [done | by eapply lookup_lt_Some].
Qed.

Lemma WrappersSound_runOp (op : RuntimeOp) (w : World) :
  WrappersSound w → WrappersSound (runOp op w).
Proof.
  intros Hsound. destruct op; cbn [runOp].
  - by apply WrappersSound_trackedUseState.
  - by apply WrappersSound_trackedUseReducer.
  - eapply WrappersSound_kept; [done |].
    apply ClosuresKept_effectClosure, ClosuresKept_runHost.
  - eapply WrappersSound_kept; [done | apply ClosuresKept_runHost].
  - eapply WrappersSound_kept; [done |].
    apply (ClosuresKept_foldl longTaskPass). intros task w0.
    apply ClosuresKept_same; unfold longTaskPass;
      by destruct (partitionBuffer _ _ _) as [[? ?] ?].
  - eapply WrappersSound_kept; [done |]. unfold initINPObserver_callback.
    apply (ClosuresKept_foldl
             (fun (group : Z * list EventTiming.t) w =>
                let '(_, entries) := group in
                match entries with
                | first :: rest => interactionPass (worstOf first rest) w
                | [] => w
                end)).
    intros [id [|first rest]] w0; [by apply ClosuresKept_same |].
    apply ClosuresKept_same; unfold interactionPass;
      by destruct (partitionBuffer _ _ _) as [[? ?] ?].
  - eapply WrappersSound_kept; [done | by apply ClosuresKept_same].
Qed.

Lemma WrappersSound_runOps (ops : list RuntimeOp) :
  ∀ w, WrappersSound w → WrappersSound (runOps ops w).
Proof.
  induction ops as [|op ops IH]; intros w Hsound; [done |].
  apply (IH (runOp op w)). by apply WrappersSound_runOp.
Qed.

(** X15. Starting from empty caches, whatever the page has done since,
    the wrapper that [__trackedUseState] returns for a raw setter is a
    state wrapper that forwards to that raw setter and to no other: a call
    of it whose new value is computed passes its argument to exactly the
    raw setter the hook saw, and a call whose updater throws forwards
    nothing. Two different raw setters never share a wrapper. The same
    holds for dispatch functions, with the reducer that the wrapper
    captured when it was built. *)
Theorem wrapper_forwards_to_its_setter (ops : list RuntimeOp) (w : World) :
  stateTrackerMap w = ∅ → reducerTrackerMap w = ∅ →
  (∀ (useState useState' : InitArg → Value * nat) (initialValue initialValue' : InitArg)
     (location componentName stateName location' componentName' stateName' : string)
     (valueOrUpdater : SetStateArg),
      let call :=
        __trackedUseState useState initialValue location componentName stateName
          (runOps ops w) in
      let result := callStateWrapper call.1.2 valueOrUpdater call.2 in
      (∃ meta value,
          closures call.2 !! call.1.2
          = Some (StateWrapper meta value (useState initialValue).2)
          ∧ match applyArg valueOrUpdater value with
            | Returned _ =>
                result.1 = Returned VUndefined
                ∧ hostCalls result.2
                  = hostCalls call.2
                      ++ [call_rawSetState (useState initialValue).2 valueOrUpdater]
            | Thrown e => result = (Thrown e, call.2)
            end)
      ∧ ((useState' initialValue').2 ≠ (useState initialValue).2 →
         (__trackedUseState useState' initialValue' location' componentName' stateName'
            call.2).1.2 ≠ call.1.2))
  ∧ (∀ (useReducer : (Value → Value → Result Value) → Value → option (Value → Value)
                     → Value * nat)
       (reducer : Value → Value → Result Value) (initialArg : Value)
       (init : option (Value → Value))
       (location componentName stateName : string) (action : Value),
      let call :=
        __trackedUseReducer useReducer reducer initialArg init location componentName stateName
          (runOps ops w) in
      let result := callReducerWrapper call.1.2 action call.2 in
      ∃ meta captured state,
        closures call.2 !! call.1.2
        = Some (ReducerWrapper meta captured state (useReducer reducer initialArg init).2)
        ∧ match captured state action with
          | Returned _ =>
              result.1 = Returned VUndefined
              ∧ hostCalls result.2
                = hostCalls call.2
                    ++ [call_rawDispatch (useReducer reducer initialArg init).2 action]
          | Thrown e => result = (Thrown e, call.2)
          end).
Proof.
  intros Hstate0 Hreducer0.
  assert (WrappersSound (runOps ops w)) as Hsound.
  { apply WrappersSound_runOps. split; intros raw tracked; rewrite ?Hstate0, ?Hreducer0;
      by rewrite lookup_empty. }
  split.
  - intros useState useState' initialValue initialValue' location componentName stateName
      location' componentName' stateName' valueOrUpdater call result.
    pose proof (WrappersSound_trackedUseState useState initialValue location componentName
                  stateName _ Hsound) as Hsound1.
    fold call in Hsound1.
    destruct (trackedUseState_result useState initialValue location componentName stateName
                (runOps ops w)) as ((tracked & Hcached & Hwrapper) & _).
    fold call in Hcached, Hwrapper.
    destruct (proj1 Hsound1 _ _ Hcached) as (c & Hc & Hkind).
    rewrite <- Hwrapper in Hc.
    split.
    + destruct c as [meta value raw | ? ? ? ?]; [| done].
      injection Hkind as -> ->.
      exists (Tracked.meta tracked), value. split; [done |].
      destruct (applyArg valueOrUpdater value) as [newValue | e] eqn:Hnew.
      * destruct (callStateWrapper_unfold _ valueOrUpdater _ _ _ _ _ Hc Hnew)
          as (Hresult & _ & Hh & _).
        fold result in Hresult. rewrite Hresult. cbn [fst snd]. split; [done |].
        simpl. by rewrite Hh.
      * by apply (callStateWrapper_thrown _ _ _ _ _ _ _ Hc).
    + intros Hne Heq.
      pose proof (WrappersSound_trackedUseState useState' initialValue' location'
                    componentName' stateName' _ Hsound1) as Hsound2.
      destruct (trackedUseState_result useState' initialValue' location' componentName'
                  stateName' call.2) as ((tracked' & Hcached' & Hwrapper') & _).
      destruct (proj1 Hsound2 _ _ Hcached') as (c' & Hc' & Hkind').
      apply (trackedUseState_caches useState' initialValue' location' componentName'
               stateName' call.2) in Hcached.
      destruct (proj1 Hsound2 _ _ Hcached) as (c'' & Hc'' & Hkind'').
      rewrite <- Hwrapper', Heq, Hwrapper in Hc'. congruence.
  - intros useReducer reducer initialArg init location componentName stateName action call
      result.
    pose proof (WrappersSound_trackedUseReducer useReducer reducer initialArg init location
                  componentName stateName _ Hsound) as Hsound1.
    fold call in Hsound1.
    destruct (trackedUseReducer_result useReducer reducer initialArg init location componentName
                stateName (runOps ops w)) as ((tracked & Hcached & Hwrapper) & _).
    fold call in Hcached, Hwrapper.
    destruct (proj2 Hsound1 _ _ Hcached) as (c & Hc & Hkind).
    rewrite <- Hwrapper in Hc.
    destruct c as [? ? ? | meta captured state raw]; [done |].
    injection Hkind as -> ->.
    exists (Tracked.meta tracked), captured, state. split; [done |].
    destruct (captured state action) as [nextState | e] eqn:Hnext.
    + destruct (callReducerWrapper_unfold _ action _ _ _ _ _ _ Hc Hnext)
        as (Hresult & _ & Hh & _).
      fold result in Hresult. rewrite Hresult. cbn [fst snd]. split; [done |].
      simpl. by rewrite Hh.
    + by apply (callReducerWrapper_thrown _ _ _ _ _ _ _ _ Hc).
Qed.

Lemma wrapper_forwards_to_its_setter_witness :
  hostCalls
    (callStateWrapper
       (__trackedUseState (fun _ => (VNum 0, 102)) (InitValue (VNum 0)) "App.tsx:4" "App" "b"
          (runOps render_two_setters world_idle)).1.2
       (PlainValue (VNum 9))
       (__trackedUseState (fun _ => (VNum 0, 102)) (InitValue (VNum 0)) "App.tsx:4" "App" "b"
          (runOps render_two_setters world_idle)).2).2
  = hostCalls
      (__trackedUseState (fun _ => (VNum 0, 102)) (InitValue (VNum 0)) "App.tsx:4" "App" "b"
         (runOps render_two_setters world_idle)).2
    ++ [call_rawSetState 102 (PlainValue (VNum 9))].
Proof.
  destruct (wrapper_forwards_to_its_setter render_two_setters world_idle eq_refl eq_refl)
    as [Hstate _].
  destruct (Hstate (fun _ => (VNum 0, 102)) (fun _ => (VNum 0, 101))
              (InitValue (VNum 0)) (InitValue (VNum 0))
              "App.tsx:4" "App" "b" "App.tsx:3" "App" "a" (PlainValue (VNum 9)))
    as [(meta & value & _ & _ & Hforward) _].
  exact Hforward.
Defined.

(** ** More on the effect instrumentor *)

(** X16. A registration is initial once: after any invocation, also one
    whose body threw, the two refs hold the dependencies of that run and
    the initial flag is off, so no later run of the registration is
    attributed to the mount and the next diff is taken against the run
    that just ended. *)
Theorem registration_is_initial_once (callback : Callback) (deps : option (list Value))
    (location componentName : string) (depNames : option (list string))
    (refs : EffectRefs) (w : World) :
  let refs' := (effectClosure callback deps location componentName depNames refs w).1.2 in
  isInitialRef refs' = false
  ∧ prevDepsRef refs' = deps
  ∧ (∀ deps' depNames',
        changedDepsOf refs' deps' depNames'
        = Some (default [] (getChangedDeps deps deps' depNames'))).
Proof.
  cbv zeta.
  destruct (callback (installTracker (trackerFor location componentName refs deps depNames) w))
    as [[cleanup | e] w2] eqn:Hbody.
  - destruct (effectClosure_returned _ _ _ _ _ _ _ _ _ Hbody) as (w' & -> & _).
    split; [done |]. split; [done |]. intros deps' depNames'. unfold changedDepsOf. simpl.
    by destruct (getChangedDeps deps deps' depNames').
  - rewrite (effectClosure_thrown _ _ _ _ _ _ _ _ _ Hbody).
    split; [done |]. split; [done |]. intros deps' depNames'. unfold changedDepsOf. simpl.
    by destruct (getChangedDeps deps deps' depNames').
Qed.

Lemma log_now (message : string) (type : EntryType) (location countKey : string)
    (w : World) :
  now (log message type location countKey w) = now w.
Proof.
  unfold log, scheduleFlush. destruct (effectTrackerLogger w); [done |].
  destruct (hasPerformance w); [| done]. simpl. by destruct (flushTimer w).
Qed.

Lemma attributeChange_trackers (hookName : string) (meta : Meta.t) (tracker : nat)
    (w : World) :
  tracker < length (trackers w) →
  EffectTracker.stateWasSet (trackers (attributeChange hookName meta tracker w) !!! tracker)
  = true
  ∧ now (attributeChange hookName meta tracker w) = now w.
Proof.
  intros Hlt. unfold attributeChange.
  match goal with |- context [log ?m ?t ?l ?k ?w0] =>
    destruct (log_frame m t l k w0) as (_ & Htr & _); rewrite (log_now m t l k w0) end.
  cbv zeta in Htr. rewrite Htr. cbn [trackers set_trackers now].
  by rewrite list_lookup_total_insert_eq.
Qed.

Lemma effectClosure_returned_hostCalls (callback : Callback) (deps : option (list Value))
    (location componentName : string) (depNames : option (list string))
    (refs : EffectRefs) (w : World) (cleanup : Value) (w2 : World) :
  callback (installTracker (trackerFor location componentName refs deps depNames) w)
  = (Returned cleanup, w2) →
  hostCalls (effectClosure callback deps location componentName depNames refs w).2
  = hostCalls w2.
Proof.
  intros Hbody. unfold effectClosure.
  fold (trackerFor location componentName refs deps depNames). rewrite Hbody. cbn [snd].
  match goal with |- context [logNonLoopEffect ?t ?d ?l ?c ?w4] =>
    destruct (logNonLoopEffect_frame t d l c w4) as (_ & _ & _ & Hfour & _) end.
  cbv zeta in Hfour. rewrite Hfour.
  match goal with |- context [slowEffectDetection ?t ?l ?c ?w3] =>
    destruct (slowEffectDetection_frame t l c w3) as (_ & _ & _ & Hthree & _) end.
  cbv zeta in Hthree. by rewrite Hthree.
Qed.

(** X17. An effect whose body makes one call of a tracked setter, when
    that call completes, yields exactly one entry. If the call changes the
    mirrored value, the entry is the state change, attributed to this
    effect with the reason of this run, and no effect-run entry follows.
    If the call sets the value the mirror already holds, nothing is
    attributed and the effect is reported as an ordinary effect-run. When
    the updater throws, the effect throws the same exception, nothing is
    logged, nothing reaches the host, and the execution context is put
    back. *)
Theorem effect_with_one_setter_call (wrapper : nat) (valueOrUpdater : SetStateArg)
    (deps : option (list Value)) (location componentName : string)
    (depNames : option (list string)) (refs : EffectRefs) (w : World)
    (meta : Meta.t) (value : Value) (rawSetState : nat) :
  closures w !! wrapper = Some (StateWrapper meta value rawSetState) →
  let run :=
    effectClosure (runHost [call_setState wrapper valueOrUpdater]) deps location componentName
      depNames refs w in
  match applyArg valueOrUpdater value with
  | Returned newValue =>
      run.1.1 = Returned VUndefined
      ∧ logState run.2
        = logState
            (emit (if strictEq value newValue
                   then effectRunEmission location componentName
                          (changedDepsOf refs deps depNames)
                   else stateChangeEmission "useState" meta
                          (trackerFor location componentName refs deps depNames)) w)
      ∧ EffectTracker.stateWasSet (trackers run.2 !!! length (trackers w))
        = negb (strictEq value newValue)
      ∧ hostCalls run.2 = hostCalls w ++ [call_rawSetState rawSetState valueOrUpdater]
  | Thrown e =>
      run.1.1 = Thrown e
      ∧ logState run.2 = logState w
      ∧ hostCalls run.2 = hostCalls w
      ∧ effectTracker run.2 = effectTracker w
  end.
Proof.
  intros Hclosure run.
  set (tracker := trackerFor location componentName refs deps depNames).
  set (w1 := installTracker tracker w).
  assert (closures w1 !! wrapper = Some (StateWrapper meta value rawSetState)) as Hclosure1
    by done.
  destruct (applyArg valueOrUpdater value) as [newValue | e] eqn:Hnew.
  2:{ assert (runHost [call_setState wrapper valueOrUpdater] w1 = (Thrown e, w1)) as Hbody.
      { cbn [runHost].
        by rewrite (callStateWrapper_thrown _ _ _ meta value rawSetState e Hclosure1 Hnew). }
      subst run. by rewrite (effectClosure_thrown _ _ _ _ _ _ _ _ _ Hbody). }
  destruct (callStateWrapper_unfold wrapper valueOrUpdater w1 meta value newValue rawSetState
              Hclosure1 Hnew) as (Hcall & _ & Hhost & _).
  change (effectTracker w1) with (Some (length (trackers w))) in Hcall, Hhost.
  cbv zeta in Hcall, Hhost.
  set (w2 := (callStateWrapper wrapper valueOrUpdater w1).2).
  assert (runHost [call_setState wrapper valueOrUpdater] w1 = (Returned VUndefined, w2))
    as Hbody.
  { cbn [runHost]. subst w2. by rewrite Hcall. }
  assert (w2 = (callStateWrapper wrapper valueOrUpdater w1).2) as Hw2 by done.
  rewrite Hcall in Hw2. cbn [snd] in Hw2. clear Hcall.
  destruct (effectClosure_returned _ deps location componentName depNames refs w _ _ Hbody)
    as (w' & Hrun & _ & Htrackers & Hlog).
  assert (hostCalls w' = hostCalls w2) as Hcalls.
  { assert (w' = run.2) as -> by (subst run; by rewrite Hrun).
    by apply (effectClosure_returned_hostCalls _ _ _ _ _ _ _ VUndefined). }
  assert (hostCalls w' = hostCalls w ++ [call_rawSetState rawSetState valueOrUpdater])
    as Hforward.
  { rewrite Hcalls, Hw2. cbn [hostCalls set_hostCalls set_closures]. by rewrite Hhost. }
  subst run. rewrite Hrun. cbn [fst snd]. split; [done |].
  assert (trackers w1 !!! length (trackers w) = tracker) as Hfresh
    by (unfold w1; simpl; by rewrite list_lookup_total_middle).
  destruct (strictEq value newValue) eqn:Heq; cbn [negb].
  - assert (logState w2 = logState w) as Hl by (by rewrite Hw2).
    assert (trackers w2 = trackers w1) as Ht by (by rewrite Hw2).
    assert (now w2 = now w) as Hnow by (by rewrite Hw2).
    rewrite Htrackers, Ht, Hfresh. split; [| split; [done |]].
    + rewrite Hlog, (slowPart_instant _ _ _ _ Hnow). unfold runPart. rewrite Ht, Hfresh.
      simpl. unfold emit. by apply logState_log.
    + exact Hforward.
  - destruct (attributeChange_trackers "useState" meta (length (trackers w)) w1)
      as (Hflag & Hnow1); [unfold w1; simpl; rewrite length_app; simpl; lia |].
    pose proof (attributeChange_logState "useState" meta (length (trackers w)) w1) as Hattr.
    rewrite Hfresh in Hattr.
    assert (trackers w2
            = trackers (attributeChange "useState" meta (length (trackers w)) w1)) as Ht
      by (by rewrite Hw2).
    assert (logState w2
            = logState (attributeChange "useState" meta (length (trackers w)) w1)) as Hl
      by (by rewrite Hw2).
    assert (now w2 = now w) as Hnow by (rewrite Hw2; simpl; by rewrite Hnow1).
    rewrite Htrackers, Ht, Hflag. split; [| split; [done |]].
    + rewrite Hlog, (slowPart_instant _ _ _ _ Hnow). unfold runPart. rewrite Ht, Hflag.
      simpl. rewrite Hl, Hattr. unfold emit. by apply logState_log.
    + exact Hforward.
Qed.

Lemma effect_with_one_setter_call_witness :
  logBuffer
    (effectClosure (runHost [call_setState 0 (PlainValue (VNum 1))]) (Some []) "App.tsx:6" "App"
       (Some []) freshRefs (set_effectTracker None world_in_effect)).2
  = [entryAt 5 (stateChangeEmission "useState" (Meta.mk "App.tsx:3" "App" "a")
                  (EffectTracker.mk "App.tsx:6" "App" None (Some []) false))].
Proof.
  destruct (effect_with_one_setter_call 0 (PlainValue (VNum 1)) (Some []) "App.tsx:6" "App"
              (Some []) freshRefs (set_effectTracker None world_in_effect)
              (Meta.mk "App.tsx:3" "App" "a") (VNum 0) 11 eq_refl) as (_ & Hlog & _).
  exact (f_equal (fun s => s.1.1.2) Hlog).
Defined.

(** X18. A slow-effect entry is emitted for a body that returned exactly
    when [performance] is there, the clock read more than 0 at the start,
    and the measured duration (the difference of the two clock readings,
    as the subtraction of doubles gives it) is at least 8. So it is not
    emitted when the measured duration is less than 8 ms, nor when
    [performance] is missing, nor when the clock read 0 or less at the
    start: the invocation then emits at most its effect-run entry. *)
Theorem fast_effect_has_no_slow_entry (callback : Callback) (deps : option (list Value))
    (location componentName : string) (depNames : option (list string))
    (refs : EffectRefs) (w : World) (cleanup : Value) (w2 : World) :
  callback (installTracker (trackerFor location componentName refs deps depNames) w)
  = (Returned cleanup, w2) →
  let fast :=
    match Number_sub (now w2) (now w) with
    | Finite duration => (duration < 8)%Q
    | PlusInfinity => False
    | MinusInfinity | NotANumber => True
    end in
  (slowPart location componentName w w2 = []
   ↔ fast ∨ hasPerformance w = false ∨ (now w <= 0)%Q)
  ∧ (fast ∨ hasPerformance w = false ∨ (now w <= 0)%Q →
     logState (effectClosure callback deps location componentName depNames refs w).2
     = logState (emitAll (runPart location componentName (changedDepsOf refs deps depNames)
                            w w2) w2)).
Proof.
  intros Hbody fast.
  assert (Number_leb 8 (Number_sub (now w2) (now w)) = false ↔ fast) as Hfast.
  { subst fast. destruct (Number_sub (now w2) (now w)) as [duration | | |];
      cbn [Number_leb]; [| done ..].
    rewrite <- Qltb_true. unfold Qltb. by rewrite negb_true_iff. }
  assert (slowPart location componentName w w2 = []
          ↔ fast ∨ hasPerformance w = false ∨ (now w <= 0)%Q) as Hslow.
  { rewrite <- Hfast, <- Qltb_false. unfold slowPart.
    destruct (hasPerformance w) eqn:Hperf.
    - destruct (Qltb 0 (now w)); cbn [andb].
      + destruct (Number_leb 8 (Number_sub (now w2) (now w))).
        * split; [done |]. by intros [? | [? | ?]].
        * split; [by left | done].
      + split; [by right; right | done].
    - rewrite Qltb_irrefl. cbn [andb]. split; [by right; left | done]. }
  split; [exact Hslow |]. intros Hcase.
  destruct (effectClosure_returned _ _ _ _ _ _ _ _ _ Hbody) as (w' & -> & _ & _ & Hlog).
  cbn [snd]. by rewrite Hlog, (proj2 Hslow Hcase).
Qed.

Lemma fast_effect_has_no_slow_entry_witness :
  logBuffer
    (effectClosure (runHost [busy 7]) (Some []) "A.tsx:3" "A" (Some []) freshRefs
       world_idle).2
  = [LogEntry.mk "useEffect A.tsx:3 in A ran because it was initially mounted" (5 + 7)
       EffectRun "A.tsx:3" "A.tsx:3:A"].
Proof.
  destruct (fast_effect_has_no_slow_entry (runHost [busy 7]) (Some []) "A.tsx:3" "A" (Some [])
              freshRefs world_idle VUndefined
              (set_now (now world_idle + 7)%Q
                 (installTracker (trackerFor "A.tsx:3" "A" freshRefs (Some []) (Some []))
                    world_idle))
              eq_refl) as (_ & Hlog).
  refine (f_equal (fun s => s.1.1.2) (Hlog (or_introl _))).
  vm_compute. reflexivity.
Defined.

(** ** More on the interaction observer *)

(** X19. Ties and order within one interaction. The report that [reduce]
    selects is the last of the reports with the greatest duration: every
    report that arrived before it lasts at most as long, and every report
    that arrived after it lasts strictly less. So the kept report is
    replaced by a later one as soon as the later one lasts at least as
    long, and the first report is selected only if it lasts strictly
    longer than every later one. *)
Theorem worst_report_prefers_later (first : EventTiming.t) (rest : list EventTiming.t) :
  ∃ before after,
    first :: rest = before ++ worstOf first rest :: after
    ∧ (∀ x, x ∈ before →
            (EventTiming.duration x <= EventTiming.duration (worstOf first rest))%Q)
    ∧ (∀ x, x ∈ after →
            (EventTiming.duration x < EventTiming.duration (worstOf first rest))%Q).
Proof.
  revert first. induction rest as [|curr rest IH]; intros first.
  { exists [], []. split; [done |]. split; intros x Hx; by apply elem_of_nil in Hx. }
  change (worstOf first (curr :: rest))
    with (worstOf (if Qltb (EventTiming.duration curr) (EventTiming.duration first)
                   then first else curr) rest).
  destruct (Qltb (EventTiming.duration curr) (EventTiming.duration first)) eqn:Hcmp.
  - apply Qltb_true in Hcmp.
    destruct (IH first) as (before & after & Hsplit & Hbefore & Hafter).
    destruct before as [|b before].
    + injection Hsplit as Hfirst Hrest. exists [], (curr :: rest).
      split; [by rewrite <- Hfirst |]. split; [intros x Hx; by apply elem_of_nil in Hx |].
      intros x [-> | Hx]%elem_of_cons; [by rewrite <- Hfirst |].
      apply Hafter. by rewrite <- Hrest.
    + injection Hsplit as <- Hrest. exists (first :: curr :: before), after.
      split; [simpl; do 2 f_equal; exact Hrest |]. split; [| exact Hafter].
      intros x [-> | [-> | Hx]%elem_of_cons]%elem_of_cons.
      * apply Hbefore, elem_of_cons. by left.
      * apply Qlt_le_weak. eapply Qlt_le_trans; [exact Hcmp |].
        apply Hbefore, elem_of_cons. by left.
      * apply Hbefore, elem_of_cons. by right.
  - apply Qltb_false in Hcmp.
    destruct (IH curr) as (before & after & Hsplit & Hbefore & Hafter).
    exists (first :: before), after.
    split; [simpl; f_equal; exact Hsplit |]. split; [| exact Hafter].
    intros x [-> | Hx]%elem_of_cons; [| by apply Hbefore].
    eapply Qle_trans; [exact Hcmp | apply worstOf_ge_first].
Qed.

Lemma truthyIds_snoc (raws : list EventTiming.t) (r : EventTiming.t) :
  truthyIds (raws ++ [r])
  = truthyIds raws
    ++ match EventTiming.interactionId r with
       | Some id => if bool_decide (id = 0%Z) then [] else [id]
       | None => []
       end.
Proof. unfold truthyIds. rewrite flat_map_app. simpl. by rewrite app_nil_r. Qed.

Lemma groupInteractions_keys (raws : list EventTiming.t) :
  (groupInteractions raws).*1 = foldl addKey [] (truthyIds raws).
Proof.
  induction raws as [|r raws IH] using rev_ind; [done |].
  rewrite groupInteractions_snoc, truthyIds_snoc, foldl_app.
  destruct (EventTiming.interactionId r) as [id |]; [| done].
  destruct (bool_decide (id = 0%Z)); [done |].
  simpl. by rewrite groupPush_keys, IH.
Qed.

Lemma foldl_addKey (ids : list Z) :
  ∀ keys, foldl addKey keys ids = keys ++ filter (λ x, x ∉ keys) (firstOccurrences ids).
Proof.
  induction ids as [|id rest IH]; intros keys; simpl.
  - by rewrite app_nil_r.
  - rewrite IH. unfold addKey. destruct (decide (id ∈ keys)) as [Hin | Hin].
    + rewrite bool_decide_eq_true_2 by done.
      rewrite (filter_cons_False _ id) by (intros Hnot; by apply Hnot).
      f_equal. rewrite list_filter_filter. apply list_filter_iff.
      intros x. split; [| by intros [? _]]. intros Hx. split; [done |]. by intros ->.
    + rewrite bool_decide_eq_false_2 by done.
      rewrite (filter_cons_True _ id) by done.
      rewrite <- app_assoc. simpl. do 2 f_equal.
      rewrite list_filter_filter. apply list_filter_iff.
      intros x. rewrite not_elem_of_app, list_elem_of_singleton. done.
Qed.

Lemma filter_not_in_nil (l : list Z) : filter (λ x, x ∉ []) l = l.
Proof.
  induction l as [|x l IH]; [done |].
  rewrite filter_cons_True by apply not_elem_of_nil. by rewrite IH.
Qed.

(** X20. The interactions of a batch are handled in the order in which
    their identifiers first arrive: the identifiers of the selected
    reports, in processing order, are the non-null, non-zero identifiers of
    the batch without repetitions, each at its first occurrence. *)
Theorem interactions_in_arrival_order (raws : list EventTiming.t) :
  EventTiming.interactionId <$> selectedReports raws
  = Some <$> firstOccurrences (truthyIds raws).
Proof.
  rewrite selectedReports_ids, groupInteractions_keys, foldl_addKey. simpl.
  by rewrite filter_not_in_nil.
Qed.

(** * Properties of the loader *)

Lemma startsWith_spec (needle text : string) :
  startsWith needle text = true ↔ ∃ after, text = needle +:+ after.
Proof.
  revert text. induction needle as [|a needle IH]; intros text; simpl.
  - split; [intros _; by exists text | done].
  - destruct text as [|b text]; simpl.
    + split; [done | by intros [after [=]]].
    + destruct (Ascii.eqb a b) eqn:Hab; cbn [andb].
      * apply Ascii.eqb_eq in Hab as ->. rewrite IH.
        split; intros [after H]; exists after; [by rewrite H | by injection H].
      * apply Ascii.eqb_neq in Hab. split; [done |]. intros [after [= ? _]]. done.
Qed.

Lemma includes_spec (needle text : string) :
  includes needle text = true ↔ IsSubstring needle text.
Proof.
  unfold IsSubstring. induction text as [|b text IH]; simpl.
  - rewrite orb_false_r, startsWith_spec. split.
    + intros [after H]. by exists EmptyString, after.
    + intros ([|c before] & after & H); [by exists after | done].
  - rewrite orb_true_iff, startsWith_spec, IH. split.
    + intros [[after H] | (before & after & H)].
      * by exists EmptyString, after.
      * exists (String b before), after. simpl. by rewrite H.
    + intros ([|c before] & after & H).
      * left. by exists after.
      * right. injection H as _ H. by exists before, after.
Qed.

(** X21. The loader never changes a module: either outcome carries the
    source and the source map it was given. It runs babel on a module
    exactly when the resource path contains none of the ignored folders,
    the source contains the text "react", and the source contains none of
    the four names of the tracked hooks; so a module that already went
    through the plugin is not instrumented a second time. *)
Theorem loader_decision {M : Type} (sep resourcePath source : string) (sourceMap : M) :
  (reactHookBabelLoader sep resourcePath source sourceMap = loader_babel source sourceMap
   ∨ reactHookBabelLoader sep resourcePath source sourceMap = loader_callback source sourceMap)
  ∧ (reactHookBabelLoader sep resourcePath source sourceMap = loader_babel source sourceMap
     ↔ (∀ folder, folder ∈ ignoredFolders sep → ¬ IsSubstring folder resourcePath)
       ∧ IsSubstring "react" source
       ∧ ∀ name, name ∈ trackedNames → ¬ IsSubstring name source).
Proof.
  unfold reactHookBabelLoader.
  destruct (existsb _ (ignoredFolders sep)) eqn:Hfolder.
  { split; [by right |]. split; [done |]. intros (Hnone & _).
    apply existsb_exists in Hfolder as (folder & Hin & Hinc).
    exfalso. apply (Hnone folder); [by apply list_elem_of_In | by apply includes_spec]. }
  assert (∀ folder, folder ∈ ignoredFolders sep → ¬ IsSubstring folder resourcePath) as Hnone.
  { intros folder Hin Hsub%includes_spec.
    assert (existsb (fun folder => includes folder resourcePath) (ignoredFolders sep) = true)
      as Htrue; [| congruence].
    apply existsb_exists. exists folder. split; [by apply list_elem_of_In | done]. }
  destruct (includes "react" source) eqn:Hreact; cbn [negb].
  2:{ split; [by right |]. split; [done |]. intros (_ & Hsub%includes_spec & _). congruence. }
  apply includes_spec in Hreact.
  destruct (includes "__trackedUseState" source) eqn:H1; cbn [orb].
  { split; [by right |]. split; [done |]. intros (_ & _ & Hnames). exfalso.
    apply (Hnames "__trackedUseState"); [| by apply includes_spec].
    unfold trackedNames. rewrite !elem_of_cons. auto. }
  destruct (includes "__trackedUseReducer" source) eqn:H2; cbn [orb].
  { split; [by right |]. split; [done |]. intros (_ & _ & Hnames). exfalso.
    apply (Hnames "__trackedUseReducer"); [| by apply includes_spec].
    unfold trackedNames. rewrite !elem_of_cons. auto. }
  destruct (includes "__trackedUseEffect" source) eqn:H3; cbn [orb].
  { split; [by right |]. split; [done |]. intros (_ & _ & Hnames). exfalso.
    apply (Hnames "__trackedUseEffect"); [| by apply includes_spec].
    unfold trackedNames. rewrite !elem_of_cons. auto. }
  destruct (includes "__trackedUseLayoutEffect" source) eqn:H4.
  { split; [by right |]. split; [done |]. intros (_ & _ & Hnames). exfalso.
    apply (Hnames "__trackedUseLayoutEffect"); [| by apply includes_spec].
    unfold trackedNames. rewrite !elem_of_cons. auto. }
  split; [by left |]. split; [| done]. intros _. split; [done |]. split; [done |].
  intros name Hname Hsub%includes_spec. unfold trackedNames in Hname.
  rewrite !elem_of_cons, elem_of_nil in Hname.
  destruct Hname as [-> | [-> | [-> | [-> | []]]]]; congruence.
Qed.

Lemma loader_decision_witness :
  reactHookBabelLoader "/" "/app/src/Page.tsx"
    "import { useState } from 'react'; __trackedUseState(0)" ()
  = loader_callback "import { useState } from 'react'; __trackedUseState(0)" ().
Proof.
  destruct (loader_decision "/" "/app/src/Page.tsx"
              "import { useState } from 'react'; __trackedUseState(0)" ())
    as [[Hbabel | Hback] [Hiff _]]; [| exact Hback].
  destruct (Hiff Hbabel) as (_ & _ & Hnames). exfalso.
  apply (Hnames "__trackedUseState").
  - apply elem_of_cons. by left.
  - apply includes_spec. vm_compute. reflexivity.
Defined.

Lemma splitAux_join (c : Ascii.ascii) (s : string) :
  String.concat (String c EmptyString) (split c s) = s.
Proof.
  unfold split. induction s as [|a rest IH]; [done |].
  cbn [splitAux]. destruct (splitAux c rest) as [piece pieces].
  destruct (Ascii.eqb a c) eqn:Hac.
  - apply Ascii.eqb_eq in Hac as ->.
    change (String.concat (String c EmptyString) (EmptyString :: piece :: pieces))
      with (String c (String.concat (String c EmptyString) (piece :: pieces))).
    by rewrite IH.
  - destruct pieces as [|next pieces].
    + change (String a piece = String a rest). by rewrite <- IH.
    + change (String a (String.concat (String c EmptyString) (piece :: next :: pieces))
              = String a rest).
      by rewrite IH.
Qed.

Lemma splitAux_no_separator (c : Ascii.ascii) (s : string) :
  Forall (fun piece => includes (String c EmptyString) piece = false) (split c s).
Proof.
  unfold split. induction s as [|a rest IH]; [by repeat constructor |].
  cbn [splitAux]. destruct (splitAux c rest) as [piece pieces].
  destruct (Ascii.eqb a c) eqn:Hac.
  - constructor; [done | exact IH].
  - apply Forall_cons in IH as [Hpiece Hpieces]. constructor; [| done].
    cbn [includes startsWith]. rewrite Hpiece, orb_false_r, andb_true_r.
    by rewrite Ascii.eqb_sym.
Qed.

(** X22. Splitting a string at a character and joining the pieces with
    that character gives the string back, and no piece contains the
    character. So with the POSIX separator the ignored folders are exactly
    the seven listed paths, and with any other separator every "/" of a
    listed path is replaced. *)
Theorem split_join_round_trip (c : Ascii.ascii) (s : string) :
  String.concat (String c EmptyString) (split c s) = s
  ∧ Forall (fun piece => includes (String c EmptyString) piece = false) (split c s)
  ∧ ignoredFolders "/"
    = ["/node_modules/react-dom/";
       "/node_modules/react/";
       "/compiled/react-dom/";
       "/compiled/react/";
       "/compiled/react-server-dom-webpack/";
       "compiled/next-devtools/";
       "react-refresh/cjs/react-refresh-runtime.development.js"].
Proof.
  split; [apply splitAux_join |]. split; [apply splitAux_no_separator |].
  unfold ignoredFolders. cbn [map].
  change "/" with (String slash EmptyString). by rewrite !splitAux_join.
Qed.

(** * Properties of the Babel plugin *)

Lemma str_app_assoc (a b c : string) : (a +:+ b) +:+ c = a +:+ (b +:+ c).
Proof.
  induction a as [|x a IH]; [done |].
  change (String x ((a +:+ b) +:+ c) = String x (a +:+ (b +:+ c))). by rewrite IH.
Qed.

Lemma str_app_nonempty (a : string) (x : Ascii.ascii) (b : string) :
  a +:+ String x b ≠ EmptyString.
Proof. by destruct a. Qed.

Lemma concat_head_app (sep a b : string) (rest : list string) :
  String.concat sep ((a +:+ b) :: rest) = a +:+ String.concat sep (b :: rest).
Proof.
  destruct rest as [|next rest]; [done |].
  change ((a +:+ b) +:+ (sep +:+ String.concat sep (next :: rest))
          = a +:+ (b +:+ (sep +:+ String.concat sep (next :: rest)))).
  apply str_app_assoc.
Qed.

Lemma memberExpressionToString_chain (node : Node) (props : list string) :
  memberExpressionToString
    (foldl (fun object prop => MemberExpression object (Identifier prop) false) node props)
  = String.concat "." (memberExpressionToString node :: props).
Proof.
  revert node. induction props as [|prop props IH]; intros node; [done |].
  cbn [foldl]. rewrite IH.
  change (memberExpressionToString (MemberExpression node (Identifier prop) false))
    with (memberExpressionToString node +:+ ("." +:+ prop)).
  rewrite concat_head_app, concat_head_app. done.
Qed.

(** X23. For a dependency array written as a literal, the plugin produces
    exactly one name per element, in order: the printed form of the
    element, and "complex" for a hole; identifiers and member expressions
    print as names, every other expression as "complex". For a missing
    second argument, or one that is not an array literal, and only then, it
    produces no names at all. *)
Theorem stringifyDeps_aligned (elements : list (option Node)) :
  stringifyDeps (Some (ArrayExpression elements))
  = Some (map (from_option memberExpressionToString "complex") elements)
  ∧ length (map (from_option memberExpressionToString "complex") elements) = length elements
  ∧ ∀ depsNode,
      stringifyDeps depsNode = None ↔ ∀ others, depsNode ≠ Some (ArrayExpression others).
Proof.
  split; [| split].
  - cbn [stringifyDeps]. f_equal. apply map_ext. intros [[]|]; done.
  - apply length_map.
  - intros [[]|]; cbn [stringifyDeps]; split; try done.
    intros Hne. exfalso. by eapply Hne.
Qed.

(** X24. A chain of property accesses prints as it is written in the
    source, [head.p1.p2...], and a computed access by an identifier as
    [chain[key]]. *)
Theorem member_chain_prints_as_written (head : string) (props : list string) (key : string) :
  memberExpressionToString (dotted head props) = String.concat "." (head :: props)
  ∧ memberExpressionToString (MemberExpression (dotted head props) (Identifier key) true)
    = String.concat "." (head :: props) +:+ "[" +:+ key +:+ "]".
Proof.
  assert (memberExpressionToString (dotted head props) = String.concat "." (head :: props))
    as Hchain by apply memberExpressionToString_chain.
  split; [done |].
  cbn [memberExpressionToString]. by rewrite Hchain.
Qed.

Lemma printed_element_nonempty (el : option Node) :
  (∀ name, el = Some (Identifier name) → name ≠ EmptyString) →
  from_option memberExpressionToString "complex" el ≠ EmptyString.
Proof.
  intros Hname. destruct el as [[name| object property computed| | | | | |]|]; try done.
  - cbn. by apply Hname.
  - cbn [from_option memberExpressionToString].
    destruct computed; apply str_app_nonempty.
Qed.

(** X25. The names the plugin generates for a literal dependency array are
    never empty (identifiers have non-empty names), so the runtime labels
    every position of the literal with the plugin's name and never with
    the positional fallback; whenever the array at run time is no longer
    than the literal, every name the differ reports is one the plugin
    wrote. *)
Theorem plugin_names_label_every_position (elements : list (option Node))
    (names : list string) :
  stringifyDeps (Some (ArrayExpression elements)) = Some names →
  (∀ j name, elements !! j = Some (Some (Identifier name)) → name ≠ EmptyString) →
  (∀ i, i < length elements → names !! i = Some (depNameAt names i))
  ∧ ∀ prev current changed,
      length current ≤ length elements →
      getChangedDeps (Some prev) (Some current) (Some names) = Some changed →
      changed ⊆ names.
Proof.
  intros Hnames Hids.
  destruct (stringifyDeps_aligned elements) as (Heq & _ & _).
  rewrite Heq in Hnames. injection Hnames as <-.
  assert (∀ i, i < length elements →
            map (from_option memberExpressionToString "complex") elements !! i
            = Some (depNameAt (map (from_option memberExpressionToString "complex") elements) i))
    as Hlabel.
  { intros i Hi. unfold depNameAt.
    destruct (lookup_lt_is_Some_2 elements i Hi) as [el Hel].
    rewrite list_lookup_fmap, Hel. cbn [fmap option_fmap option_map].
    rewrite bool_decide_eq_false_2; [done |].
    apply printed_element_nonempty. intros name ->. by apply (Hids i). }
  split; [exact Hlabel |].
  intros prev current changed Hlen Hchanged.
  rewrite getChangedDeps_changed in Hchanged. injection Hchanged as <-.
  intros label Hlabel'.
  apply list_elem_of_fmap in Hlabel' as (i & -> & Hi).
  apply list_elem_of_filter in Hi as [_ Hi]. apply elem_of_seq in Hi.
  eapply list_elem_of_lookup_2. symmetry. apply eq_sym. apply Hlabel. lia.
Qed.

Lemma plugin_names_label_every_position_witness :
  ["count"; "props.user.id"; "complex"] !! 1
  = Some (depNameAt ["count"; "props.user.id"; "complex"] 1).
Proof.
  refine (proj1 (plugin_names_label_every_position
                   [Some (Identifier "count"); Some (dotted "props" ["user"; "id"]); None]
                   ["count"; "props.user.id"; "complex"] _ _) 1 _).
  - reflexivity.
  - intros [|[|[|j]]] name; cbn; intros [=]; by subst.
  - cbn. lia.
Defined.

Lemma isHookCall_name (callee : Node) (hookA hookB : string) :
  isHookCall callee hookA = true → isHookCall callee hookB = true → hookA = hookB.
Proof.
  destruct callee as [name| object [other| | | | | | |] computed| | | | | |];
    cbn [isHookCall]; try done;
    intros HA%bool_decide_eq_true_1 HB%bool_decide_eq_true_1; congruence.
Qed.

Lemma isHookCall_tracked (name hook : string) :
  name ∈ trackedNames →
  hook ∈ ["useState"; "useReducer"; "useEffect"; "useLayoutEffect"] →
  isHookCall (Identifier name) hook = false.
Proof.
  unfold trackedNames. rewrite !elem_of_cons, !elem_of_nil.
  intros [-> | [-> | [-> | [-> | []]]]] [-> | [-> | [-> | [-> | []]]]]; reflexivity.
Qed.

Lemma visit_tracked (name : string) (args : list Node) (line : option nat)
    (parents : list PathNode) (state : PluginPass.t) :
  name ∈ trackedNames →
  visitCallExpression (CallPath.mk (Identifier name) args line parents) state = (None, state).
Proof.
  intros Hname. unfold visitCallExpression. cbn [CallPath.callee].
  rewrite !(isHookCall_tracked name) by (done || (rewrite !elem_of_cons; auto)).
  done.
Qed.

Lemma callsTo_call (name callee : string) (args : list Node) :
  callsTo name (Some (CallExpression (Identifier callee) args)) = bool_decide (callee = name).
Proof. reflexivity. Qed.

Ltac visit_branch :=
  split;
  [ right; eexists _, _; split; [reflexivity |]; rewrite !elem_of_cons; repeat split; auto 10
  | rewrite !callsTo_call;
    rewrite ?bool_decide_eq_true_2 by done; rewrite ?bool_decide_eq_false_2 by done;
    by rewrite ?orb_true_r, ?orb_false_r ].

(** The replacement of one visit, and what the visit does to the flags. *)
Lemma visit_outcome (path : CallPath.t) (state : PluginPass.t) :
  let replacement := (visitCallExpression path state).1 in
  let after := (visitCallExpression path state).2 in
  (replacement = None ∧ after = state
   ∨ ∃ name args,
       replacement = Some (CallExpression (Identifier name) args)
       ∧ name ∈ trackedNames
       ∧ args !! 0 = Some (argOr (CallPath.arguments path) 0)
       ∧ PluginPass.needsImport after = true)
  ∧ PluginPass.filename after = PluginPass.filename state
  ∧ PluginPass.optsFilename after = PluginPass.optsFilename state
  ∧ PluginPass.hasUseState after
    = PluginPass.hasUseState state || callsTo "__trackedUseState" replacement
  ∧ PluginPass.hasUseReducer after
    = PluginPass.hasUseReducer state || callsTo "__trackedUseReducer" replacement
  ∧ PluginPass.hasUseEffect after
    = PluginPass.hasUseEffect state || callsTo "__trackedUseEffect" replacement
  ∧ PluginPass.hasUseLayoutEffect after
    = PluginPass.hasUseLayoutEffect state || callsTo "__trackedUseLayoutEffect" replacement.
Proof.
  unfold visitCallExpression, trackedNames.
  destruct (isHookCall (CallPath.callee path) "useState") eqn:HS.
  { cbn [fst snd PluginPass.filename PluginPass.optsFilename PluginPass.hasUseState
         PluginPass.hasUseReducer PluginPass.hasUseEffect PluginPass.hasUseLayoutEffect
         PluginPass.needsImport].
    visit_branch. }
  destruct (isHookCall (CallPath.callee path) "useReducer") eqn:HR.
  { cbn [fst snd PluginPass.filename PluginPass.optsFilename PluginPass.hasUseState
         PluginPass.hasUseReducer PluginPass.hasUseEffect PluginPass.hasUseLayoutEffect
         PluginPass.needsImport].
    visit_branch. }
  destruct (isHookCall (CallPath.callee path) "useEffect") eqn:HE.
  { destruct (isHookCall (CallPath.callee path) "useLayoutEffect") eqn:HL.
    { by pose proof (isHookCall_name _ _ _ HE HL). }
    cbn [orb fst snd PluginPass.filename PluginPass.optsFilename PluginPass.hasUseState
         PluginPass.hasUseReducer PluginPass.hasUseEffect PluginPass.hasUseLayoutEffect
         PluginPass.needsImport].
    visit_branch. }
  destruct (isHookCall (CallPath.callee path) "useLayoutEffect") eqn:HL.
  { cbn [orb fst snd PluginPass.filename PluginPass.optsFilename PluginPass.hasUseState
         PluginPass.hasUseReducer PluginPass.hasUseEffect PluginPass.hasUseLayoutEffect
         PluginPass.needsImport].
    visit_branch. }
  cbn. rewrite !orb_false_r. split; [by left | done].
Qed.

(** X26. When the visitor replaces a call, the replacement is a call of one
    of the four tracked functions whose first argument is the original
    first argument ([undefined] when there was none), and visiting the
    replacement, wherever it stands, changes neither it nor the state: a
    call is instrumented once. *)
Theorem rewritten_call_is_left_alone (path : CallPath.t) (state : PluginPass.t)
    (node : Node) (after : PluginPass.t) :
  visitCallExpression path state = (Some node, after) →
  ∃ name args,
    node = CallExpression (Identifier name) args
    ∧ name ∈ trackedNames
    ∧ args !! 0 = Some (argOr (CallPath.arguments path) 0)
    ∧ ∀ line parents later,
        visitCallExpression (CallPath.mk (Identifier name) args line parents) later
        = (None, later).
Proof.
  intros Hvisit.
  destruct (visit_outcome path state) as [[[Hnone _] | (name & args & Hsome & Hname & Hfirst & _)] _].
  { rewrite Hvisit in Hnone. done. }
  rewrite Hvisit in Hsome. injection Hsome as ->.
  exists name, args. repeat split; try done.
  intros line parents later. by apply visit_tracked.
Qed.

Lemma rewritten_call_is_left_alone_witness :
  ∃ name args,
    CallExpression (Identifier "__trackedUseState")
      [Identifier "undefined"; StringLiteral "Counter.tsx:5"; StringLiteral "Counter";
       StringLiteral "count"]
    = CallExpression (Identifier name) args
    ∧ name ∈ trackedNames
    ∧ args !! 0 = Some (Identifier "undefined")
    ∧ ∀ line parents later,
        visitCallExpression (CallPath.mk (Identifier name) args line parents) later
        = (None, later).
Proof.
  apply (rewritten_call_is_left_alone
           (CallPath.mk (MemberExpression (Identifier "React") (Identifier "useState") false)
              [] (Some 5)
              [VariableDeclarator
                 (ArrayPattern [Some (Identifier "count"); Some (Identifier "setCount")]);
               OtherPath; OtherPath; FunctionDeclaration (Some "Counter")])
           (PluginPass.mk (Some "/app/src/Counter.tsx") None false false false false false)
           _
           (PluginPass.mk (Some "/app/src/Counter.tsx") None true true false false false)).
  vm_compute. reflexivity.
Defined.

Lemma visitCalls_flags (paths : list CallPath.t) :
  ∀ state,
    let replacements := (visitCalls paths state).1 in
    let final := (visitCalls paths state).2 in
    PluginPass.needsImport final
    = PluginPass.needsImport state || existsb (fun r => bool_decide (r ≠ None)) replacements
    ∧ PluginPass.hasUseState final
      = PluginPass.hasUseState state || existsb (callsTo "__trackedUseState") replacements
    ∧ PluginPass.hasUseReducer final
      = PluginPass.hasUseReducer state || existsb (callsTo "__trackedUseReducer") replacements
    ∧ PluginPass.hasUseEffect final
      = PluginPass.hasUseEffect state || existsb (callsTo "__trackedUseEffect") replacements
    ∧ PluginPass.hasUseLayoutEffect final
      = PluginPass.hasUseLayoutEffect state
        || existsb (callsTo "__trackedUseLayoutEffect") replacements.
Proof.
  induction paths as [|path rest IH]; intros state.
  { cbn. by rewrite !orb_false_r. }
  cbn [visitCalls].
  pose proof (visit_outcome path state) as Hone.
  destruct (visitCallExpression path state) as [replacement state1]. cbn [fst snd] in Hone.
  specialize (IH state1).
  destruct (visitCalls rest state1) as [replacements state2]. cbn [fst snd] in IH |- *.
  destruct IH as (IN & IS & IR & IE & IL).
  destruct Hone as (Hcase & _ & _ & HS & HR & HE & HL).
  cbn [existsb]. rewrite IN, IS, IR, IE, IL, HS, HR, HE, HL, !orb_assoc.
  repeat split; try done.
  destruct Hcase as [[-> ->] | (name & args & -> & _ & _ & ->)].
  - rewrite bool_decide_eq_false_2 by (intros Hne; by apply Hne). by rewrite orb_false_r.
  - rewrite bool_decide_eq_true_2 by done. by rewrite orb_true_r.
Qed.

Lemma visitCalls_replacements (paths : list CallPath.t) :
  ∀ state,
    Forall (fun r => r = None ∨ ∃ name, name ∈ trackedNames ∧ callsTo name r = true)
      (visitCalls paths state).1.
Proof.
  induction paths as [|path rest IH]; intros state; [constructor |].
  cbn [visitCalls].
  pose proof (visit_outcome path state) as Hone.
  destruct (visitCallExpression path state) as [replacement state1]. cbn [fst snd] in Hone.
  specialize (IH state1).
  destruct (visitCalls rest state1) as [replacements state2]. cbn [fst snd] in IH |- *.
  constructor; [| done].
  destruct Hone as ([[-> _] | (name & args & -> & Hname & _)] & _); [by left |].
  right. exists name. split; [done |]. cbn. by apply bool_decide_eq_true_2.
Qed.

Lemma importedNames_elem (state : PluginPass.t) (name : string) :
  name ∈ importedNames state
  ↔ (name = "__trackedUseState" ∧ PluginPass.hasUseState state = true)
    ∨ (name = "__trackedUseReducer" ∧ PluginPass.hasUseReducer state = true)
    ∨ (name = "__trackedUseEffect" ∧ PluginPass.hasUseEffect state = true)
    ∨ (name = "__trackedUseLayoutEffect" ∧ PluginPass.hasUseLayoutEffect state = true).
Proof.
  unfold importedNames.
  destruct (PluginPass.hasUseState state), (PluginPass.hasUseReducer state),
    (PluginPass.hasUseEffect state), (PluginPass.hasUseLayoutEffect state);
    cbn [app]; rewrite ?elem_of_cons, ?elem_of_nil; intuition congruence.
Qed.

Lemma importedNames_NoDup (state : PluginPass.t) : NoDup (importedNames state).
Proof.
  unfold importedNames.
  destruct (PluginPass.hasUseState state), (PluginPass.hasUseReducer state),
    (PluginPass.hasUseEffect state), (PluginPass.hasUseLayoutEffect state);
    cbn [app]; repeat apply NoDup_cons_2; try apply NoDup_nil_2;
    rewrite ?elem_of_cons, ?elem_of_nil; intuition discriminate.
Qed.

(** X27. After a pass over any sequence of calls, the declaration added at
    the top of the file imports exactly the tracked functions that some
    replacement calls, each once, as a [require] in a script and an
    [import] in a module; nothing is added exactly when no call was
    replaced; and every replacement calls one of the four tracked
    functions. *)
Theorem imports_match_rewrites (paths : list CallPath.t) (state : PluginPass.t)
    (isCJS : bool) :
  let replacements := (visitCalls paths (programEnter state)).1 in
  let final := (visitCalls paths (programEnter state)).2 in
  (programExit isCJS final = None ↔ Forall (fun r => r = None) replacements)
  ∧ (∀ form,
       programExit isCJS final = Some form →
       NoDup (namesOf form)
       ∧ (∀ name, name ∈ namesOf form
                  ↔ name ∈ trackedNames ∧ existsb (callsTo name) replacements = true)
       ∧ form = (if isCJS then RequireDeclaration else ImportDeclaration)
                  (namesOf form) "@jantimon/react-render-loop-tracer/runtime")
  ∧ Forall (fun r => r = None ∨ ∃ name, name ∈ trackedNames ∧ callsTo name r = true)
      replacements.
Proof.
  intros replacements final.
  destruct (visitCalls_flags paths (programEnter state)) as (HN & HS & HR & HE & HL).
  fold replacements final in HN, HS, HR, HE, HL. cbn [programEnter PluginPass.needsImport
    PluginPass.hasUseState PluginPass.hasUseReducer PluginPass.hasUseEffect
    PluginPass.hasUseLayoutEffect orb] in HN, HS, HR, HE, HL.
  pose proof (visitCalls_replacements paths (programEnter state)) as Hall.
  fold replacements in Hall.
  assert (∀ name, name ∈ importedNames final
                  ↔ name ∈ trackedNames ∧ existsb (callsTo name) replacements = true)
    as Hnames.
  { intros name. rewrite importedNames_elem, HS, HR, HE, HL. unfold trackedNames.
    rewrite !elem_of_cons, elem_of_nil. intuition (subst; auto 10). }
  assert (Forall (fun r => r = None) replacements ↔ importedNames final = []) as Hnone.
  { split.
    - intros Hnone. apply elem_of_nil_inv. intros name Hin.
      apply Hnames in Hin as [_ Hex]. apply existsb_exists in Hex as (r & Hr & Hcall).
      apply list_elem_of_In in Hr. rewrite Forall_forall in Hnone.
      rewrite (Hnone r Hr) in Hcall. done.
    - intros Hempty. apply Forall_forall. intros r Hr.
      rewrite Forall_forall in Hall. destruct (Hall r Hr) as [-> | (name & Hname & Hcall)]; [done |].
      assert (name ∈ importedNames final) as Hin.
      { apply Hnames. split; [done |]. apply existsb_exists. exists r.
        split; [by apply list_elem_of_In | done]. }
      rewrite Hempty in Hin. by apply elem_of_nil in Hin. }
  assert (PluginPass.needsImport final = false → importedNames final = []) as Hflag.
  { intros Hfalse. apply Hnone. rewrite HN in Hfalse. apply Forall_forall. intros r Hr.
    destruct r as [node|]; [| done].
    assert (existsb (fun r => bool_decide (r ≠ None)) replacements = true) as Htrue; [| congruence].
    apply existsb_exists. exists (Some node). split; [by apply list_elem_of_In |].
    by apply bool_decide_eq_true_2. }
  split; [| split; [| exact Hall]].
  - rewrite Hnone. unfold programExit.
    destruct (PluginPass.needsImport final) eqn:Hneeds; cbn [negb].
    2:{ split; [intros _; by apply Hflag | done]. }
    destruct (importedNames final) as [|name names] eqn:Hlist; [done |].
    cbn. destruct isCJS; done.
  - intros form Hform. unfold programExit in Hform.
    destruct (PluginPass.needsImport final); cbn [negb] in Hform; [| done].
    destruct (bool_decide (length (importedNames final) = 0)); [done |].
    assert (namesOf form = importedNames final) as Hof
      by (destruct isCJS; injection Hform as <-; done).
    rewrite Hof. split; [apply importedNames_NoDup |]. split; [exact Hnames |].
    destruct isCJS; injection Hform as <-; done.
Qed.




Lemma split_without_separator (c : Ascii.ascii) (s : string) :
  includes (String c EmptyString) s = false → split c s = [s].
Proof.
  unfold split. induction s as [|a rest IH]; [done |].
  cbn [includes startsWith splitAux]. rewrite andb_true_r.
  intros [Hac Hrest]%orb_false_iff. specialize (IH Hrest).
  destruct (splitAux c rest) as [piece pieces]. injection IH as -> ->.
  rewrite Ascii.eqb_sym in Hac. by rewrite Hac.
Qed.

Lemma split_last_after_separator (c : Ascii.ascii) (a b : string) :
  last (split c (a +:+ String c b)) = last (split c b).
Proof.
  assert (is_Some (last (split c b))) as [piece Hpiece].
  { unfold split. destruct (splitAux c b) as [first pieces].
    rewrite last_cons. by destruct (last pieces). }
  assert (last (splitAux c (a +:+ String c b)).2 = last (split c b)) as Hrest.
  { induction a as [|x a IH].
    - change (EmptyString +:+ String c b) with (String c b). unfold split. cbn [splitAux].
      destruct (splitAux c b) as [first pieces]. by rewrite Ascii.eqb_refl.
    - change (String x a +:+ String c b) with (String x (a +:+ String c b)). cbn [splitAux].
      destruct (splitAux c (a +:+ String c b)) as [first pieces]. cbn [snd] in IH.
      destruct (Ascii.eqb x c); cbn [snd]; [| done].
      by rewrite last_cons, IH, Hpiece. }
  unfold split at 1. destruct (splitAux c (a +:+ String c b)) as [first pieces].
  cbn [snd] in Hrest. by rewrite last_cons, Hrest, Hpiece.
Qed.

(** X29. The file part of a location is the text after the last "/" of
    the file name: for a file name [directory/name], where [name] is not
    empty and contains no "/", it is [name], whatever the directory. A
    file name without any "/" is used whole, and so is a file name that
    ends in "/". *)
Theorem short_filename_is_last_segment (directory name : string) :
  (name ≠ EmptyString → includes "/" name = false →
   shortFilename (directory +:+ "/" +:+ name) = name)
  ∧ (includes "/" name = false → shortFilename name = name)
  ∧ shortFilename (directory +:+ "/") = directory +:+ "/".
Proof.
  unfold shortFilename. split; [| split].
  - intros Hname Hfree.
    change (directory +:+ "/" +:+ name) with (directory +:+ String slash name).
    rewrite split_last_after_separator, (split_without_separator slash name Hfree).
    cbn [last orElse]. by rewrite bool_decide_eq_false_2.
  - intros Hfree. rewrite (split_without_separator slash name Hfree). cbn [last orElse].
    by destruct (bool_decide (name = EmptyString)).
  - change (directory +:+ "/") with (directory +:+ String slash EmptyString).
    by rewrite split_last_after_separator.
Qed.
